(** * Interrupt-driven low-pass filter and multiplexed display (main.c)

    A shallow embedding of the two interrupt handlers of [main.c]:
    [adc_handler], which samples the ADC, runs the first-order recurrence
    filter, drives the DAC and refreshes the four display digits, and
    [display_handler], which multiplexes the four-digit display.

    Integers of the C code are [Z] with their wrap-around written out.
    The [float] arithmetic is kept behind a small interface, [FloatOps],
    with two instances: IEEE-754 binary32 (what the target computes) and
    exact rationals (the real-number reading of the recurrence).

    The configuration functions and [main] are embedded in [Config]: they
    run on a machine that holds the two timer pointers, the values the
    registers will return and the trace of the accesses made. *)

From Stdlib Require Import ZArith QArith Qabs Qround Qpower Lia Lqa List Permutation.
From Stdlib Require Import Floats.SpecFloat.
From stdpp Require Import base option list.
Import ListNotations.

Open Scope Z_scope.

(** ** Machine integers *)

Definition UINT8_wrap (z : Z) : Z := z mod 2 ^ 8.
Definition UINT32_wrap (z : Z) : Z := z mod 2 ^ 32.

(** ** Compile-time configuration *)

Definition RESOLUTION : Z := 12.
Definition DISPLAY_DIGIT_SIZE_MAX : Z := 4.
Definition SAMP_FREQ : Z := 1000.
Definition BW : Z := 100.

(** Largest value of the ADC for a resolution selector: the
    [#if RESOLUTION == 16 ... #elif RESOLUTION == 12] of [adc_handler]. *)
Definition native_max (R : Z) : Z := if R =? 16 then 0xFFFF else 4095.

(** ** Floating-point interface *)

Class FloatOps (F : Type) := {
  of_Z : Z -> F;
  fadd : F -> F -> F;
  fsub : F -> F -> F;
  fmul : F -> F -> F;
  fdiv : F -> F -> F
}.

(** The literal [3.14] and the initialiser [BW*2*PI/SAMP_FREQ] of [omega],
    in the arithmetic of the instance. *)
Definition PI {F} `{FloatOps F} : F := fdiv (of_Z 314) (of_Z 100).

Definition omega_expr {F} `{FloatOps F} : F :=
  fdiv (fmul (of_Z (BW * 2)) PI) (of_Z SAMP_FREQ).

(** *** IEEE-754 instances *)

Module IEEE.

Section Format.

Variables prec emax : Z.

Definition ieee_of_Z (z : Z) : spec_float :=
  binary_normalize prec emax z 0 false.

Definition ieee_ops : FloatOps spec_float := {|
  of_Z := ieee_of_Z;
  fadd := SFadd prec emax;
  fsub := SFsub prec emax;
  fmul := SFmul prec emax;
  fdiv := SFdiv prec emax
|}.

(** Conversion of a value of a wider format to this one. *)
Definition ieee_round (v : spec_float) : spec_float :=
  match v with
  | S754_finite s m e => binary_round prec emax s m e
  | _ => v
  end.

End Format.

Definition is_finite (v : spec_float) : bool :=
  match v with
  | S754_zero _ | S754_finite _ _ _ => true
  | _ => false
  end.

(** Zero of either sign or a positive finite number. *)
Definition is_nonneg (v : spec_float) : bool :=
  match v with
  | S754_zero _ | S754_finite false _ _ => true
  | _ => false
  end.

(** Exact value of a finite float (0 for the others). *)
Definition F2Q (v : spec_float) : Q :=
  match v with
  | S754_finite s m e =>
      let a := (inject_Z (Z.pos m) * Qpower 2 e)%Q in
      if s then Qopp a else a
  | _ => 0%Q
  end.

(** *** Rounding to nearest, ties to even, on rationals

    What [binary_round_aux] computes, stated on the exact value. *)

Definition pow2 (e : Z) : Q := Qpower 2 e.

(** Round to the nearest integer, ties to even. *)
Definition rnd (u : Q) : Z :=
  let f := Qfloor u in
  match Qcompare (u - inject_Z f) (1 # 2) with
  | Lt => f
  | Eq => if Z.even f then f else f + 1
  | Gt => f + 1
  end.

(** The rounding of [x] on the grid of the multiples of [2^E]. *)
Definition round_at (E : Z) (x : Q) : Q :=
  (inject_Z (rnd (x / pow2 E)) * pow2 E)%Q.

(** [x] has bit length [L]: [2^(L-1) <= x < 2^L]. *)
Definition bitlen (x : Q) (L : Z) : Prop := (pow2 (L - 1) <= x < pow2 L)%Q.

(** The shift record [mrs], at exponent [e], locates the value [x]: its
    mantissa and round bit are the integer part of [2x / 2^e], and its
    sticky bit tells whether a fraction is left. *)
Definition located (mrs : shr_record) (e : Z) (x : Q) : Prop :=
  0 <= shr_m mrs /\
  Qfloor (x * pow2 (1 - e)) = 2 * shr_m mrs + Z.b2z (shr_r mrs) /\
  (shr_s mrs = false <->
   (x * pow2 (1 - e) == inject_Z (Qfloor (x * pow2 (1 - e))))%Q).

(** [v] is the float nearest to the non-negative [x], in the format of
    precision [prec] and largest exponent [emax]. *)
Definition rounded (prec emax : Z) (x v : Q) : Prop :=
  (x == 0 /\ v == 0)%Q \/
  exists L, bitlen x L /\ (v == round_at (fexp prec emax L) x)%Q.

End IEEE.

Definition binary32 : FloatOps spec_float := IEEE.ieee_ops 24 128.
Definition binary64 : FloatOps spec_float := IEEE.ieee_ops 53 1024.

(** [static const float omega = BW*2*PI/SAMP_FREQ]: the constant
    expression has type double and is converted to float. *)
Definition omega32 : spec_float :=
  IEEE.ieee_round 24 128 (@omega_expr _ binary64).

(** *** Exact instance *)

Definition exact : FloatOps Q := {|
  of_Z := inject_Z;
  fadd := Qplus;
  fsub := Qminus;
  fmul := Qmult;
  fdiv := Qdiv
|}.

Definition omega_exact : Q := @omega_expr _ exact.

(** ** Helpers of PeriphBoard/utilities *)

(** Modelled from the spec: [map32] of PeriphBoard/utilities is not part of
    the sources at hand; the spec gives the standard linear interpolation
    [out = out_lo + (in - in_lo) * (out_hi - out_lo) / (in_hi - in_lo)],
    here in unsigned 32-bit arithmetic with truncating division. *)
Definition map32 (v in_lo in_hi out_lo out_hi : Z) : Z :=
  UINT32_wrap (out_lo +
    UINT32_wrap (UINT32_wrap (UINT32_wrap (v - in_lo) * UINT32_wrap (out_hi - out_lo))
                 / UINT32_wrap (in_hi - in_lo))).

(** Modelled from the spec: [mapf] of PeriphBoard/utilities is not part of
    the sources at hand; the same interpolation, in the float arithmetic. *)
Definition mapf {F} `{FloatOps F} (v in_lo in_hi out_lo out_hi : F) : F :=
  fadd out_lo (fdiv (fmul (fsub v in_lo) (fsub out_hi out_lo)) (fsub in_hi in_lo)).

(** ** Arrays with checked indices

    An access outside the array is undefined in C; here it is [None]. *)

Definition array_get (a : list Z) (i : Z) : option Z :=
  if i <? 0 then None else a !! Z.to_nat i.

Definition array_set (a : list Z) (i : Z) (v : Z) : option (list Z) :=
  if (i <? 0) || (Z.of_nat (length a) <=? i) then None
  else Some (<[Z.to_nat i := v]> a).

(** ** The firmware state and its two handlers *)

Section Firmware.

Context {F : Type} `{FloatOps F}.

Variable omega : F.

(** Calls into the peripheral drivers and writes to the interrupt flag
    registers, in program order. *)
Inductive event : Type :=
| write_to_dac (v : F)
| display_dig (a0 value position : Z) (dp blank : bool)
| adc_intflag_set (bits : Z)
| disp_intflag_set (bits : Z).

(** The statics of [main.c]. *)
Record state : Type := mk_state {
  adc_raw : Z;
  adc_volt : Z;
  x : F;
  y : F;
  y_prev : F;
  x_prev : F;
  display_number : list Z;
  dig : Z
}.

Definition init_state : state := {|
  adc_raw := 0; adc_volt := 0;
  x := of_Z 0; y := of_Z 0; y_prev := of_Z 0; x_prev := of_Z 0;
  display_number := [1; 1; 1; 1];
  dig := 0
|}.

(** The filter recurrence of [adc_handler]: the new output, from the
    previous output and the previous input. *)
Definition lpf (yp xp : F) : F :=
  fadd (fmul (fsub (of_Z 1) omega) yp) (fmul omega xp).

Definition adc_handler (intflag sample : Z) (s : state)
  : option (state * list event) :=
  if Z.land intflag 1 =? 0 then Some (s, [])
  else
    let adc_raw' := UINT32_wrap sample in
    let x' := of_Z adc_raw' in
    let y' := lpf (y_prev s) (x_prev s) in
    let out :=
      mapf y' (of_Z 0) (of_Z (native_max RESOLUTION)) (of_Z 0) (of_Z 1023) in
    let adc_volt' := map32 adc_raw' 0 0xFFFF 0 3300 in
    d0 ← array_set (display_number s) 0
           (UINT8_wrap (UINT32_wrap (adc_volt' mod 10)));
    d1 ← array_set d0 1 (UINT8_wrap (UINT32_wrap ((adc_volt' mod 100) / 10)));
    d2 ← array_set d1 2 (UINT8_wrap (UINT32_wrap ((adc_volt' mod 1000) / 100)));
    d3 ← array_set d2 3 (UINT8_wrap (UINT32_wrap ((adc_volt' mod 10000) / 1000)));
    Some ({| adc_raw := adc_raw'; adc_volt := adc_volt';
             x := x'; y := y'; y_prev := y'; x_prev := x';
             display_number := d3; dig := dig s |},
          [write_to_dac out; adc_intflag_set (Z.lor intflag 1)]).

(** The cursor advance of [display_handler]. *)
Definition next_dig (d : Z) : Z :=
  UINT8_wrap (if d =? DISPLAY_DIGIT_SIZE_MAX - 1 then 0 else d + 1).

(** Assignment to the static [dig]; nothing else changes. *)
Definition set_dig (s : state) (d : Z) : state := {|
  adc_raw := adc_raw s; adc_volt := adc_volt s;
  x := x s; y := y s; y_prev := y_prev s; x_prev := x_prev s;
  display_number := display_number s; dig := d
|}.

Definition display_handler (intflag : Z) (s : state)
  : option (state * list event) :=
  if Z.land intflag 1 =? 0 then Some (s, [])
  else
    v ← array_get (display_number s) (DISPLAY_DIGIT_SIZE_MAX - 1 - dig s);
    Some (set_dig s (next_dig (dig s)),
          [display_dig 0 v (dig s) false false]).

Definition TC6_Handler (intflag sample : Z) (s : state)
  : option (state * list event) :=
  adc_handler intflag sample s.

Definition TC7_Handler (intflag : Z) (s : state)
  : option (state * list event) :=
  '(s', evs) ← display_handler intflag s;
  Some (s', evs ++ [disp_intflag_set (Z.lor intflag 1)]).

(** *** Sequences of activations

    Each handler runs to completion; a run is any interleaving of the two
    interrupts, each with the flag register it finds (and, for the ADC
    interrupt, the sample [read_adc] returns). *)

Inductive activation : Type :=
| adc_tick (intflag sample : Z)
| display_tick (intflag : Z).

Definition fire (a : activation) (s : state) : option (state * list event) :=
  match a with
  | adc_tick f v => TC6_Handler f v s
  | display_tick f => TC7_Handler f s
  end.

Fixpoint run (acts : list activation) (s : state)
  : option (state * list event) :=
  match acts with
  | [] => Some (s, [])
  | a :: rest =>
      '(s1, e1) ← fire a s;
      '(s2, e2) ← run rest s1;
      Some (s2, e1 ++ e2)
  end.

(** The positions handed to [display_dig], in order. *)
Definition driven_positions (evs : list event) : list Z :=
  omap (fun e => match e with
                 | display_dig _ _ p _ _ => Some p
                 | _ => None
                 end) evs.

(** *** The filter on its own, fed a constant input

    The pair is [(y_prev, x_prev)]; its first component after [n] steps,
    [n >= 1], is the output of the [n]-th step. *)

Definition filter_step (st : F * F) (xin : F) : F * F :=
  (lpf (fst st) (snd st), xin).

Fixpoint filter_run (n : nat) (st : F * F) (xin : F) : F * F :=
  match n with
  | O => st
  | S k => filter_step (filter_run k st xin) xin
  end.

Definition filter_out (st : F * F) (xin : F) (n : nat) : F :=
  fst (filter_run n st xin).

End Firmware.

Arguments state F : clear implicits.
Arguments event F : clear implicits.
Arguments init_state {F _}.

(** ** Predicates of the statements *)

(** The four digits [adc_handler] stores, index 0 first. *)
Definition digits_of (v : Z) : list Z :=
  [ UINT8_wrap (UINT32_wrap (v mod 10));
    UINT8_wrap (UINT32_wrap ((v mod 100) / 10));
    UINT8_wrap (UINT32_wrap ((v mod 1000) / 100));
    UINT8_wrap (UINT32_wrap ((v mod 10000) / 1000)) ].

Definition is_digit (d : Z) : Prop := 0 <= d <= 9.

Definition digits_ok (buf : list Z) : Prop :=
  length buf = 4%nat /\ Forall is_digit buf.

Definition flag_set (intflag : Z) : Prop := Z.land intflag 1 <> 0.

(** The invariant that keeps every array access in bounds. *)
Definition in_bounds {F} (s : state F) : Prop :=
  0 <= dig s <= 3 /\ length (display_number s) = 4%nat.

(** The decomposition as the spec words it, and the recombination. *)
Definition spec_digits (v : Z) : list Z :=
  [ v mod 10; (v / 10) mod 10; (v / 100) mod 10; (v / 1000) mod 10 ].

Definition recombine (ds : list Z) : Z :=
  match ds with
  | [d0; d1; d2; d3] => d0 + 10 * d1 + 100 * d2 + 1000 * d3
  | _ => 0
  end.

(** The interpolation the millivolt reading is specified to be: from the
    native domain [0, 2^R - 1] onto [0, 3300]. *)
Definition spec_millivolt (R : Z) (sample : Z) : Z :=
  0 + (sample - 0) * (3300 - 0) / ((2 ^ R - 1) - 0).

(** A sequence of rationals tends to a limit. *)
Definition converges_to (u : nat -> Q) (l : Q) : Prop :=
  forall eps : Q, (0 < eps)%Q ->
    exists N : nat, forall n : nat, (N <= n)%nat -> (Qabs (u n - l) < eps)%Q.

(** The two rescales as [adc_handler] calls them: the value handed to
    [write_to_dac] for a filter output, and the millivolt value of a raw
    sample. *)
Definition dac_scale {F} `{FloatOps F} (v : F) : F :=
  mapf v (of_Z 0) (of_Z (native_max RESOLUTION)) (of_Z 0) (of_Z 1023).

Definition millivolt (raw : Z) : Z := map32 raw 0 0xFFFF 0 3300.

(** The claim that the filter output tends to its constant input, for an
    arithmetic [F] whose values are read as rationals by [val]. *)
Definition filter_converges {F} `{FloatOps F} (val : F -> Q) (omega : F)
    (st : F * F) (c : F) : Prop :=
  converges_to (fun n => val (filter_out omega st c n)) (val c).

(** ** The single-precision instance, by evaluation *)

Module Single.

Definition eqb (a b : spec_float) : bool :=
  match a, b with
  | S754_zero s, S754_zero s' => Bool.eqb s s'
  | S754_infinity s, S754_infinity s' => Bool.eqb s s'
  | S754_nan, S754_nan => true
  | S754_finite s m e, S754_finite s' m' e' =>
      Bool.eqb s s' && Pos.eqb m m' && Z.eqb e e'
  | _, _ => false
  end.

Abbreviation of_Z32 := (@of_Z spec_float binary32).
Abbreviation step32 := (@filter_step spec_float binary32 omega32).
Abbreviation run32 := (@filter_run spec_float binary32 omega32).
Abbreviation out32 := (@filter_out spec_float binary32 omega32).

(** The filter statics at reset: [y_prev = 0], [x_prev = 0]. *)
Definition reset : spec_float * spec_float := (of_Z32 0, of_Z32 0).

Abbreviation dac32 := (@dac_scale spec_float binary32).
Abbreviation init32 := (@init_state spec_float binary32).

(** The filter state [st] no longer moves on the constant sample [k], and
    its output is a finite number at most [2^-12] below [k]; checked
    below on the state 20 steps after reset. *)
Definition settled_at (k : Z) (st : spec_float * spec_float) : bool :=
  eqb (fst (step32 st (of_Z32 k))) (fst st) &&
  eqb (snd (step32 st (of_Z32 k))) (snd st) &&
  IEEE.is_finite (fst st) &&
  Qle_bool (inject_Z k - (1 # 4096)) (IEEE.F2Q (fst st)) &&
  Qle_bool (IEEE.F2Q (fst st)) (inject_Z k).

(** The DAC value of an integer sample, as a rational. *)
Definition dac_value (k : Z) : Q := IEEE.F2Q (dac32 (of_Z32 k)).

Definition samples_below (n : nat) : list Z := Z.of_nat <$> seq 0 n.

(** A float of the filter's working range: finite, not negative, and at
    most the largest sample of the selected resolution. *)
Definition in_range32 (v : spec_float) : bool :=
  IEEE.is_finite v && IEEE.is_nonneg v &&
  Qle_bool (IEEE.F2Q v) (inject_Z (native_max RESOLUTION)).

(** A bound on the distance between the output and a constant input,
    [n] steps after the first: it shrinks by the factor [1 - omega] of the
    single-precision coefficients and takes up the rounding of one step. *)
Fixpoint settle_bound (n : nat) : Q :=
  match n with
  | O => inject_Z (native_max RESOLUTION)
  | S k => (1560281 # 4194304) * settle_bound k + (5 # 16384)
  end.

End Single.

(** The samples of the ADC activations are within the native range. *)
Definition sample_in_range (a : activation) : bool :=
  match a with
  | adc_tick _ v => (0 <=? v) && (v <=? native_max RESOLUTION)
  | display_tick _ => true
  end.

(** ** Observations on runs *)

(** The activations that find their flag up, by interrupt. *)
Fixpoint fired_adc (acts : list activation) : nat :=
  match acts with
  | [] => 0%nat
  | adc_tick f _ :: rest =>
      ((if (Z.land f 1 =? 0)%Z then 0 else 1) + fired_adc rest)%nat
  | display_tick _ :: rest => fired_adc rest
  end.

Fixpoint fired_display (acts : list activation) : nat :=
  match acts with
  | [] => 0%nat
  | display_tick f :: rest =>
      ((if (Z.land f 1 =? 0)%Z then 0 else 1) + fired_display rest)%nat
  | adc_tick _ _ :: rest => fired_display rest
  end.

(** The flag an activation finds, and the events of a run in which no
    activation finds its flag up: [TC7_Handler] still writes its flag
    register. *)
Definition flag_of (a : activation) : Z :=
  match a with
  | adc_tick f _ => f
  | display_tick f => f
  end.

Definition idle_events {F} (acts : list activation) : list (event F) :=
  omap (fun a => match a with
                 | display_tick f => Some (disp_intflag_set (Z.lor f 1))
                 | adc_tick _ _ => None
                 end) acts.

(** The values handed to [write_to_dac], in order. *)
Definition dac_writes {F} (evs : list (event F)) : list F :=
  omap (fun e => match e with
                 | write_to_dac v => Some v
                 | _ => None
                 end) evs.

(** The calls of [display_dig] a run makes: value and position. *)
Definition display_calls {F} (evs : list (event F)) : list (Z * Z) :=
  omap (fun e => match e with
                 | display_dig _ v p _ _ => Some (v, p)
                 | _ => None
                 end) evs.

(** A call of [display_dig] as the display driver expects it: display 0,
    a decimal digit, one of the four positions, no decimal point, no
    blanking. *)
Definition display_call_ok {F} (e : event F) : Prop :=
  match e with
  | display_dig a0 v p dp blank =>
      a0 = 0 /\ 0 <= v <= 9 /\ 0 <= p <= 3 /\ dp = false /\ blank = false
  | _ => True
  end.

(** The decimal digit of weight [10^i] of [v]. *)
Definition decimal_digit (v i : Z) : Z := (v / 10 ^ i) mod 10.

(** ** Predicates of the single-precision runs *)

(** The filter statics are in the range of the samples. *)
Definition inv32 (s : state spec_float) : Prop :=
  in_bounds s /\ Single.in_range32 (y_prev s) = true /\
  Single.in_range32 (x_prev s) = true.

(** A value fit for the 10-bit DAC. *)
Definition dac_ok (v : spec_float) : Prop :=
  IEEE.is_finite v = true /\ (0 <= IEEE.F2Q v <= 1023)%Q.


(** Two activations of the same interrupt that find the same flag
    register, the sample of the first not above that of the second. *)
Definition sample_le (a b : activation) : bool :=
  match a, b with
  | adc_tick f v, adc_tick g w => (f =? g) && (v <=? w)
  | display_tick f, display_tick g => f =? g
  | _, _ => false
  end.

(** The same, along two runs of the same length. *)
Fixpoint samples_le (l1 l2 : list activation) : bool :=
  match l1, l2 with
  | [], [] => true
  | a :: r1, b :: r2 => sample_le a b && samples_le r1 r2
  | _, _ => false
  end.

(** The filter statics of [s1] are not above those of [s2]. *)
Definition below32 (s1 s2 : state spec_float) : Prop :=
  (IEEE.F2Q (y_prev s1) <= IEEE.F2Q (y_prev s2))%Q /\
  (IEEE.F2Q (x_prev s1) <= IEEE.F2Q (x_prev s2))%Q.

(** The order of the values of two floats. *)
Definition le32 (v w : spec_float) : Prop := (IEEE.F2Q v <= IEEE.F2Q w)%Q.

(** ** Predicates of the constant-input response in single precision *)

(** The sequence [u] ends within [tol] of [l]: for every margin, all its
    terms from some index on are within [tol] plus the margin of [l]. *)
Definition converges_within (tol : Q) (u : nat -> Q) (l : Q) : Prop :=
  forall eps : Q, (0 < eps)%Q ->
    exists N : nat, forall n : nat, (N <= n)%nat -> (Qabs (u n - l) < tol + eps)%Q.

(** The rounding of one single-precision filter step moves the output by
    at most [step_rounding]; against the contraction by [1 - omega] this
    leaves the distance [rounding_floor] to the input. *)
Definition step_rounding : Q := 7 # 16384.

Definition rounding_floor : Q := step_rounding / omega_exact.

(** ** Timer and clock configuration

    The configuration code of [main.c] reads and writes memory-mapped
    registers. What a read returns is up to the hardware: the values are
    an input, the list [feed], taken in program order. The reads, the
    writes and the calls into the board drivers are recorded, in order,
    in [trace]. A value written is the value of the C expression; every
    constant of [main.c] fits the register it goes to, and so does a value
    read from a register with some of its bits set or cleared. *)

Module Config.

(** The two timer blocks [main.c] uses, named as their interrupt handlers
    [TC6_Handler] and [TC7_Handler]. *)
Inductive timer : Type := TC6 | TC7.

Inductive reg : Type :=
| APBCMASK                (* PM->APBCMASK.reg *)
| CLKCTRL                 (* GCLK->CLKCTRL.reg *)
| ISER0                   (* NVIC->ISER[0] *)
| CTRLA (t : timer)
| STATUS (t : timer)
| PER (t : timer)
| CC0 (t : timer)         (* CC[0].reg *)
| INTENSET (t : timer)
| INTFLAG (t : timer).

(** The functions of PeriphBoard that [main] calls. *)
Inductive driver : Type :=
| Simple_Clk_Init | delay_init | configure_global_ports | configure_ssd_ports
| configure_adc | map_to_adc_odd | map_to_dac_even | configure_dac_default.

Inductive access : Type :=
| rd (r : reg) (v : Z)
| wr (r : reg) (v : Z)
| call (d : driver) (args : list Z).

(** The two static pointers (null until a configuration function sets
    them), the values the hardware will return, the accesses so far. *)
Record machine : Type := mk_machine {
  disp_timer : option timer;
  adc_timer : option timer;
  feed : list Z;
  trace : list access
}.

(** A function returns, or needs a reading when those given have run
    out, or goes through a null timer pointer. *)
Inductive outcome (A : Type) : Type :=
| Done (a : A) (m : machine)
| Starved (m : machine)
| Fault (m : machine).

Arguments Done {A} a m.
Arguments Starved {A} m.
Arguments Fault {A} m.

Definition io (A : Type) : Type := machine -> outcome A.

Definition ret {A : Type} (a : A) : io A := fun m => Done a m.

Definition bind {A B : Type} (c : io A) (k : A -> io B) : io B :=
  fun m =>
    match c m with
    | Done a m' => k a m'
    | Starved m' => Starved m'
    | Fault m' => Fault m'
    end.

Declare Scope io_scope.
Delimit Scope io_scope with io.
Notation "x <- c ;; k" := (bind c (fun x => k))
  (at level 20, c at level 99, k at level 200, only parsing) : io_scope.
Notation "c ;; k" := (bind c (fun _ => k))
  (at level 100, k at level 200, only parsing, right associativity) : io_scope.
Local Open Scope io_scope.

Definition log (a : access) (m : machine) : machine := {|
  disp_timer := disp_timer m; adc_timer := adc_timer m;
  feed := feed m; trace := trace m ++ [a]
|}.

(** A volatile read: the next value of the feed. *)
Definition load (r : reg) : io Z := fun m =>
  match feed m with
  | [] => Starved m
  | v :: rest =>
      Done v {| disp_timer := disp_timer m; adc_timer := adc_timer m;
                feed := rest; trace := trace m ++ [rd r v] |}
  end.

Definition store (r : reg) (v : Z) : io unit := fun m => Done tt (log (wr r v) m).

Definition extern (d : driver) (args : list Z) : io unit :=
  fun m => Done tt (log (call d args) m).

(** [p->...]: undefined through a null pointer. *)
Definition deref (p : machine -> option timer) : io timer := fun m =>
  match p m with
  | Some t => Done t m
  | None => Fault m
  end.

Definition set_adc_timer (t : timer) : io unit := fun m =>
  Done tt {| disp_timer := disp_timer m; adc_timer := Some t;
             feed := feed m; trace := trace m |}.

Definition set_disp_timer (t : timer) : io unit := fun m =>
  Done tt {| disp_timer := Some t; adc_timer := adc_timer m;
             feed := feed m; trace := trace m |}.

(** The loop condition [STATUS.reg & (1 << 7u)] on a reading. *)
Definition sync_busy (v : Z) : bool := negb (Z.land v (Z.shiftl 1 7) =? 0).

(** [while (r & (1 << 7u));] on the readings [vs] of [r]: the reads made,
    and the readings left if one came for which the condition is false. *)
Fixpoint poll (r : reg) (vs : list Z) : list access * option (list Z) :=
  match vs with
  | [] => ([], None)
  | v :: rest =>
      if sync_busy v then let '(tr, more) := poll r rest in (rd r v :: tr, more)
      else ([rd r v], Some rest)
  end.

(** [while(p->STATUS.reg & (1 << 7u));] *)
Definition wait_sync (p : machine -> option timer) : io unit :=
  t <- deref p ;;
  fun m =>
    match poll (STATUS t) (feed m) with
    | (tr, Some rest) =>
        Done tt {| disp_timer := disp_timer m; adc_timer := adc_timer m;
                   feed := rest; trace := trace m ++ tr |}
    | (tr, None) =>
        Starved {| disp_timer := disp_timer m; adc_timer := adc_timer m;
                   feed := []; trace := trace m ++ tr |}
    end.

(** [p->R.reg |= bits] and [p->R.reg &= bits]: one read, one write. *)
Definition set_bits (r : reg) (bits : Z) : io unit :=
  v <- load r ;; store r (Z.lor v bits).

Definition mask_bits (r : reg) (bits : Z) : io unit :=
  v <- load r ;; store r (Z.land v bits).

(** Modelled from the spec: [timer6_8] and [timer7_16] are declared in
    PeriphBoard, which is not part of the sources at hand; the spec
    describes them as one register block of a timer seen as an 8-bit or as
    a 16-bit counter. By their names and the comments of [main.c] they are
    the blocks of TC6 and of TC7. *)
Definition timer6_8 : timer := TC6.
Definition timer7_16 : timer := TC7.

Definition POT_SRC : Z := 13.
Definition ADC_PIN : Z := 11.
Definition AIN_PIN : Z := 0x13.
Definition DAC_PIN : Z := 2.

(** The functions of [main.c], statement by statement. *)

Definition enable_adc_tc_clocks : io unit :=
  set_bits APBCMASK (Z.shiftl 1 14) ;;
  let temp := 0x16 in
  let temp := UINT32_wrap (Z.lor temp (Z.shiftl 0 8)) in
  store CLKCTRL temp ;;
  set_bits CLKCTRL (Z.shiftl 0x1 14).

Definition enable_adc_timer : io unit :=
  wait_sync adc_timer ;;
  t <- deref adc_timer ;; set_bits (CTRLA t) (Z.shiftl 1 1).

Definition disable_adc_timer : io unit :=
  t <- deref adc_timer ;; mask_bits (CTRLA t) (Z.lnot (Z.shiftl 1 1)) ;;
  wait_sync adc_timer.

Definition configure_adc_interrupt : io unit :=
  set_adc_timer timer6_8 ;;
  enable_adc_tc_clocks ;;
  disable_adc_timer ;;
  t <- deref adc_timer ;;
  set_bits (CTRLA t)
    (Z.lor (Z.lor (Z.lor (Z.shiftl 0x1 12) (Z.shiftl 0x3 8)) (Z.shiftl 0x1 2))
       (Z.shiftl 0x2 5)) ;;
  t <- deref adc_timer ;; store (PER t) 249 ;;
  t <- deref adc_timer ;; store (CC0 t) 1 ;;
  set_bits ISER0 (Z.shiftl 1 19) ;;
  t <- deref adc_timer ;; set_bits (INTENSET t) 1 ;;
  t <- deref adc_timer ;; set_bits (INTFLAG t) 0x1.

Definition enable_display_tc_clocks : io unit :=
  set_bits APBCMASK (Z.shiftl 1 15) ;;
  let temp := 0x16 in
  let temp := UINT32_wrap (Z.lor temp (Z.shiftl 0 8)) in
  store CLKCTRL temp ;;
  set_bits CLKCTRL (Z.shiftl 0x1 14).

Definition enable_display_timer : io unit :=
  wait_sync disp_timer ;;
  t <- deref disp_timer ;; set_bits (CTRLA t) (Z.shiftl 1 1).

Definition disable_display_timer : io unit :=
  t <- deref disp_timer ;; mask_bits (CTRLA t) (Z.lnot (Z.shiftl 1 1)) ;;
  wait_sync disp_timer.

Definition configure_display_interrupt : io unit :=
  set_disp_timer timer7_16 ;;
  enable_display_tc_clocks ;;
  disable_display_timer ;;
  t <- deref disp_timer ;;
  set_bits (CTRLA t)
    (Z.lor (Z.lor (Z.lor (Z.shiftl 0x1 12) (Z.shiftl 0x5 8)) (Z.shiftl 0x0 2))
       (Z.shiftl 0x1 5)) ;;
  t <- deref disp_timer ;; store (CC0 t) 0x50 ;;
  set_bits ISER0 (Z.shiftl 1 20) ;;
  t <- deref disp_timer ;; set_bits (INTENSET t) 1 ;;
  t <- deref disp_timer ;; set_bits (INTFLAG t) 0x1.

Definition main : io Z :=
  extern Simple_Clk_Init [] ;;
  extern delay_init [] ;;
  extern configure_global_ports [] ;;
  extern configure_ssd_ports [] ;;
  (if RESOLUTION =? 16
   then extern configure_adc [0x2; 0x8; 0x1; 0x2; 0x1; 0xF; 0x18; AIN_PIN]
   else if RESOLUTION =? 12
   then extern configure_adc [0x2; 0x0; 0x1; 0x0; 0x1; 0xF; 0x18; AIN_PIN]
   else ret tt) ;;
  extern map_to_adc_odd [ADC_PIN] ;;
  extern map_to_dac_even [DAC_PIN] ;;
  extern configure_dac_default [] ;;
  configure_adc_interrupt ;;
  enable_adc_timer ;;
  configure_display_interrupt ;;
  enable_display_timer ;;
  ret 0.

(** The machine at reset: both pointers null, nothing done yet. *)
Definition boot (fd : list Z) : machine :=
  {| disp_timer := None; adc_timer := None; feed := fd; trace := [] |}.

(** *** Registers that hold what was written

    A register file, the writes of a trace applied to it, and the traces
    in which every read of a register other than [STATUS] and [INTFLAG]
    returned the content of the register. *)

Definition reg_eqb (a b : reg) : bool :=
  match a, b with
  | APBCMASK, APBCMASK | CLKCTRL, CLKCTRL | ISER0, ISER0 => true
  | CTRLA TC6, CTRLA TC6 | CTRLA TC7, CTRLA TC7 => true
  | STATUS TC6, STATUS TC6 | STATUS TC7, STATUS TC7 => true
  | PER TC6, PER TC6 | PER TC7, PER TC7 => true
  | CC0 TC6, CC0 TC6 | CC0 TC7, CC0 TC7 => true
  | INTENSET TC6, INTENSET TC6 | INTENSET TC7, INTENSET TC7 => true
  | INTFLAG TC6, INTFLAG TC6 | INTFLAG TC7, INTFLAG TC7 => true
  | _, _ => false
  end.

Definition regfile : Type := reg -> Z.

Definition update (rf : regfile) (r : reg) (v : Z) : regfile :=
  fun r' => if reg_eqb r' r then v else rf r'.

Definition holds_writes (r : reg) : bool :=
  match r with
  | STATUS _ | INTFLAG _ => false
  | _ => true
  end.

Fixpoint replay (tr : list access) (rf : regfile) : regfile :=
  match tr with
  | [] => rf
  | wr r v :: rest => replay rest (update rf r v)
  | _ :: rest => replay rest rf
  end.

Fixpoint coherent (rf : regfile) (tr : list access) : bool :=
  match tr with
  | [] => true
  | rd r v :: rest =>
      (if holds_writes r then v =? rf r else true) && coherent rf rest
  | wr r v :: rest => coherent (update rf r v) rest
  | call _ _ :: rest => coherent rf rest
  end.

(** The block a register belongs to, if it belongs to a timer. *)
Definition timer_of (r : reg) : option timer :=
  match r with
  | CTRLA t | STATUS t | PER t | CC0 t | INTENSET t | INTFLAG t => Some t
  | _ => None
  end.

Definition timer_eqb (a b : timer) : bool :=
  match a, b with
  | TC6, TC6 | TC7, TC7 => true
  | _, _ => false
  end.

(** The access is to a register of the timer [t]. *)
Definition touches (t : timer) (a : access) : bool :=
  match a with
  | rd r _ | wr r _ =>
      match timer_of r with
      | Some t' => timer_eqb t t'
      | None => false
      end
  | call _ _ => false
  end.

(** *** The readings of a completed call, and its accesses

    [configure_adc_interrupt] and [configure_display_interrupt] read, in
    order: APBCMASK, CLKCTRL, CTRLA, STATUS until the synchronisation is
    over, CTRLA again, ISER[0], INTENSET and INTFLAG. *)
Record config_reads : Type := mk_config_reads {
  r_apbcmask : Z;
  r_clkctrl : Z;
  r_ctrla : Z;
  r_polls : list Z;
  r_ready : Z;
  r_ctrla2 : Z;
  r_iser : Z;
  r_intenset : Z;
  r_intflag : Z
}.

Definition config_feed (q : config_reads) : list Z :=
  r_apbcmask q :: r_clkctrl q :: r_ctrla q ::
  r_polls q ++ r_ready q :: r_ctrla2 q :: r_iser q :: r_intenset q ::
  r_intflag q :: [].

(** The polls before the last found the synchronisation busy, the last
    did not. *)
Definition synced (polls : list Z) (ready : Z) : bool :=
  forallb sync_busy polls && negb (sync_busy ready).

Definition adc_config_trace (q : config_reads) : list access :=
  [rd APBCMASK (r_apbcmask q); wr APBCMASK (Z.lor (r_apbcmask q) (Z.shiftl 1 14));
   wr CLKCTRL 0x16;
   rd CLKCTRL (r_clkctrl q); wr CLKCTRL (Z.lor (r_clkctrl q) (Z.shiftl 1 14));
   rd (CTRLA TC6) (r_ctrla q);
   wr (CTRLA TC6) (Z.land (r_ctrla q) (Z.lnot (Z.shiftl 1 1)))] ++
  (rd (STATUS TC6) <$> r_polls q) ++
  [rd (STATUS TC6) (r_ready q);
   rd (CTRLA TC6) (r_ctrla2 q); wr (CTRLA TC6) (Z.lor (r_ctrla2 q) 0x1344);
   wr (PER TC6) 249; wr (CC0 TC6) 1;
   rd ISER0 (r_iser q); wr ISER0 (Z.lor (r_iser q) (Z.shiftl 1 19));
   rd (INTENSET TC6) (r_intenset q); wr (INTENSET TC6) (Z.lor (r_intenset q) 1);
   rd (INTFLAG TC6) (r_intflag q); wr (INTFLAG TC6) (Z.lor (r_intflag q) 1)].

Definition display_config_trace (q : config_reads) : list access :=
  [rd APBCMASK (r_apbcmask q); wr APBCMASK (Z.lor (r_apbcmask q) (Z.shiftl 1 15));
   wr CLKCTRL 0x16;
   rd CLKCTRL (r_clkctrl q); wr CLKCTRL (Z.lor (r_clkctrl q) (Z.shiftl 1 14));
   rd (CTRLA TC7) (r_ctrla q);
   wr (CTRLA TC7) (Z.land (r_ctrla q) (Z.lnot (Z.shiftl 1 1)))] ++
  (rd (STATUS TC7) <$> r_polls q) ++
  [rd (STATUS TC7) (r_ready q);
   rd (CTRLA TC7) (r_ctrla2 q); wr (CTRLA TC7) (Z.lor (r_ctrla2 q) 0x1520);
   wr (CC0 TC7) 0x50;
   rd ISER0 (r_iser q); wr ISER0 (Z.lor (r_iser q) (Z.shiftl 1 20));
   rd (INTENSET TC7) (r_intenset q); wr (INTENSET TC7) (Z.lor (r_intenset q) 1);
   rd (INTFLAG TC7) (r_intflag q); wr (INTFLAG TC7) (Z.lor (r_intflag q) 1)].

(** The accesses of enabling the timer [t]: the polls, then the
    read-modify-write of CTRLA. *)
Definition enable_trace (t : timer) (polls : list Z) (ready ctrl : Z)
  : list access :=
  (rd (STATUS t) <$> polls) ++
  [rd (STATUS t) ready; rd (CTRLA t) ctrl; wr (CTRLA t) (Z.lor ctrl (Z.shiftl 1 1))].

(** The accesses of disabling it: the read-modify-write, then the polls. *)
Definition disable_trace (t : timer) (ctrl : Z) (polls : list Z) (ready : Z)
  : list access :=
  [rd (CTRLA t) ctrl; wr (CTRLA t) (Z.land ctrl (Z.lnot (Z.shiftl 1 1)))] ++
  (rd (STATUS t) <$> polls) ++ [rd (STATUS t) ready].

(** The driver calls [main] starts with. *)
Definition main_calls : list access :=
  [call Simple_Clk_Init []; call delay_init [];
   call configure_global_ports []; call configure_ssd_ports [];
   call configure_adc [0x2; 0x0; 0x1; 0x0; 0x1; 0xF; 0x18; AIN_PIN];
   call map_to_adc_odd [ADC_PIN]; call map_to_dac_even [DAC_PIN];
   call configure_dac_default []].

(** *** Statements about every feed

    [triple P c Q R]: from a machine that satisfies [P], the function [c]
    does not go through a null pointer; [Q] holds when it returns, [R]
    when the readings run out first. *)

Definition triple {A : Type} (P : machine -> Prop) (c : io A)
    (Q : A -> machine -> Prop) (R : machine -> Prop) : Prop :=
  forall m, P m ->
    match c m with
    | Done a m' => Q a m'
    | Starved m' => R m'
    | Fault _ => False
    end.

(** The trace is [tr0] followed by accesses that all satisfy [ok]. *)
Definition traced (ok : access -> Prop) (tr0 : list access) (m : machine) : Prop :=
  exists tr, trace m = tr0 ++ tr /\ Forall ok tr.

Definition within (ok : access -> Prop) (tr0 : list access)
    (ap dp : option timer) (m : machine) : Prop :=
  adc_timer m = ap /\ disp_timer m = dp /\ traced ok tr0 m.

End Config.

(** * Properties *)

(** ** IEEE-754 rounding, on the exact values *)

Module Rounding.

Import IEEE.

Section Pow2.
Open Scope Q_scope.

Lemma pow2_pos (e : Z) : 0 < pow2 e.
Proof. apply Qpower_0_lt. reflexivity. Qed.

Lemma pow2_add (a b : Z) : pow2 (a + b) == pow2 a * pow2 b.
Proof. apply Qpower_plus. discriminate. Qed.

Lemma pow2_sub (a b : Z) : pow2 (a - b) == pow2 a / pow2 b.
Proof. apply Qpower_minus. discriminate. Qed.

Lemma pow2_0 : pow2 0 == 1.
Proof. reflexivity. Qed.

Lemma pow2_1 : pow2 1 == 2.
Proof. reflexivity. Qed.

Lemma pow2_le (a b : Z) : (a <= b)%Z -> pow2 a <= pow2 b.
Proof. intros Hab. apply Qpower_le_compat_l; [exact Hab | discriminate]. Qed.

Lemma pow2_lt (a b : Z) : (a < b)%Z -> pow2 a < pow2 b.
Proof. intros Hab. apply Qpower_lt_compat_l; [exact Hab | reflexivity]. Qed.

Lemma pow2_lt_inv (a b : Z) : pow2 a < pow2 b -> (a < b)%Z.
Proof. intros Hab. apply (Qpower_lt_compat_l_inv 2); [exact Hab | reflexivity]. Qed.

Lemma pow2_Z (n : Z) : (0 <= n)%Z -> pow2 n == inject_Z (2 ^ n).
Proof. intros Hn. unfold pow2. rewrite Zpower_Qpower by exact Hn. reflexivity. Qed.

Lemma pow2_succ (a : Z) : pow2 (a + 1) == 2 * pow2 a.
Proof. rewrite pow2_add, pow2_1. ring. Qed.

Lemma pow2_cancel (a : Z) : pow2 a * pow2 (- a) == 1.
Proof. rewrite <- pow2_add. replace (a + - a)%Z with 0%Z by lia. reflexivity. Qed.

End Pow2.

Section Floor.
Open Scope Q_scope.

Lemma Qfloor_unique (u : Q) (k : Z) :
  inject_Z k <= u -> u < inject_Z (k + 1) -> Qfloor u = k.
Proof.
  intros Hlo Hhi.
  pose proof (Qfloor_le u) as H1. pose proof (Qlt_floor u) as H2.
  assert (A : (Qfloor u < k + 1)%Z).
  { rewrite Zlt_Qlt. eapply Qle_lt_trans; [exact H1 | exact Hhi]. }
  assert (B : (k < Qfloor u + 1)%Z).
  { rewrite Zlt_Qlt. eapply Qle_lt_trans; [exact Hlo | exact H2]. }
  lia.
Qed.

Lemma Qfloor_bounds (u : Q) : inject_Z (Qfloor u) <= u < inject_Z (Qfloor u) + 1.
Proof.
  split; [apply Qfloor_le|].
  pose proof (Qlt_floor u) as H. rewrite inject_Z_plus in H. exact H.
Qed.

Lemma Qfloor_half (t : Q) : Qfloor (t / 2) = (Qfloor t / 2)%Z.
Proof.
  destruct (Qfloor_bounds t) as [Hlo Hhi].
  pose proof (Z.div_mod (Qfloor t) 2 ltac:(lia)) as Hdm.
  pose proof (Z.mod_pos_bound (Qfloor t) 2 ltac:(lia)) as Hmod.
  set (n := Qfloor t) in *. set (k := (n / 2)%Z) in *.
  assert (Hn : inject_Z n == 2 * inject_Z k + inject_Z (n mod 2)).
  { rewrite Hdm at 1. rewrite inject_Z_plus, inject_Z_mult. reflexivity. }
  assert (Hm0 : 0 <= inject_Z (n mod 2)) by (change 0 with (inject_Z 0); rewrite <- Zle_Qle; lia).
  assert (Hm1 : inject_Z (n mod 2) <= 1) by (change 1 with (inject_Z 1); rewrite <- Zle_Qle; lia).
  apply Qfloor_unique.
  - apply Qle_shift_div_l; [reflexivity|]. lra.
  - rewrite inject_Z_plus. change (inject_Z 1) with 1.
    apply Qlt_shift_div_r; [reflexivity|]. lra.
Qed.

End Floor.

Section Shift.

Lemma shr_1_fields (m : Z) (r s : bool) :
  0 <= m ->
  shr_1 (Build_shr_record m r s) = Build_shr_record (Z.div2 m) (Z.odd m) (r || s).
Proof.
  intros Hm. destruct m as [|p|p]; [reflexivity| |lia].
  destruct p; reflexivity.
Qed.

Lemma located_shr_1 (mrs : shr_record) (e : Z) (x : Q) :
  located mrs e x -> located (shr_1 mrs) (e + 1) x.
Proof.
  destruct mrs as [m r s]. unfold located. cbn [shr_m shr_r shr_s].
  intros (Hm & Hfl & Hst). rewrite (shr_1_fields m r s Hm). cbn [shr_m shr_r shr_s].
  set (t := (x * pow2 (1 - e))%Q) in *.
  assert (Et : (x * pow2 (1 - (e + 1)) == t / 2)%Q).
  { unfold t. replace (1 - (e + 1)) with ((1 - e) - 1) by lia.
    rewrite pow2_sub, pow2_1. field. }
  rewrite (Qfloor_comp _ _ Et), Et, Qfloor_half, Hfl.
  pose proof (Z.div2_odd m) as Hdo. rewrite Z.div2_div in *.
  assert (Hb : 0 <= Z.b2z r <= 1) by (destruct r; cbn; lia).
  assert (Hq : (2 * m + Z.b2z r) / 2 = m).
  { rewrite Z.mul_comm, Z.div_add_l by lia. rewrite Z.div_small by lia. lia. }
  rewrite Hq. split; [apply Z.div_pos; lia|]. split; [lia|].
  split.
  - intros Hrs. apply orb_false_elim in Hrs. destruct Hrs as [-> ->].
    assert (Ht : (t == inject_Z (Qfloor t))%Q) by (apply Hst; reflexivity).
    rewrite Ht, Hfl. cbn [Z.b2z]. rewrite Z.add_0_r, inject_Z_mult. field.
  - intros Ht2.
    assert (Ht : (t == inject_Z (2 * m))%Q).
    { rewrite inject_Z_mult. apply (Qmult_inj_r _ _ (/ 2)); [discriminate|].
      transitivity (t / 2)%Q; [reflexivity|]. rewrite Ht2. field. }
    assert (Hfl2 : Qfloor t = 2 * m).
    { rewrite Ht. apply Qfloor_Z. }
    assert (r = false) by (destruct r; [cbn [Z.b2z] in Hfl; lia | reflexivity]). subst r.
    cbn. apply Hst. rewrite Hfl2. exact Ht.
Qed.

Lemma iter_pos_nat {A} (f : A -> A) (p : positive) (a : A) :
  SpecFloat.iter_pos f p a = Nat.iter (Pos.to_nat p) f a.
Proof.
  revert a. induction p as [p IH | p IH |]; intros a; cbn [SpecFloat.iter_pos].
  - rewrite !IH, Pos2Nat.inj_xI.
    replace (S (2 * Pos.to_nat p)) with (Pos.to_nat p + (Pos.to_nat p + 1))%nat by lia.
    rewrite !Nat.iter_add. reflexivity.
  - rewrite !IH, Pos2Nat.inj_xO.
    replace (2 * Pos.to_nat p)%nat with (Pos.to_nat p + Pos.to_nat p)%nat by lia.
    rewrite Nat.iter_add. reflexivity.
  - reflexivity.
Qed.

Lemma located_iter (n : nat) (mrs : shr_record) (e : Z) (x : Q) :
  located mrs e x -> located (Nat.iter n shr_1 mrs) (e + Z.of_nat n) x.
Proof.
  intros H. induction n as [|n IH].
  - cbn [Nat.iter]. replace (e + Z.of_nat 0) with e by lia. exact H.
  - cbn [Nat.iter]. replace (e + Z.of_nat (S n)) with (e + Z.of_nat n + 1) by lia.
    apply located_shr_1. exact IH.
Qed.

Lemma located_shr (mrs : shr_record) (e n : Z) (x : Q) :
  located mrs e x ->
  located (fst (shr mrs e n)) (snd (shr mrs e n)) x /\
  snd (shr mrs e n) = e + Z.max n 0.
Proof.
  intros H. unfold shr. destruct n as [|p|p]; cbn [fst snd].
  - split; [exact H | lia].
  - rewrite iter_pos_nat. split; [|lia].
    replace (e + Z.pos p) with (e + Z.of_nat (Pos.to_nat p)) by lia.
    apply located_iter. exact H.
  - split; [exact H | lia].
Qed.

End Shift.

Section Nearest.
Open Scope Q_scope.

Lemma rnd_cases (u : Q) :
  (u - inject_Z (Qfloor u) < 1 # 2 /\ rnd u = Qfloor u) \/
  (u - inject_Z (Qfloor u) == 1 # 2 /\
   rnd u = if Z.even (Qfloor u) then Qfloor u else (Qfloor u + 1)%Z) \/
  (1 # 2 < u - inject_Z (Qfloor u) /\ rnd u = (Qfloor u + 1)%Z).
Proof.
  unfold rnd. cbv zeta.
  destruct (Qcompare (u - inject_Z (Qfloor u)) (1 # 2)) eqn:E.
  - right. left. split; [apply Qeq_alt; exact E | reflexivity].
  - left. split; [apply Qlt_alt; exact E | reflexivity].
  - right. right. split; [apply Qgt_alt; exact E | reflexivity].
Qed.

Lemma rnd_range (u : Q) : (Qfloor u <= rnd u <= Qfloor u + 1)%Z.
Proof.
  destruct (rnd_cases u) as [[_ ->] | [[_ ->] | [_ ->]]]; try lia.
  destruct (Z.even (Qfloor u)); lia.
Qed.

Lemma rnd_error (u : Q) : Qabs (inject_Z (rnd u) - u) <= 1 # 2.
Proof.
  destruct (Qfloor_bounds u) as [Hlo Hhi].
  apply Qabs_Qle_condition.
  destruct (rnd_cases u) as [[Hc ->] | [[Hc ->] | [Hc ->]]].
  - split; lra.
  - destruct (Z.even (Qfloor u)).
    + split; lra.
    + rewrite inject_Z_plus. change (inject_Z 1) with 1. split; lra.
  - rewrite inject_Z_plus. change (inject_Z 1) with 1. split; lra.
Qed.

Lemma rnd_mono (u v : Q) : u <= v -> (rnd u <= rnd v)%Z.
Proof.
  intros Huv.
  pose proof (Qfloor_resp_le _ _ Huv) as Hf.
  pose proof (rnd_range u) as Ru. pose proof (rnd_range v) as Rv.
  destruct (Z.eq_dec (Qfloor u) (Qfloor v)) as [E | NE]; [|lia].
  destruct (rnd_cases u) as [[Hu Eu] | [[Hu Eu] | [Hu Eu]]];
    destruct (rnd_cases v) as [[Hv Ev] | [[Hv Ev] | [Hv Ev]]];
    rewrite Eu, Ev; rewrite <- ?E in *;
    try (destruct (Z.even (Qfloor u)); lia); try lia;
    exfalso; rewrite <- ?E in Hv; lra.
Qed.

Lemma rnd_Z (k : Z) : rnd (inject_Z k) = k.
Proof.
  destruct (rnd_cases (inject_Z k)) as [[_ E] | [[Hc _] | [Hc _]]];
    rewrite Qfloor_Z in *.
  - exact E.
  - exfalso. lra.
  - exfalso. lra.
Qed.

Lemma rnd_comp (u v : Q) : u == v -> rnd u = rnd v.
Proof.
  intros E. apply Z.le_antisymm; apply rnd_mono; rewrite E; apply Qle_refl.
Qed.

End Nearest.

Section RoundAt.
Open Scope Q_scope.

Lemma round_at_mono (E : Z) (x1 x2 : Q) :
  x1 <= x2 -> round_at E x1 <= round_at E x2.
Proof.
  intros H. unfold round_at. pose proof (pow2_pos E) as HE.
  apply Qmult_le_compat_r; [|lra].
  rewrite <- Zle_Qle. apply rnd_mono.
  apply Qmult_le_compat_r; [exact H|]. apply Qlt_le_weak. apply Qinv_lt_0_compat. exact HE.
Qed.

Lemma round_at_error (E : Z) (x : Q) :
  Qabs (round_at E x - x) <= pow2 E / 2.
Proof.
  unfold round_at. pose proof (pow2_pos E) as HE.
  assert (Ex : x == x / pow2 E * pow2 E) by (field; lra).
  rewrite Ex at 2.
  setoid_replace (inject_Z (rnd (x / pow2 E)) * pow2 E - x / pow2 E * pow2 E)
    with ((inject_Z (rnd (x / pow2 E)) - x / pow2 E) * pow2 E) using relation Qeq by ring.
  rewrite Qabs_Qmult, (Qabs_pos (pow2 E)) by lra.
  pose proof (rnd_error (x / pow2 E)) as Hr.
  setoid_replace (pow2 E / 2) with ((1 # 2) * pow2 E) using relation Qeq by field.
  apply Qmult_le_compat_r; [exact Hr | lra].
Qed.

Lemma round_at_grid (E : Z) (k : Z) :
  round_at E (inject_Z k * pow2 E) == inject_Z k * pow2 E.
Proof.
  unfold round_at. pose proof (pow2_pos E) as HE.
  assert (Ex : inject_Z k * pow2 E / pow2 E == inject_Z k) by (field; lra).
  rewrite (rnd_comp _ _ Ex), rnd_Z. reflexivity.
Qed.

End RoundAt.

Section Digits.

Lemma digits2_pos_bounds (p : positive) :
  2 ^ (Z.pos (digits2_pos p) - 1) <= Z.pos p < 2 ^ Z.pos (digits2_pos p).
Proof.
  induction p as [p IH | p IH |]; cbn [digits2_pos].
  - rewrite Pos2Z.inj_succ. replace (Z.succ (Z.pos (digits2_pos p)) - 1) with (Z.succ (Z.pos (digits2_pos p) - 1)) by lia.
    rewrite !Z.pow_succ_r by lia. lia.
  - rewrite Pos2Z.inj_succ. replace (Z.succ (Z.pos (digits2_pos p)) - 1) with (Z.succ (Z.pos (digits2_pos p) - 1)) by lia.
    rewrite !Z.pow_succ_r by lia. lia.
  - cbn. lia.
Qed.

Lemma Zdigits2_bounds (n : Z) :
  0 < n -> 0 < Zdigits2 n /\ 2 ^ (Zdigits2 n - 1) <= n < 2 ^ Zdigits2 n.
Proof.
  intros Hn. destruct n as [|p|p]; try lia. cbn [Zdigits2].
  split; [lia | apply digits2_pos_bounds].
Qed.

Lemma Zdigits2_le (n k : Z) : 0 < n -> 0 <= k -> n < 2 ^ k -> Zdigits2 n <= k.
Proof.
  intros Hn Hk Hlt. destruct (Zdigits2_bounds n Hn) as (Hd & Hlo & _).
  assert (H : 2 ^ (Zdigits2 n - 1) < 2 ^ k) by lia.
  apply Z.pow_lt_mono_r_iff in H; lia.
Qed.

Lemma Zdigits2_pow2 (k : Z) : 0 <= k -> Zdigits2 (2 ^ k) = k + 1.
Proof.
  intros Hk. assert (Hp : 0 < 2 ^ k) by (apply Z.pow_pos_nonneg; lia).
  destruct (Zdigits2_bounds (2 ^ k) Hp) as (Hd & Hlo & Hhi).
  apply Z.pow_le_mono_r_iff in Hlo; [|lia|lia].
  apply Z.pow_lt_mono_r_iff in Hhi; lia.
Qed.

End Digits.

Section LocatedValue.
Open Scope Q_scope.

Lemma b2z_Q_range (r : bool) : 0 <= inject_Z (Z.b2z r) <= 1.
Proof. destruct r; split; discriminate. Qed.

Lemma located_range (m : Z) (r s : bool) (e : Z) (x : Q) :
  located (Build_shr_record m r s) e x ->
  inject_Z m * pow2 e <= x < (inject_Z m + 1) * pow2 e.
Proof.
  unfold located. cbn [shr_m shr_r shr_s]. intros (Hm & Hfl & _).
  destruct (Qfloor_bounds (x * pow2 (1 - e))) as [Hlo Hhi]. rewrite Hfl in Hlo, Hhi.
  pose proof (pow2_pos e) as He.
  assert (Et : x * pow2 (1 - e) == 2 * (x / pow2 e)).
  { rewrite pow2_sub, pow2_1. field. lra. }
  rewrite Et in Hlo, Hhi. rewrite inject_Z_plus, inject_Z_mult in Hlo, Hhi.
  change (inject_Z 2) with 2 in *.
  destruct (b2z_Q_range r) as [Hb0 Hb1].
  assert (Hu : inject_Z m <= x / pow2 e < inject_Z m + 1) by (split; lra).
  destruct Hu as [Hu1 Hu2].
  split.
  - apply (Qmult_le_compat_r _ _ (pow2 e)) in Hu1; [|lra].
    assert (E : x / pow2 e * pow2 e == x) by (field; lra). rewrite E in Hu1. exact Hu1.
  - apply (Qmult_lt_compat_r _ _ (pow2 e)) in Hu2; [|lra].
    assert (E : x / pow2 e * pow2 e == x) by (field; lra). rewrite E in Hu2. exact Hu2.
Qed.

Lemma located_exact (m : Z) (e : Z) :
  (0 <= m)%Z -> located (Build_shr_record m false false) e (inject_Z m * pow2 e).
Proof.
  intros Hm. unfold located. cbn [shr_m shr_r shr_s Z.b2z].
  assert (Et : inject_Z m * pow2 e * pow2 (1 - e) == inject_Z (2 * m)).
  { rewrite inject_Z_mult. rewrite pow2_sub, pow2_1. pose proof (pow2_pos e). field. lra. }
  split; [exact Hm|]. rewrite (Qfloor_comp _ _ Et), Qfloor_Z. split; [lia|].
  split; [intros _; exact Et | reflexivity].
Qed.

Lemma rne_located (mrs : shr_record) (E : Z) (x : Q) :
  located mrs E x ->
  round_nearest_even (shr_m mrs) (loc_of_shr_record mrs) = rnd (x / pow2 E).
Proof.
  destruct mrs as [m r s]. unfold located. cbn [shr_m shr_r shr_s].
  intros (Hm & Hfl & Hst). pose proof (pow2_pos E) as HE.
  set (t := x * pow2 (1 - E)) in *. set (u := x / pow2 E).
  assert (Et : t == 2 * u).
  { unfold t, u. rewrite pow2_sub, pow2_1. field. lra. }
  assert (Eu : u == t / 2) by (rewrite Et; field).
  assert (Hfu : Qfloor u = m).
  { rewrite (Qfloor_comp _ _ Eu), Qfloor_half, Hfl.
    symmetry. apply (Z.div_unique _ 2 m (Z.b2z r)); [destruct r; cbn; lia | lia]. }
  destruct (Qfloor_bounds t) as [Hlo Hhi]. rewrite Hfl in Hlo, Hhi.
  rewrite inject_Z_plus, inject_Z_mult in Hlo, Hhi. change (inject_Z 2) with 2 in *.
  destruct (rnd_cases u) as [[Hc Er] | [[Hc Er] | [Hc Er]]];
    rewrite Hfu in Hc, Er; rewrite Er.
  - (* below the midpoint *)
    destruct r; cbn [Z.b2z] in *; [exfalso; change (inject_Z 1) with 1 in *; lra|].
    destruct s; reflexivity.
  - (* the midpoint *)
    destruct r; cbn [Z.b2z] in *;
      [|exfalso; change (inject_Z 0) with 0 in *; lra].
    assert (Hs : s = false).
    { apply Hst. rewrite Hfl. cbn [Z.b2z].
      rewrite inject_Z_plus, inject_Z_mult. change (inject_Z 2) with 2.
      change (inject_Z 1) with 1. lra. }
    subst s. reflexivity.
  - (* above the midpoint *)
    destruct r; cbn [Z.b2z] in *;
      [|exfalso; change (inject_Z 0) with 0 in *; lra].
    destruct s; [reflexivity|]. exfalso.
    assert (Ht : t == inject_Z (Qfloor t)) by (apply Hst; reflexivity).
    rewrite Hfl in Ht. cbn [Z.b2z] in Ht.
    rewrite inject_Z_plus, inject_Z_mult in Ht. change (inject_Z 2) with 2 in Ht.
    change (inject_Z 1) with 1 in Ht. lra.
Qed.

End LocatedValue.

Section Round.

Variables prec emax : Z.
Hypothesis Hprec : 0 < prec.

Local Abbreviation emin := (SpecFloat.emin prec emax).
Local Abbreviation fexp := (SpecFloat.fexp prec emax).

Lemma fexp_spec (L : Z) : fexp L = Z.max (L - prec) emin.
Proof. reflexivity. Qed.

Lemma shr_no_shift (mrs : shr_record) (e n : Z) : n <= 0 -> shr mrs e n = (mrs, e).
Proof. intros Hn. destruct n as [|p|p]; [reflexivity | lia | reflexivity]. Qed.

(** The second shift of [binary_round_aux]: it only renormalises a
    mantissa that the rounding carried to [2^prec]. *)
Lemma renormalise (n E1 : Z) :
  0 <= n <= 2 ^ prec -> emin <= E1 ->
  (n = 0 /\ shr_m (fst (shr_fexp prec emax n E1 loc_Exact)) = 0) \/
  (exists m : positive,
      shr_m (fst (shr_fexp prec emax n E1 loc_Exact)) = Z.pos m /\
      (inject_Z (Z.pos m) * pow2 (snd (shr_fexp prec emax n E1 loc_Exact))
         == inject_Z n * pow2 E1)%Q /\
      E1 <= snd (shr_fexp prec emax n E1 loc_Exact) <= E1 + 1).
Proof.
  intros Hn HE1. unfold shr_fexp. cbn [shr_record_of_loc].
  assert (Hcases : n = 0 \/ 0 < n < 2 ^ prec \/ n = 2 ^ prec) by lia.
  destruct Hcases as [-> | [Hlt | ->]].
  - left. split; [reflexivity|]. rewrite shr_no_shift; [reflexivity|].
    cbn [Zdigits2]. rewrite fexp_spec. lia.
  - right. rewrite shr_no_shift.
    + destruct n as [|p|p]; try lia. exists p. cbn [fst snd shr_m].
      split; [reflexivity|]. split; [reflexivity | lia].
    + pose proof (Zdigits2_le n prec ltac:(lia) ltac:(lia) ltac:(lia)).
      rewrite fexp_spec. lia.
  - right. rewrite Zdigits2_pow2 by lia.
    replace (fexp (prec + 1 + E1) - E1) with 1 by (rewrite fexp_spec; lia).
    cbn [shr SpecFloat.iter_pos fst snd].
    assert (Hp : 0 < 2 ^ prec) by (apply Z.pow_pos_nonneg; lia).
    rewrite shr_1_fields by lia. cbn [shr_m].
    assert (Hhalf : Z.div2 (2 ^ prec) = 2 ^ (prec - 1)).
    { rewrite Z.div2_div. replace prec with (Z.succ (prec - 1)) at 1 by lia.
      rewrite Z.pow_succ_r by lia. rewrite Z.mul_comm, Z.div_mul by lia. reflexivity. }
    rewrite Hhalf.
    assert (Hq : 0 < 2 ^ (prec - 1)) by (apply Z.pow_pos_nonneg; lia).
    destruct (2 ^ (prec - 1)) as [|m|m] eqn:Em; try lia.
    exists m. split; [reflexivity|]. split; [|lia].
    rewrite <- Em. rewrite pow2_succ.
    rewrite <- !pow2_Z by lia.
    replace prec with ((prec - 1) + 1) at 2 by lia. rewrite pow2_succ. ring.
Qed.

Lemma located_exact_inv (m e : Z) (x : Q) :
  located (Build_shr_record m false false) e x -> (x == inject_Z m * pow2 e)%Q.
Proof.
  unfold located. cbn [shr_m shr_r shr_s Z.b2z]. intros (Hm & Hfl & Hst).
  assert (Ht : (x * pow2 (1 - e) == inject_Z (Qfloor (x * pow2 (1 - e))))%Q)
    by (apply Hst; reflexivity).
  rewrite Hfl, Z.add_0_r, inject_Z_mult in Ht. change (inject_Z 2) with 2%Q in Ht.
  rewrite pow2_sub, pow2_1 in Ht. pose proof (pow2_pos e) as He.
  assert (E : (x == x * (2 / pow2 e) * (pow2 e / 2))%Q) by (field; lra).
  rewrite E, Ht. field.
Qed.

Lemma located_bitlen (mx ex : Z) (lx : location) (x : Q) :
  0 < mx ->
  located (shr_record_of_loc mx lx) ex x ->
  bitlen x (Zdigits2 mx + ex).
Proof.
  intros Hmx Hloc.
  assert (Hr : (inject_Z mx * pow2 ex <= x < (inject_Z mx + 1) * pow2 ex)%Q).
  { destruct lx as [|[| |]]; cbn [shr_record_of_loc] in Hloc;
      eapply located_range; exact Hloc. }
  destruct (Zdigits2_bounds mx Hmx) as (Hd & Hlo & Hhi).
  pose proof (pow2_pos ex) as He. unfold bitlen.
  replace (Zdigits2 mx + ex - 1) with ((Zdigits2 mx - 1) + ex) by lia.
  rewrite !pow2_add, (pow2_Z (Zdigits2 mx - 1)), (pow2_Z (Zdigits2 mx)) by lia. split.
  - eapply Qle_trans; [|apply Hr].
    apply Qmult_le_compat_r; [|lra]. rewrite <- Zle_Qle. exact Hlo.
  - eapply Qlt_le_trans; [apply Hr|].
    apply Qmult_le_compat_r; [|lra].
    change 1%Q with (inject_Z 1). rewrite <- inject_Z_plus, <- Zle_Qle. lia.
Qed.

Lemma binary_round_aux_unfold (sx : bool) (mx ex : Z) (lx : location) :
  binary_round_aux prec emax sx mx ex lx =
  match shr_m (fst (shr_fexp prec emax
                      (round_nearest_even (shr_m (fst (shr_fexp prec emax mx ex lx)))
                         (loc_of_shr_record (fst (shr_fexp prec emax mx ex lx))))
                      (snd (shr_fexp prec emax mx ex lx)) loc_Exact)) with
  | Z0 => S754_zero sx
  | Z.pos m =>
      if snd (shr_fexp prec emax
                (round_nearest_even (shr_m (fst (shr_fexp prec emax mx ex lx)))
                   (loc_of_shr_record (fst (shr_fexp prec emax mx ex lx))))
                (snd (shr_fexp prec emax mx ex lx)) loc_Exact) <=? emax - prec
      then S754_finite sx m
             (snd (shr_fexp prec emax
                     (round_nearest_even (shr_m (fst (shr_fexp prec emax mx ex lx)))
                        (loc_of_shr_record (fst (shr_fexp prec emax mx ex lx))))
                     (snd (shr_fexp prec emax mx ex lx)) loc_Exact))
      else S754_infinity sx
  | Z.neg _ => S754_nan
  end.
Proof.
  unfold binary_round_aux.
  destruct (shr_fexp prec emax mx ex lx) as [mrs1 e1]. cbn [fst snd].
  destruct (shr_fexp prec emax _ e1 loc_Exact) as [mrs2 e2]. reflexivity.
Qed.

Lemma located_nonneg (mrs : shr_record) (e : Z) (x : Q) :
  located mrs e x -> (0 <= x)%Q.
Proof.
  destruct mrs as [m r s]. intros Hloc.
  destruct (located_range m r s e x Hloc) as [Hlo _].
  destruct Hloc as (Hm & _). cbn [shr_m] in Hm.
  pose proof (pow2_pos e) as He.
  eapply Qle_trans; [|exact Hlo].
  apply Qmult_le_0_compat; [|lra].
  change 0%Q with (inject_Z 0). rewrite <- Zle_Qle. exact Hm.
Qed.

(** [binary_round_aux] on a located non-negative value: it rounds on the
    grid of the exponent the first shift reaches. *)
Lemma binary_round_aux_core (mx ex : Z) (lx : location) (x : Q) :
  located (shr_record_of_loc mx lx) ex x ->
  (x < pow2 (Z.max (fexp (Zdigits2 mx + ex)) ex + prec))%Q ->
  Z.max (fexp (Zdigits2 mx + ex)) ex + 1 <= emax - prec ->
  is_finite (binary_round_aux prec emax false mx ex lx) = true /\
  is_nonneg (binary_round_aux prec emax false mx ex lx) = true /\
  (F2Q (binary_round_aux prec emax false mx ex lx)
     == round_at (Z.max (fexp (Zdigits2 mx + ex)) ex) x)%Q.
Proof.
  intros Hloc HxU Hov.
  pose proof (located_nonneg _ _ _ Hloc) as Hx0.
  set (L := Zdigits2 mx + ex) in *.
  rewrite binary_round_aux_unfold.
  assert (Hs1 : shr_fexp prec emax mx ex lx
                = shr (shr_record_of_loc mx lx) ex (fexp L - ex)) by reflexivity.
  destruct (located_shr _ ex (fexp L - ex) x Hloc) as [Hloc1 He1].
  rewrite <- Hs1 in Hloc1, He1. clear Hs1.
  destruct (shr_fexp prec emax mx ex lx) as [mrs1 e1].
  cbn [fst snd] in *.
  assert (HE1 : e1 = Z.max (fexp L) ex) by lia. clear He1.
  rewrite <- HE1 in *.
  rewrite (rne_located mrs1 e1 x Hloc1).
  remember (rnd (x / pow2 e1)) as n eqn:En.
  pose proof (pow2_pos e1) as Hp1.
  assert (Hn0 : 0 <= n).
  { rewrite En. rewrite <- (rnd_Z 0) at 1. apply rnd_mono. change (inject_Z 0) with 0%Q.
    apply Qle_shift_div_l; [exact Hp1|]. lra. }
  assert (Hn1 : n <= 2 ^ prec).
  { rewrite En. rewrite <- (rnd_Z (2 ^ prec)). apply rnd_mono.
    apply Qle_shift_div_r; [exact Hp1|].
    rewrite <- pow2_Z, <- pow2_add by lia.
    apply Qlt_le_weak. rewrite Z.add_comm. exact HxU. }
  assert (Hemin : emin <= e1) by (rewrite fexp_spec in HE1; lia).
  pose proof (renormalise n e1 (conj Hn0 Hn1) Hemin) as Hren.
  destruct (shr_fexp prec emax n e1 loc_Exact) as [mrs2 e2].
  cbn [fst snd] in *. unfold round_at. rewrite <- En.
  destruct Hren as [[En0 Em] | (m & Em & Ev & He2)].
  - rewrite Em. cbn [is_finite is_nonneg F2Q].
    split; [reflexivity|]. split; [reflexivity|].
    rewrite En0. ring.
  - rewrite Em.
    destruct (Z.leb_spec e2 (emax - prec)) as [_ | Hbad]; [|lia].
    cbn [is_finite is_nonneg F2Q].
    split; [reflexivity|]. split; [reflexivity|].
    rewrite <- Ev. reflexivity.
Qed.

Lemma bitlen_mono (x1 x2 : Q) (L1 L2 : Z) :
  bitlen x1 L1 -> bitlen x2 L2 -> (x1 <= x2)%Q -> L1 <= L2.
Proof.
  intros [H1 _] [_ H2] Hx.
  assert (H : (pow2 (L1 - 1) < pow2 L2)%Q) by lra.
  apply pow2_lt_inv in H. lia.
Qed.

Lemma bitlen_unique (x : Q) (L1 L2 : Z) : bitlen x L1 -> bitlen x L2 -> L1 = L2.
Proof.
  intros H1 H2.
  pose proof (bitlen_mono x x L1 L2 H1 H2 (Qle_refl x)).
  pose proof (bitlen_mono x x L2 L1 H2 H1 (Qle_refl x)). lia.
Qed.

Lemma bitlen_pos (x : Q) (L : Z) : bitlen x L -> (0 < x)%Q.
Proof. intros [H _]. pose proof (pow2_pos (L - 1)). lra. Qed.

Lemma bitlen_comp (x y : Q) (L : Z) : (x == y)%Q -> bitlen x L -> bitlen y L.
Proof. intros E [H1 H2]. split; rewrite <- E; assumption. Qed.

Lemma round_at_comp (E : Z) (x y : Q) : (x == y)%Q -> (round_at E x == round_at E y)%Q.
Proof.
  intros Exy. unfold round_at.
  rewrite (rnd_comp (x / pow2 E) (y / pow2 E)); [reflexivity|].
  rewrite Exy. reflexivity.
Qed.

(** A value on the grid of [ex] is on every finer grid. *)
Lemma round_at_finer (E ex : Z) (m : Z) :
  E <= ex -> (round_at E (inject_Z m * pow2 ex) == inject_Z m * pow2 ex)%Q.
Proof.
  intros HE.
  assert (Ex : (inject_Z m * pow2 ex == inject_Z (m * 2 ^ (ex - E)) * pow2 E)%Q).
  { rewrite inject_Z_mult, <- pow2_Z by lia.
    rewrite <- Qmult_assoc, <- pow2_add.
    replace (ex - E + E) with ex by lia. reflexivity. }
  rewrite (round_at_comp _ _ _ Ex), round_at_grid. symmetry. exact Ex.
Qed.

(** [binary_round_aux] on an exact positive value [mx * 2^ex]. *)
Lemma binary_round_aux_exact (mx : positive) (ex L : Z) :
  bitlen (inject_Z (Z.pos mx) * pow2 ex) L ->
  Z.max (fexp L) ex + 1 <= emax - prec ->
  is_finite (binary_round_aux prec emax false (Z.pos mx) ex loc_Exact) = true /\
  is_nonneg (binary_round_aux prec emax false (Z.pos mx) ex loc_Exact) = true /\
  (F2Q (binary_round_aux prec emax false (Z.pos mx) ex loc_Exact)
     == round_at (fexp L) (inject_Z (Z.pos mx) * pow2 ex))%Q.
Proof.
  intros HL Hov.
  set (x := (inject_Z (Z.pos mx) * pow2 ex)%Q) in *.
  assert (Hloc : located (shr_record_of_loc (Z.pos mx) loc_Exact) ex x)
    by (apply located_exact; lia).
  pose proof (located_bitlen (Z.pos mx) ex loc_Exact x ltac:(lia) Hloc) as HL'.
  pose proof (bitlen_unique x _ _ HL' HL) as EL.
  destruct (binary_round_aux_core (Z.pos mx) ex loc_Exact x Hloc) as (Hf & Hn & Hv).
  - rewrite EL. destruct HL as [_ HU]. eapply Qlt_le_trans; [exact HU|].
    apply pow2_le. rewrite fexp_spec. lia.
  - rewrite EL. exact Hov.
  - split; [exact Hf|]. split; [exact Hn|]. rewrite Hv, EL.
    destruct (Z_le_gt_dec ex (fexp L)) as [Hle | Hgt].
    + replace (Z.max (fexp L) ex) with (fexp L) by lia. reflexivity.
    + replace (Z.max (fexp L) ex) with ex by lia.
      unfold x. rewrite !round_at_finer by lia. reflexivity.
Qed.

Lemma SFmul_value (m1 m2 : positive) (e1 e2 L : Z) :
  bitlen (F2Q (S754_finite false m1 e1) * F2Q (S754_finite false m2 e2)) L ->
  Z.max (fexp L) (e1 + e2) + 1 <= emax - prec ->
  is_finite (SFmul prec emax (S754_finite false m1 e1) (S754_finite false m2 e2)) = true /\
  is_nonneg (SFmul prec emax (S754_finite false m1 e1) (S754_finite false m2 e2)) = true /\
  (F2Q (SFmul prec emax (S754_finite false m1 e1) (S754_finite false m2 e2))
     == round_at (fexp L)
          (F2Q (S754_finite false m1 e1) * F2Q (S754_finite false m2 e2)))%Q.
Proof.
  intros HL Hov. cbn [SFmul xorb F2Q] in *.
  assert (Ex : (inject_Z (Z.pos m1) * 2 ^ e1 * (inject_Z (Z.pos m2) * 2 ^ e2)
                == inject_Z (Z.pos (m1 * m2)) * pow2 (e1 + e2))%Q).
  { rewrite Pos2Z.inj_mul, inject_Z_mult, pow2_add. unfold pow2. ring. }
  apply (bitlen_comp _ _ _ Ex) in HL.
  destruct (binary_round_aux_exact (m1 * m2) (e1 + e2) L HL Hov) as (Hf & Hn & Hv).
  split; [exact Hf|]. split; [exact Hn|].
  rewrite Hv. apply round_at_comp. symmetry. exact Ex.
Qed.

Lemma round_at_nonneg (E : Z) (x : Q) : (0 <= x -> 0 <= round_at E x)%Q.
Proof.
  intros Hx. pose proof (pow2_pos E) as HE. unfold round_at.
  apply Qmult_le_0_compat; [|lra].
  change 0%Q with (inject_Z 0). rewrite <- Zle_Qle.
  rewrite <- (rnd_Z 0) at 1. apply rnd_mono. change (inject_Z 0) with 0%Q.
  apply Qle_shift_div_l; [exact HE|]. lra.
Qed.

Lemma fexp_mono (L1 L2 : Z) : L1 <= L2 -> fexp L1 <= fexp L2.
Proof. intros H. rewrite !fexp_spec. lia. Qed.

Lemma round_at_pow2 (E K : Z) : E <= K -> (round_at E (pow2 K) == pow2 K)%Q.
Proof.
  intros H. pose proof (round_at_finer E K 1 H) as R.
  assert (Ex : (inject_Z 1 * pow2 K == pow2 K)%Q) by (change (inject_Z 1) with 1%Q; ring).
  rewrite <- Ex at 2. rewrite <- R. apply round_at_comp. symmetry. exact Ex.
Qed.

(** Rounding is monotone, also across binades. *)
Lemma round_mono (x1 x2 : Q) (L1 L2 : Z) :
  bitlen x1 L1 -> bitlen x2 L2 -> (x1 <= x2)%Q ->
  (round_at (fexp L1) x1 <= round_at (fexp L2) x2)%Q.
Proof.
  intros H1 H2 Hx.
  pose proof (bitlen_mono _ _ _ _ H1 H2 Hx) as HL.
  pose proof (fexp_mono _ _ HL) as HE.
  destruct (Z.eq_dec (fexp L1) (fexp L2)) as [E | NE].
  - rewrite E. apply round_at_mono. exact Hx.
  - assert (E2 : fexp L2 = L2 - prec) by (rewrite !fexp_spec in *; lia).
    assert (HL' : L1 < L2).
    { destruct (Z.eq_dec L1 L2) as [-> | N]; [congruence | lia]. }
    destruct H1 as [_ H1U]. destruct H2 as [H2L _].
    eapply Qle_trans; [apply (round_at_mono _ x1 (pow2 (Z.max L1 (fexp L1))))|].
    { eapply Qle_trans; [apply Qlt_le_weak; exact H1U|]. apply pow2_le. lia. }
    rewrite round_at_pow2 by lia.
    eapply Qle_trans; [|apply (round_at_mono _ (pow2 (L2 - 1)) x2); exact H2L].
    rewrite round_at_pow2 by lia.
    apply pow2_le. lia.
Qed.

Lemma round_error (x : Q) (L K : Z) :
  bitlen x L -> L <= K ->
  (Qabs (round_at (fexp L) x - x) <= pow2 (fexp K) / 2)%Q.
Proof.
  intros HL HK. eapply Qle_trans; [apply round_at_error|].
  pose proof (pow2_le _ _ (fexp_mono _ _ HK)) as H.
  apply Qmult_le_compat_r; [exact H | discriminate].
Qed.

(** The quotient and the location [SFdiv_core_binary] computes locate the
    exact quotient. *)
Lemma located_quotient (a b e : Z) :
  0 <= a -> 0 < b ->
  located (shr_record_of_loc (a / b) (new_location b (a mod b))) e
    (inject_Z a / inject_Z b * pow2 e).
Proof.
  intros Ha Hb.
  pose proof (Z.div_mod a b ltac:(lia)) as Hdm.
  pose proof (Z.mod_pos_bound a b Hb) as Hr.
  pose proof (Z.div_pos a b Ha Hb) as Hq.
  remember (a / b) as q eqn:Eq. remember (a mod b) as r eqn:Er. clear Eq Er.
  pose proof (pow2_pos e) as He.
  assert (Hbq : (0 < inject_Z b)%Q) by (change 0%Q with (inject_Z 0); rewrite <- Zlt_Qlt; exact Hb).
  assert (Hrq : (0 <= inject_Z r)%Q) by (change 0%Q with (inject_Z 0); rewrite <- Zle_Qle; lia).
  assert (Et : (inject_Z a / inject_Z b * pow2 e * pow2 (1 - e)
                == inject_Z (2 * q) + 2 * inject_Z r / inject_Z b)%Q).
  { rewrite pow2_sub, pow2_1. rewrite Hdm at 1.
    rewrite inject_Z_plus, !inject_Z_mult. change (inject_Z 2) with 2%Q. field. lra. }
  set (f := (2 * inject_Z r / inject_Z b)%Q) in *.
  assert (Hloc : forall (rb sb : bool),
             (inject_Z (Z.b2z rb) <= f < inject_Z (Z.b2z rb) + 1)%Q ->
             (sb = false <-> (f == inject_Z (Z.b2z rb))%Q) ->
             located (Build_shr_record q rb sb) e (inject_Z a / inject_Z b * pow2 e)).
  { intros rb sb [Hf1 Hf2] Hs. unfold located. cbn [shr_m shr_r shr_s].
    assert (Hfl : Qfloor (inject_Z a / inject_Z b * pow2 e * pow2 (1 - e)) = 2 * q + Z.b2z rb).
    { rewrite (Qfloor_comp _ _ Et). apply Qfloor_unique.
      - rewrite inject_Z_plus. lra.
      - rewrite !inject_Z_plus. change (inject_Z 1) with 1%Q. lra. }
    split; [exact Hq|]. split; [exact Hfl|].
    rewrite Hfl, Et, inject_Z_plus. rewrite Hs. split; intros H; lra. }
  assert (Hf0 : (f == 2 * inject_Z r / inject_Z b)%Q) by reflexivity.
  assert (Hlt : 2 * r < b -> (f < 1)%Q).
  { intros H. rewrite Hf0. apply Qlt_shift_div_r; [exact Hbq|].
    rewrite Qmult_1_l. change 2%Q with (inject_Z 2). rewrite <- inject_Z_mult, <- Zlt_Qlt. exact H. }
  assert (Hge : b <= 2 * r -> (1 <= f)%Q).
  { intros H. rewrite Hf0. apply Qle_shift_div_l; [exact Hbq|].
    rewrite Qmult_1_l. change 2%Q with (inject_Z 2). rewrite <- inject_Z_mult, <- Zle_Qle. exact H. }
  assert (Hgt : b < 2 * r -> (1 < f)%Q).
  { intros H. rewrite Hf0. apply Qlt_shift_div_l; [exact Hbq|].
    rewrite Qmult_1_l. change 2%Q with (inject_Z 2). rewrite <- inject_Z_mult, <- Zlt_Qlt. exact H. }
  assert (Hlt2 : (f < 2)%Q).
  { rewrite Hf0. apply Qlt_shift_div_r; [exact Hbq|].
    apply Qmult_lt_l; [reflexivity|]. rewrite <- Zlt_Qlt. lia. }
  assert (Hpos : 0 < r -> (0 < f)%Q).
  { intros H. rewrite Hf0. apply Qlt_shift_div_l; [exact Hbq|].
    rewrite Qmult_0_l. change 2%Q with (inject_Z 2). rewrite <- inject_Z_mult.
    change 0%Q with (inject_Z 0). rewrite <- Zlt_Qlt. lia. }
  assert (Hf00 : r = 0 -> (f == 0)%Q).
  { intros E. rewrite Hf0, E. change (inject_Z 0) with 0%Q. field. lra. }
  assert (Hf1 : 2 * r = b -> (f == 1)%Q).
  { intros E. rewrite Hf0. change 2%Q with (inject_Z 2). rewrite <- inject_Z_mult, E. field. lra. }
  (* the location *)
  unfold new_location, new_location_even, new_location_odd.
  destruct (Z.even b) eqn:Eb; cbv beta;
    (destruct (Z.eqb_spec r 0) as [E0 | N0];
     [cbn [shr_record_of_loc]; apply Hloc; cbn [Z.b2z]; change (inject_Z 0) with 0%Q;
      rewrite ?(Hf00 E0); split; solve [lra | reflexivity | intros; reflexivity] |]);
    assert (Hr0 : 0 < r) by lia.
  - destruct (Z.compare_spec (2 * r) b) as [E | L | G]; cbn [shr_record_of_loc];
      apply Hloc; cbn [Z.b2z];
      change (inject_Z 0) with 0%Q; change (inject_Z 1) with 1%Q.
    + rewrite (Hf1 E). split; lra.
    + rewrite (Hf1 E). split; reflexivity.
    + pose proof (Hlt L). pose proof (Hpos Hr0). split; lra.
    + pose proof (Hpos Hr0). split; [discriminate | intros ?; lra].
    + pose proof (Hgt G). split; lra.
    + pose proof (Hgt G). split; [discriminate | intros ?; lra].
  - assert (Hodd : 2 * r <> b).
    { intros E. rewrite <- E in Eb. rewrite Z.even_mul in Eb. discriminate. }
    destruct (Z.compare_spec (2 * r + 1) b) as [E | L | G]; cbn [shr_record_of_loc];
      apply Hloc; cbn [Z.b2z];
      change (inject_Z 0) with 0%Q; change (inject_Z 1) with 1%Q.
    + pose proof (Hlt ltac:(lia)). pose proof (Hpos Hr0). split; lra.
    + pose proof (Hpos Hr0). split; [discriminate | intros ?; lra].
    + pose proof (Hlt ltac:(lia)). pose proof (Hpos Hr0). split; lra.
    + pose proof (Hpos Hr0). split; [discriminate | intros ?; lra].
    + pose proof (Hgt ltac:(lia)). split; lra.
    + pose proof (Hgt ltac:(lia)). split; [discriminate | intros ?; lra].
Qed.

Lemma located_comp (mrs : shr_record) (e : Z) (x y : Q) :
  (x == y)%Q -> located mrs e x -> located mrs e y.
Proof.
  intros Exy (Hm & Hfl & Hs).
  assert (Et : (x * pow2 (1 - e) == y * pow2 (1 - e))%Q) by (rewrite Exy; reflexivity).
  unfold located. rewrite <- (Qfloor_comp _ _ Et), <- Et. auto.
Qed.

Lemma SFdiv_core_binary_spec (m1 m2 : positive) (e1 e2 : Z) :
  SFdiv_core_binary prec emax (Z.pos m1) e1 (Z.pos m2) e2 =
  let e' := Z.min (fexp (Zdigits2 (Z.pos m1) + e1 - (Zdigits2 (Z.pos m2) + e2))) (e1 - e2) in
  let m' := Z.pos m1 * 2 ^ (e1 - e2 - e') in
  (m' / Z.pos m2, e', new_location (Z.pos m2) (m' mod Z.pos m2)).
Proof.
  unfold SFdiv_core_binary. cbv zeta.
  set (e' := Z.min _ (e1 - e2)).
  assert (Hs : 0 <= e1 - e2 - e') by lia.
  assert (Em : match e1 - e2 - e' with
               | Z.pos _ => Z.shiftl (Z.pos m1) (e1 - e2 - e')
               | Z0 => Z.pos m1
               | Z.neg _ => 0
               end = Z.pos m1 * 2 ^ (e1 - e2 - e')).
  { destruct (e1 - e2 - e') as [|p|p] eqn:E; try lia.
    apply Z.shiftl_mul_pow2. lia. }
  rewrite Em. unfold Z.div, Z.modulo.
  destruct (Z.div_eucl (Z.pos m1 * 2 ^ (e1 - e2 - e')) (Z.pos m2)) as [q r].
  reflexivity.
Qed.

Lemma quotient_lower (m1 m2 : positive) (e1 e2 : Z) :
  (pow2 (Zdigits2 (Z.pos m1) + e1 - (Zdigits2 (Z.pos m2) + e2) - 1)
   < inject_Z (Z.pos m1) * pow2 e1 / (inject_Z (Z.pos m2) * pow2 e2))%Q.
Proof.
  destruct (Zdigits2_bounds (Z.pos m1) ltac:(lia)) as (Hd1 & Hlo1 & _).
  destruct (Zdigits2_bounds (Z.pos m2) ltac:(lia)) as (Hd2 & _ & Hhi2).
  set (d1 := Zdigits2 (Z.pos m1)) in *. set (d2 := Zdigits2 (Z.pos m2)) in *.
  pose proof (pow2_pos e1) as He1. pose proof (pow2_pos e2) as He2.
  pose proof (pow2_pos d2) as Hpd2.
  assert (Hm2 : (0 < inject_Z (Z.pos m2))%Q) by reflexivity.
  replace (d1 + e1 - (d2 + e2) - 1) with ((d1 - 1) + e1 + (- d2 - e2)) by lia.
  rewrite !pow2_add.
  assert (Ei : forall k, (pow2 (- k) == / pow2 k)%Q).
  { intros k. unfold pow2. apply Qpower_opp. }
  replace (- d2 - e2) with (- (d2 + e2)) by lia. rewrite Ei, pow2_add.
  assert (H1 : (pow2 (d1 - 1) <= inject_Z (Z.pos m1))%Q).
  { rewrite pow2_Z by lia. rewrite <- Zle_Qle. exact Hlo1. }
  assert (H2 : (inject_Z (Z.pos m2) < pow2 d2)%Q).
  { rewrite pow2_Z by lia. rewrite <- Zlt_Qlt. exact Hhi2. }
  apply Qlt_shift_div_l; [apply Qmult_lt_0_compat; assumption|].
  assert (E : (pow2 (d1 - 1) * pow2 e1 * / (pow2 d2 * pow2 e2) * (inject_Z (Z.pos m2) * pow2 e2)
               == pow2 (d1 - 1) * pow2 e1 * (inject_Z (Z.pos m2) / pow2 d2))%Q)
    by (field; split; lra).
  rewrite E.
  assert (H3 : (inject_Z (Z.pos m2) / pow2 d2 < 1)%Q)
    by (apply Qlt_shift_div_r; [exact Hpd2 | lra]).
  pose proof (pow2_pos (d1 - 1)) as Hpd1.
  assert (H4 : (0 < pow2 (d1 - 1) * pow2 e1)%Q) by (apply Qmult_lt_0_compat; assumption).
  assert (H5 : (pow2 (d1 - 1) * pow2 e1 <= inject_Z (Z.pos m1) * pow2 e1)%Q)
    by (apply Qmult_le_compat_r; lra).
  eapply Qlt_le_trans; [|exact H5].
  rewrite <- (Qmult_1_r (pow2 (d1 - 1) * pow2 e1)) at 2.
  apply Qmult_lt_l; assumption.
Qed.

Lemma SFdiv_value (m1 m2 : positive) (e1 e2 L : Z) :
  bitlen (F2Q (S754_finite false m1 e1) / F2Q (S754_finite false m2 e2)) L ->
  fexp L + 1 <= emax - prec ->
  is_finite (SFdiv prec emax (S754_finite false m1 e1) (S754_finite false m2 e2)) = true /\
  is_nonneg (SFdiv prec emax (S754_finite false m1 e1) (S754_finite false m2 e2)) = true /\
  (F2Q (SFdiv prec emax (S754_finite false m1 e1) (S754_finite false m2 e2))
     == round_at (fexp L)
          (F2Q (S754_finite false m1 e1) / F2Q (S754_finite false m2 e2)))%Q.
Proof.
  intros HL Hov. cbn [SFdiv xorb F2Q] in *.
  change (2 ^ e1)%Q with (pow2 e1) in *. change (2 ^ e2)%Q with (pow2 e2) in *.
  set (x := (inject_Z (Z.pos m1) * pow2 e1 / (inject_Z (Z.pos m2) * pow2 e2))%Q) in *.
  rewrite SFdiv_core_binary_spec. cbv zeta.
  set (K := Zdigits2 (Z.pos m1) + e1 - (Zdigits2 (Z.pos m2) + e2)).
  set (e' := Z.min (fexp K) (e1 - e2)).
  set (m' := Z.pos m1 * 2 ^ (e1 - e2 - e')).
  assert (Hs : 0 <= e1 - e2 - e') by lia.
  assert (Hm' : 0 <= m') by (unfold m'; apply Z.mul_nonneg_nonneg; [lia | apply Z.pow_nonneg; lia]).
  pose proof (pow2_pos e1) as He1. pose proof (pow2_pos e2) as He2.
  pose proof (pow2_pos e') as He'.
  assert (Ex : (inject_Z m' / inject_Z (Z.pos m2) * pow2 e' == x)%Q).
  { unfold m', x. rewrite inject_Z_mult, <- pow2_Z by exact Hs.
    replace (e1 - e2 - e') with (e1 + (- e2 + - e')) by lia.
    rewrite !pow2_add.
    assert (Ei : forall k, (pow2 (- k) == / pow2 k)%Q)
      by (intros k; unfold pow2; apply Qpower_opp).
    rewrite !Ei. field.
    assert (Hm2 : (0 < inject_Z (Z.pos m2))%Q) by reflexivity.
    repeat split; lra. }
  pose proof (located_comp _ _ _ _ Ex
                (located_quotient m' (Z.pos m2) e' Hm' ltac:(lia))) as Hloc.
  set (q := m' / Z.pos m2) in *. set (lz := new_location (Z.pos m2) (m' mod Z.pos m2)) in *.
  assert (HK : K <= L).
  { pose proof (quotient_lower m1 m2 e1 e2) as Hlow. fold K in Hlow. fold x in Hlow.
    destruct HL as [_ HU].
    assert (H : (pow2 (K - 1) < pow2 L)%Q) by lra.
    apply pow2_lt_inv in H. lia. }
  assert (HE1 : Z.max (fexp (Zdigits2 q + e')) e' = fexp L).
  { assert (Hq : 0 <= q) by (apply Z.div_pos; lia).
    destruct (Z.eq_dec q 0) as [Eq0 | Nq0].
    - rewrite Eq0 in *. cbn [Zdigits2].
      assert (HLe : L <= e').
      { assert (Hr : (x < (inject_Z 0 + 1) * pow2 e')%Q).
        { destruct lz as [|[| |]]; cbn [shr_record_of_loc] in Hloc;
            eapply located_range; exact Hloc. }
        change (inject_Z 0) with 0%Q in Hr. destruct HL as [HLo _].
        assert (H : (pow2 (L - 1) < pow2 e')%Q) by lra.
        apply pow2_lt_inv in H. lia. }
      pose proof (fexp_spec K). pose proof (fexp_spec L). pose proof (fexp_spec (0 + e')).
      lia.
    - pose proof (located_bitlen q e' lz x ltac:(lia) Hloc) as HL'.
      pose proof (bitlen_unique x _ _ HL' HL) as EL. rewrite EL.
      pose proof (fexp_mono K L HK). lia. }
  destruct (binary_round_aux_core q e' lz x Hloc) as (Hf & Hn & Hv).
  - rewrite HE1. destruct HL as [_ HU]. eapply Qlt_le_trans; [exact HU|].
    apply pow2_le. rewrite fexp_spec. lia.
  - rewrite HE1. exact Hov.
  - split; [exact Hf|]. split; [exact Hn|]. rewrite Hv, HE1. reflexivity.
Qed.

Lemma iter_xO_value (m d : positive) :
  Z.pos (Pos.iter xO m d) = Z.pos m * 2 ^ Z.pos d.
Proof.
  induction d as [|d IH] using Pos.peano_ind.
  - cbn [Pos.iter]. lia.
  - rewrite Pos.iter_succ, Pos2Z.inj_succ, Z.pow_succ_r by lia.
    rewrite Pos2Z.inj_xO, IH. ring.
Qed.

Lemma shl_align_value (mx : positive) (ex ex' : Z) :
  (inject_Z (Z.pos (fst (shl_align mx ex ex'))) * pow2 (snd (shl_align mx ex ex'))
     == inject_Z (Z.pos mx) * pow2 ex)%Q /\
  snd (shl_align mx ex ex') = Z.min ex ex'.
Proof.
  unfold shl_align. destruct (ex' - ex) as [|d|d] eqn:E; cbn [fst snd].
  - split; [reflexivity | lia].
  - split; [reflexivity | lia].
  - split; [|lia]. rewrite iter_xO_value, inject_Z_mult, <- pow2_Z by lia.
    rewrite <- Qmult_assoc, <- pow2_add.
    replace (Z.pos d + ex') with ex by lia. reflexivity.
Qed.

Lemma binary_round_value (mx : positive) (ex L : Z) :
  bitlen (inject_Z (Z.pos mx) * pow2 ex) L ->
  fexp L + 1 <= emax - prec ->
  is_finite (binary_round prec emax false mx ex) = true /\
  is_nonneg (binary_round prec emax false mx ex) = true /\
  (F2Q (binary_round prec emax false mx ex)
     == round_at (fexp L) (inject_Z (Z.pos mx) * pow2 ex))%Q.
Proof.
  intros HL Hov. unfold binary_round.
  assert (Hloc : located (shr_record_of_loc (Z.pos mx) loc_Exact) ex
                   (inject_Z (Z.pos mx) * pow2 ex))
    by (apply located_exact; lia).
  pose proof (located_bitlen (Z.pos mx) ex loc_Exact _ ltac:(lia) Hloc) as HL'.
  pose proof (bitlen_unique _ _ _ HL' HL) as EL. cbn [Zdigits2] in EL. rewrite EL.
  destruct (shl_align_value mx ex (fexp L)) as [Ev Ee].
  destruct (shl_align mx ex (fexp L)) as [mz ez]. cbn [fst snd] in Ev, Ee.
  apply (bitlen_comp _ _ _ (Qeq_sym _ _ Ev)) in HL.
  destruct (binary_round_aux_exact mz ez L HL ltac:(lia)) as (Hf & Hn & Hv).
  split; [exact Hf|]. split; [exact Hn|]. rewrite Hv. apply round_at_comp. exact Ev.
Qed.

Lemma SFadd_value (m1 m2 : positive) (e1 e2 L : Z) :
  bitlen (F2Q (S754_finite false m1 e1) + F2Q (S754_finite false m2 e2)) L ->
  fexp L + 1 <= emax - prec ->
  is_finite (SFadd prec emax (S754_finite false m1 e1) (S754_finite false m2 e2)) = true /\
  is_nonneg (SFadd prec emax (S754_finite false m1 e1) (S754_finite false m2 e2)) = true /\
  (F2Q (SFadd prec emax (S754_finite false m1 e1) (S754_finite false m2 e2))
     == round_at (fexp L)
          (F2Q (S754_finite false m1 e1) + F2Q (S754_finite false m2 e2)))%Q.
Proof.
  intros HL Hov. cbn [SFadd F2Q cond_Zopp] in *.
  change (2 ^ e1)%Q with (pow2 e1) in *. change (2 ^ e2)%Q with (pow2 e2) in *.
  destruct (shl_align_value m1 e1 (Z.min e1 e2)) as [Ev1 Ee1].
  destruct (shl_align_value m2 e2 (Z.min e1 e2)) as [Ev2 Ee2].
  destruct (shl_align m1 e1 (Z.min e1 e2)) as [a1 z1].
  destruct (shl_align m2 e2 (Z.min e1 e2)) as [a2 z2].
  cbn [fst snd] in *.
  assert (Hz1 : z1 = Z.min e1 e2) by lia. assert (Hz2 : z2 = Z.min e1 e2) by lia.
  clear Ee1 Ee2. subst z1 z2.
  change (Z.pos a1 + Z.pos a2) with (Z.pos (a1 + a2)). cbn [binary_normalize].
  assert (Ex : (inject_Z (Z.pos (a1 + a2)) * pow2 (Z.min e1 e2)
                == inject_Z (Z.pos m1) * pow2 e1 + inject_Z (Z.pos m2) * pow2 e2)%Q).
  { rewrite Pos2Z.inj_add, inject_Z_plus, Qmult_plus_distr_l, Ev1, Ev2. reflexivity. }
  apply (bitlen_comp _ _ _ (Qeq_sym _ _ Ex)) in HL.
  destruct (binary_round_value (a1 + a2) (Z.min e1 e2) L HL Hov) as (Hf & Hn & Hv).
  split; [exact Hf|]. split; [exact Hn|]. rewrite Hv. apply round_at_comp. exact Ex.
Qed.

Local Abbreviation rounded := (IEEE.rounded prec emax).

Lemma bitlen_exists (x : Q) : (0 < x)%Q -> exists L, bitlen x L.
Proof.
  intros Hx. destruct x as [p q]. unfold Qlt in Hx. cbn in Hx.
  rewrite Z.mul_1_r in Hx.
  set (s := Zdigits2 (Z.pos q)).
  destruct (Zdigits2_bounds (Z.pos q) ltac:(lia)) as (Hs & _ & Hq). fold s in Hs, Hq.
  assert (Hp2 : 0 < 2 ^ s) by (apply Z.pow_pos_nonneg; lia).
  assert (Ha : 0 <= p * 2 ^ s) by nia.
  pose proof (located_quotient (p * 2 ^ s) (Z.pos q) (- s) Ha ltac:(lia)) as Hloc.
  assert (Hquo : 0 < p * 2 ^ s / Z.pos q).
  { apply Z.div_str_pos. nia. }
  assert (Ex : (inject_Z (p * 2 ^ s) / inject_Z (Z.pos q) * pow2 (- s) == p # q)%Q).
  { rewrite inject_Z_mult, <- pow2_Z by lia.
    assert (Ei : (pow2 (- s) == / pow2 s)%Q) by (unfold pow2; apply Qpower_opp).
    rewrite Ei. pose proof (pow2_pos s) as Hps.
    rewrite (Qmake_Qdiv p q). field. split; (lra || discriminate). }
  apply (located_comp _ _ _ _ Ex) in Hloc.
  eexists. eapply located_bitlen; [exact Hquo | exact Hloc].
Qed.

Lemma bitlen_le (x : Q) (L K : Z) : bitlen x L -> (x < pow2 K)%Q -> L <= K.
Proof.
  intros [HL _] HK. assert (H : (pow2 (L - 1) < pow2 K)%Q) by lra.
  apply pow2_lt_inv in H. lia.
Qed.

Lemma rounded_nonneg (x v : Q) : rounded x v -> (0 <= x /\ 0 <= v)%Q.
Proof.
  intros [[Ex Ev] | (L & HL & Ev)].
  - rewrite Ex, Ev. split; apply Qle_refl.
  - pose proof (bitlen_pos _ _ HL). split; [lra|].
    rewrite Ev. apply round_at_nonneg. lra.
Qed.

Lemma rounded_mono (x1 x2 v1 v2 : Q) :
  rounded x1 v1 -> rounded x2 v2 -> (x1 <= x2)%Q -> (v1 <= v2)%Q.
Proof.
  intros H1 H2 Hx.
  destruct (rounded_nonneg _ _ H2) as [_ Hv2].
  destruct H1 as [[E1 Ev1] | (L1 & HL1 & Ev1)].
  - rewrite Ev1. exact Hv2.
  - destruct H2 as [[E2 Ev2] | (L2 & HL2 & Ev2)].
    + pose proof (bitlen_pos _ _ HL1). exfalso. lra.
    + rewrite Ev1, Ev2. apply round_mono; assumption.
Qed.

Lemma rounded_error (x v : Q) (K : Z) :
  rounded x v -> (x < pow2 K)%Q -> (Qabs (v - x) <= pow2 (fexp K) / 2)%Q.
Proof.
  intros [[Ex Ev] | (L & HL & Ev)] HK.
  - rewrite Ex, Ev. pose proof (pow2_pos (fexp K)).
    change (Qabs (0 - 0)) with 0%Q. apply Qle_shift_div_l; [reflexivity | lra].
  - rewrite Ev. apply round_error; [exact HL|]. eapply bitlen_le; eassumption.
Qed.

Lemma rounded_comp (x y v w : Q) : (x == y -> v == w -> rounded x v -> rounded y w)%Q.
Proof.
  intros Exy Evw [[Ex Ev] | (L & HL & Ev)].
  - left. rewrite <- Exy, <- Evw. auto.
  - right. exists L. split; [eapply bitlen_comp; eassumption|].
    rewrite <- Evw, Ev. apply round_at_comp. exact Exy.
Qed.

(** A rounded value is on the grid of every binade below its own. *)
Lemma rounded_grid (x v : Q) (K : Z) :
  rounded x v -> (pow2 (K - 1) <= x)%Q ->
  exists k : Z, (v == inject_Z k * pow2 (fexp K))%Q.
Proof.
  intros [[Ex Ev] | (L & HL & Ev)] HK.
  - pose proof (pow2_pos (K - 1)). lra.
  - assert (HKL : K <= L).
    { destruct HL as [_ HU].
      assert (Hlt : (pow2 (K - 1) < pow2 L)%Q) by lra.
      apply pow2_lt_inv in Hlt. lia. }
    pose proof (fexp_mono _ _ HKL) as HE.
    exists (rnd (x / pow2 (fexp L)) * 2 ^ (fexp L - fexp K)).
    rewrite Ev. unfold round_at.
    replace (fexp L) with ((fexp L - fexp K) + fexp K) at 2 by lia.
    rewrite pow2_add, (pow2_Z (fexp L - fexp K)) by lia.
    rewrite inject_Z_mult. ring.
Qed.

Lemma nonneg_cases (v : spec_float) :
  is_finite v = true -> is_nonneg v = true ->
  (exists s, v = S754_zero s) \/ (exists m e, v = S754_finite false m e).
Proof.
  destruct v as [s | s | | [|] m e]; cbn; intros Hf Hn; try discriminate.
  - left. exists s. reflexivity.
  - right. exists m, e. reflexivity.
Qed.

Lemma float_pos (m : positive) (e : Z) : (0 < F2Q (S754_finite false m e))%Q.
Proof.
  cbn [F2Q]. apply Qmult_lt_0_compat; [reflexivity | apply pow2_pos].
Qed.

Lemma float_exp_le (m : positive) (e K : Z) :
  (F2Q (S754_finite false m e) <= pow2 K)%Q -> e <= K.
Proof.
  cbn [F2Q]. intros H. change (2 ^ e)%Q with (pow2 e) in H.
  pose proof (pow2_pos e) as He.
  assert (H1 : (1 <= inject_Z (Z.pos m))%Q) by (change 1%Q with (inject_Z 1); rewrite <- Zle_Qle; lia).
  assert (H2 : (pow2 e <= pow2 K)%Q).
  { eapply Qle_trans; [|exact H]. rewrite <- (Qmult_1_l (pow2 e)) at 1.
    apply Qmult_le_compat_r; lra. }
  apply (Qpower_le_compat_l_inv 2); [exact H2 | reflexivity].
Qed.

Lemma SFmul_rounded (a b : spec_float) (K : Z) :
  is_finite a = true -> is_nonneg a = true ->
  is_finite b = true -> is_nonneg b = true ->
  (F2Q a <= pow2 K)%Q -> (F2Q b <= pow2 K)%Q ->
  2 * K + 2 <= emax - prec -> 2 <= emax ->
  is_finite (SFmul prec emax a b) = true /\
  is_nonneg (SFmul prec emax a b) = true /\
  rounded (F2Q a * F2Q b) (F2Q (SFmul prec emax a b)).
Proof.
  intros Hfa Hna Hfb Hnb Ha Hb HK Hemax.
  destruct (nonneg_cases a Hfa Hna) as [[sa ->] | (m1 & e1 & ->)];
    destruct (nonneg_cases b Hfb Hnb) as [[sb ->] | (m2 & e2 & ->)];
    try (cbn [SFmul is_finite is_nonneg F2Q];
         split; [reflexivity|]; split; [reflexivity|]; left; split; [ring | reflexivity]).
  pose proof (float_pos m1 e1) as P1. pose proof (float_pos m2 e2) as P2.
  pose proof (float_exp_le _ _ _ Ha) as E1. pose proof (float_exp_le _ _ _ Hb) as E2.
  pose proof (pow2_pos K) as HpK.
  assert (Hx : (0 < F2Q (S754_finite false m1 e1) * F2Q (S754_finite false m2 e2))%Q)
    by (apply Qmult_lt_0_compat; assumption).
  destruct (bitlen_exists _ Hx) as [L HL].
  assert (HLK : L <= 2 * K + 1).
  { apply (bitlen_le _ _ _ HL).
    replace (2 * K + 1) with (K + K + 1) by lia. rewrite pow2_succ, pow2_add.
    assert (H : (F2Q (S754_finite false m1 e1) * F2Q (S754_finite false m2 e2)
                 <= pow2 K * pow2 K)%Q) by (apply Qmult_le_compat_nonneg; split; lra).
    assert (0 < pow2 K * pow2 K)%Q by (apply Qmult_lt_0_compat; assumption). lra. }
  destruct (SFmul_value m1 m2 e1 e2 L HL) as (Hf & Hn & Hv).
  - rewrite fexp_spec. unfold SpecFloat.emin. lia.
  - split; [exact Hf|]. split; [exact Hn|]. right. exists L. split; [exact HL | exact Hv].
Qed.

Lemma SFdiv_rounded (a : spec_float) (m2 : positive) (e2 K : Z) :
  is_finite a = true -> is_nonneg a = true ->
  (F2Q a / F2Q (S754_finite false m2 e2) < pow2 K)%Q ->
  K + 1 <= emax -> 2 <= emax ->
  is_finite (SFdiv prec emax a (S754_finite false m2 e2)) = true /\
  is_nonneg (SFdiv prec emax a (S754_finite false m2 e2)) = true /\
  rounded (F2Q a / F2Q (S754_finite false m2 e2))
    (F2Q (SFdiv prec emax a (S754_finite false m2 e2))).
Proof.
  intros Hfa Hna Hx HK Hemax.
  pose proof (float_pos m2 e2) as P2.
  destruct (nonneg_cases a Hfa Hna) as [[sa ->] | (m1 & e1 & ->)].
  - cbn [SFdiv is_finite is_nonneg].
    split; [reflexivity|]. split; [reflexivity|]. left.
    split; [|reflexivity]. cbn [F2Q]. unfold Qdiv. ring.
  - pose proof (float_pos m1 e1) as P1.
    assert (Hq : (0 < F2Q (S754_finite false m1 e1) / F2Q (S754_finite false m2 e2))%Q).
    { apply Qlt_shift_div_l; [exact P2|]. rewrite Qmult_0_l. exact P1. }
    destruct (bitlen_exists _ Hq) as [L HL].
    pose proof (bitlen_le _ _ _ HL Hx) as HLK.
    destruct (SFdiv_value m1 m2 e1 e2 L HL) as (Hf & Hn & Hv).
    + rewrite fexp_spec. unfold SpecFloat.emin. lia.
    + split; [exact Hf|]. split; [exact Hn|]. right. exists L. split; [exact HL | exact Hv].
Qed.

Lemma SFadd_rounded (a b : spec_float) (K : Z) :
  is_finite a = true -> is_nonneg a = true ->
  is_finite b = true -> is_nonneg b = true ->
  (F2Q a + F2Q b < pow2 K)%Q ->
  K + 1 <= emax -> 2 <= emax ->
  is_finite (SFadd prec emax a b) = true /\
  is_nonneg (SFadd prec emax a b) = true /\
  (((F2Q a == 0 \/ F2Q b == 0) /\ F2Q (SFadd prec emax a b) == F2Q a + F2Q b)%Q \/
   rounded (F2Q a + F2Q b) (F2Q (SFadd prec emax a b))).
Proof.
  intros Hfa Hna Hfb Hnb Hx HK Hemax.
  destruct (nonneg_cases a Hfa Hna) as [[sa ->] | (m1 & e1 & ->)];
    destruct (nonneg_cases b Hfb Hnb) as [[sb ->] | (m2 & e2 & ->)].
  - destruct sa, sb; cbn [SFadd is_finite is_nonneg F2Q];
      (split; [reflexivity|]; split; [reflexivity|]; left;
       split; [left; reflexivity | ring]).
  - cbn [SFadd is_finite is_nonneg].
    split; [reflexivity|]. split; [reflexivity|]. left.
    split; [left; reflexivity | cbn [F2Q]; ring].
  - cbn [SFadd is_finite is_nonneg].
    split; [reflexivity|]. split; [reflexivity|]. left.
    split; [right; reflexivity | cbn [F2Q]; ring].
  - pose proof (float_pos m1 e1) as P1. pose proof (float_pos m2 e2) as P2.
    assert (Hs : (0 < F2Q (S754_finite false m1 e1) + F2Q (S754_finite false m2 e2))%Q) by lra.
    destruct (bitlen_exists _ Hs) as [L HL].
    pose proof (bitlen_le _ _ _ HL Hx) as HLK.
    destruct (SFadd_value m1 m2 e1 e2 L HL) as (Hf & Hn & Hv).
    + rewrite fexp_spec. unfold SpecFloat.emin. lia.
    + split; [exact Hf|]. split; [exact Hn|]. right. right.
      exists L. split; [exact HL | exact Hv].
Qed.

End Round.

End Rounding.

(** ** Arrays and wrap-around *)

Lemma UINT32_wrap_small (z : Z) : 0 <= z < 2 ^ 32 -> UINT32_wrap z = z.
Proof. intros Hz. unfold UINT32_wrap. apply Z.mod_small. exact Hz. Qed.

Lemma UINT8_wrap_small (z : Z) : 0 <= z < 2 ^ 8 -> UINT8_wrap z = z.
Proof. intros Hz. unfold UINT8_wrap. apply Z.mod_small. exact Hz. Qed.

Lemma flag_set_test (f : Z) : flag_set f -> (Z.land f 1 =? 0) = false.
Proof. unfold flag_set. intros Hf. apply Z.eqb_neq. exact Hf. Qed.

Lemma length_four (a : list Z) :
  length a = 4%nat -> exists a0 a1 a2 a3, a = [a0; a1; a2; a3].
Proof.
  intros Hlen.
  destruct a as [|a0 [|a1 [|a2 [|a3 [|a4 a]]]]]; try discriminate Hlen.
  exists a0, a1, a2, a3. reflexivity.
Qed.

Lemma array_get_four (a : list Z) (i : Z) :
  length a = 4%nat -> 0 <= i <= 3 -> exists v, array_get a i = Some v.
Proof.
  intros Hlen Hi. destruct (length_four a Hlen) as (a0 & a1 & a2 & a3 & ->).
  assert (Hcases : i = 0 \/ i = 1 \/ i = 2 \/ i = 3) by lia.
  destruct Hcases as [-> | [-> | [-> | ->]]]; eexists; reflexivity.
Qed.

(** ** Digits *)

Lemma mod_div_digit (v b c : Z) :
  0 < b -> 0 < c -> (v mod (b * c)) / b = (v / b) mod c.
Proof.
  intros Hb Hc. rewrite Z.rem_mul_r by lia.
  rewrite (Z.mul_comm b), Z.div_add by lia.
  rewrite Z.div_small by (apply Z.mod_pos_bound; lia). reflexivity.
Qed.

Lemma digits_of_spec (v : Z) :
  0 <= v -> digits_of v = [ v mod 10; (v mod 100) / 10; (v mod 1000) / 100; (v mod 10000) / 1000 ].
Proof.
  intros Hv. unfold digits_of.
  assert (H0 : 0 <= v mod 10 < 10) by (apply Z.mod_pos_bound; lia).
  assert (H1 : 0 <= v mod 100 < 100) by (apply Z.mod_pos_bound; lia).
  assert (H2 : 0 <= v mod 1000 < 1000) by (apply Z.mod_pos_bound; lia).
  assert (H3 : 0 <= v mod 10000 < 10000) by (apply Z.mod_pos_bound; lia).
  assert (D1 : 0 <= v mod 100 / 10 < 10)
    by (split; [apply Z.div_pos; lia | apply Z.div_lt_upper_bound; lia]).
  assert (D2 : 0 <= v mod 1000 / 100 < 10)
    by (split; [apply Z.div_pos; lia | apply Z.div_lt_upper_bound; lia]).
  assert (D3 : 0 <= v mod 10000 / 1000 < 10)
    by (split; [apply Z.div_pos; lia | apply Z.div_lt_upper_bound; lia]).
  rewrite !UINT32_wrap_small, !UINT8_wrap_small; try reflexivity;
    change (2 ^ 8) with 256; change (2 ^ 32) with 4294967296; lia.
Qed.

Lemma digits_of_are_digits (v : Z) : 0 <= v -> Forall is_digit (digits_of v).
Proof.
  intros Hv. rewrite digits_of_spec by exact Hv.
  assert (H0 : 0 <= v mod 10 < 10) by (apply Z.mod_pos_bound; lia).
  assert (H1 : 0 <= v mod 100 < 100) by (apply Z.mod_pos_bound; lia).
  assert (H2 : 0 <= v mod 1000 < 1000) by (apply Z.mod_pos_bound; lia).
  assert (H3 : 0 <= v mod 10000 < 10000) by (apply Z.mod_pos_bound; lia).
  unfold is_digit.
  repeat constructor; try lia;
    try (apply Z.div_pos; lia);
    try (apply Z.lt_succ_r; apply Z.div_lt_upper_bound; lia).
Qed.

Lemma map32_range (v in_lo in_hi out_lo out_hi : Z) :
  0 <= map32 v in_lo in_hi out_lo out_hi < 2 ^ 32.
Proof. unfold map32, UINT32_wrap. apply Z.mod_pos_bound. lia. Qed.

(** ** The handlers, for any float arithmetic *)

Section Handlers.

Context {F : Type} `{FloatOps F}.

Variable omega : F.

(** What one activation of the ADC interrupt does when its flag is up. *)
Lemma adc_handler_fired (s : state F) (intflag sample : Z) :
  flag_set intflag ->
  length (display_number s) = 4%nat ->
  adc_handler omega intflag sample s =
    Some ({| adc_raw := UINT32_wrap sample;
             adc_volt := map32 (UINT32_wrap sample) 0 0xFFFF 0 3300;
             x := of_Z (UINT32_wrap sample);
             y := lpf omega (y_prev s) (x_prev s);
             y_prev := lpf omega (y_prev s) (x_prev s);
             x_prev := of_Z (UINT32_wrap sample);
             display_number := digits_of (map32 (UINT32_wrap sample) 0 0xFFFF 0 3300);
             dig := dig s |},
          [write_to_dac
             (mapf (lpf omega (y_prev s) (x_prev s))
                (of_Z 0) (of_Z (native_max RESOLUTION)) (of_Z 0) (of_Z 1023));
           adc_intflag_set (Z.lor intflag 1)]).
Proof.
  intros Hf Hlen. unfold adc_handler. rewrite (flag_set_test _ Hf).
  destruct (length_four _ Hlen) as (a0 & a1 & a2 & a3 & ->).
  reflexivity.
Qed.

Lemma adc_handler_idle (s : state F) (intflag sample : Z) :
  ~ flag_set intflag -> adc_handler omega intflag sample s = Some (s, []).
Proof.
  unfold flag_set, adc_handler. intros Hf.
  destruct (Z.eqb_spec (Z.land intflag 1) 0) as [_ | Hne]; [reflexivity | tauto].
Qed.

Lemma display_handler_idle (s : state F) (intflag : Z) :
  ~ flag_set intflag -> display_handler intflag s = Some (s, []).
Proof.
  unfold flag_set, display_handler. intros Hf.
  destruct (Z.eqb_spec (Z.land intflag 1) 0) as [_ | Hne]; [reflexivity | tauto].
Qed.

Lemma flag_set_dec (f : Z) : {flag_set f} + {~ flag_set f}.
Proof.
  unfold flag_set. destruct (Z.eq_dec (Z.land f 1) 0) as [E | E].
  - right. intros Hne. apply Hne. exact E.
  - left. exact E.
Defined.

Lemma next_dig_cycle (d : Z) : 0 <= d <= 3 -> next_dig d = (d + 1) mod 4.
Proof.
  intros Hd. assert (Hc : d = 0 \/ d = 1 \/ d = 2 \/ d = 3) by lia.
  destruct Hc as [-> | [-> | [-> | ->]]]; reflexivity.
Qed.

Lemma next_dig_range (d : Z) : 0 <= d <= 3 -> 0 <= next_dig d <= 3.
Proof.
  intros Hd. rewrite next_dig_cycle by exact Hd.
  pose proof (Z.mod_pos_bound (d + 1) 4). lia.
Qed.

(** What one activation of the display interrupt does when its flag is up. *)
Lemma display_handler_fired (s : state F) (intflag : Z) :
  flag_set intflag ->
  0 <= dig s <= 3 ->
  length (display_number s) = 4%nat ->
  exists v,
    display_number s !! Z.to_nat (3 - dig s) = Some v /\
    display_handler intflag s =
      Some (set_dig s (next_dig (dig s)), [display_dig 0 v (dig s) false false]).
Proof.
  intros Hf Hd Hlen.
  destruct (array_get_four (display_number s) (3 - dig s) Hlen) as [v Hv]; [lia|].
  exists v. split.
  - unfold array_get in Hv. destruct (3 - dig s <? 0); [discriminate | exact Hv].
  - unfold display_handler. rewrite (flag_set_test _ Hf).
    change (DISPLAY_DIGIT_SIZE_MAX - 1 - dig s) with (3 - dig s).
    rewrite Hv. reflexivity.
Qed.

(** The display interrupt never writes the buffer. *)
Lemma display_handler_frame (s s' : state F) (intflag : Z) (evs : list (event F)) :
  display_handler intflag s = Some (s', evs) ->
  display_number s' = display_number s /\
  y_prev s' = y_prev s /\ x_prev s' = x_prev s.
Proof.
  unfold display_handler. destruct (Z.land intflag 1 =? 0).
  - intros [= <- _]. auto.
  - destruct (array_get _ _) as [v|]; [|discriminate].
    intros [= <- _]. auto.
Qed.

Lemma TC7_Handler_frame (s s' : state F) (intflag : Z) (evs : list (event F)) :
  TC7_Handler intflag s = Some (s', evs) -> display_number s' = display_number s.
Proof.
  unfold TC7_Handler. destruct (display_handler intflag s) as [[s1 e1]|] eqn:E;
    [|discriminate].
  intros [= <- _]. eapply display_handler_frame. exact E.
Qed.

Lemma fire_in_bounds (a : activation) (s : state F) :
  in_bounds s ->
  exists s' evs, fire omega a s = Some (s', evs) /\ in_bounds s' /\
    (digits_ok (display_number s) -> digits_ok (display_number s')).
Proof.
  intros [Hd Hlen]. destruct a as [f v | f]; cbn [fire].
  - unfold TC6_Handler. destruct (flag_set_dec f) as [Hf | Hf].
    + rewrite (adc_handler_fired s f v Hf Hlen). eexists _, _.
      split; [reflexivity|]. split; [split; [exact Hd | reflexivity]|].
      intros _. split; [reflexivity|]. apply digits_of_are_digits.
      apply map32_range.
    + rewrite (adc_handler_idle s f v Hf). eexists _, _.
      split; [reflexivity|]. split; [split; assumption | tauto].
  - unfold TC7_Handler. destruct (flag_set_dec f) as [Hf | Hf].
    + destruct (display_handler_fired s f Hf Hd Hlen) as (v & _ & ->).
      eexists _, _. split; [reflexivity|].
      split; [split; [apply next_dig_range; exact Hd | exact Hlen] | tauto].
    + rewrite (display_handler_idle s f Hf). eexists _, _.
      split; [reflexivity|]. split; [split; assumption | tauto].
Qed.

Lemma run_in_bounds (acts : list activation) (s : state F) :
  in_bounds s ->
  exists s' evs, run omega acts s = Some (s', evs) /\ in_bounds s' /\
    (digits_ok (display_number s) -> digits_ok (display_number s')).
Proof.
  revert s. induction acts as [|a rest IH]; intros s Hs.
  - exists s, []. split; [reflexivity|]. split; [exact Hs | tauto].
  - destruct (fire_in_bounds a s Hs) as (s1 & e1 & Hfire & Hs1 & Hdig1).
    destruct (IH s1 Hs1) as (s2 & e2 & Hrun & Hs2 & Hdig2).
    exists s2, (e1 ++ e2). cbn [run]. rewrite Hfire. cbn. rewrite Hrun. cbn.
    split; [reflexivity|]. split; [exact Hs2 | tauto].
Qed.

Lemma init_in_bounds : in_bounds (@init_state F _).
Proof. split; [cbn; lia | reflexivity]. Qed.

Lemma init_digits_ok : digits_ok (display_number (@init_state F _)).
Proof.
  split; [reflexivity|]. cbn. unfold is_digit. repeat constructor; lia.
Qed.

Lemma run_display_frame (flags : list Z) (s s' : state F) (evs : list (event F)) :
  run omega (display_tick <$> flags) s = Some (s', evs) ->
  display_number s' = display_number s.
Proof.
  revert s evs. induction flags as [|f rest IH]; intros s evs.
  - cbn. intros [= <- _]. reflexivity.
  - cbn [fmap list_fmap run fire].
    destruct (TC7_Handler f s) as [[s1 e1]|] eqn:E1; [|discriminate].
    cbn. destruct (run omega (display_tick <$> rest) s1) as [[s2 e2]|] eqn:E2;
      [|discriminate].
    cbn. intros [= <- _]. rewrite (IH _ _ E2). eapply TC7_Handler_frame. exact E1.
Qed.

(** ** The claims about the handlers *)

(** C1. One activation of the sampling interrupt computes
    [y = (1 - omega) * y_prev + omega * x_prev] from the previous output and
    the previous input, then stores the sample just read in [x_prev] and the
    new output in [y_prev]. The output, and with it everything the
    activation emits, is the same whatever sample is read; the sample shows
    in the output of the next activation. *)
Theorem C1_filter_uses_previous_input (s : state F) (intflag sample : Z) :
  flag_set intflag ->
  length (display_number s) = 4%nat ->
  0 <= sample < 2 ^ 32 ->
  exists s' evs,
    adc_handler omega intflag sample s = Some (s', evs) /\
    y s' = fadd (fmul (fsub (of_Z 1) omega) (y_prev s)) (fmul omega (x_prev s)) /\
    In (write_to_dac (mapf (y s') (of_Z 0) (of_Z 4095) (of_Z 0) (of_Z 1023))) evs /\
    x_prev s' = of_Z sample /\
    y_prev s' = y s' /\
    (forall sample', exists s'',
        adc_handler omega intflag sample' s = Some (s'', evs) /\ y s'' = y s') /\
    (forall intflag2 sample2, flag_set intflag2 -> exists s2 evs2,
        adc_handler omega intflag2 sample2 s' = Some (s2, evs2) /\
        y s2 = fadd (fmul (fsub (of_Z 1) omega) (y s')) (fmul omega (of_Z sample))).
Proof.
  intros Hf Hlen Hsample.
  eexists _, _. split; [apply adc_handler_fired; assumption|].
  cbn [y x_prev y_prev]. rewrite (UINT32_wrap_small sample Hsample).
  split; [reflexivity|]. split; [left; reflexivity|].
  split; [reflexivity|]. split; [reflexivity|]. split.
  - intros sample'. eexists. split; [apply adc_handler_fired; assumption|].
    reflexivity.
  - intros f2 v2 Hf2. eexists _, _.
    split; [apply adc_handler_fired; [exact Hf2 | reflexivity]|]. reflexivity.
Qed.

(** C4. A display activation with its flag up drives one digit: it reads
    the buffer at index [3 - dig], calls [display_dig] once, with that
    value, position [dig] and both flags off, and advances [dig] by one,
    from 3 back to 0; nothing else changes. *)
Theorem C4_display_drives_one_digit (s : state F) (intflag : Z) :
  flag_set intflag ->
  0 <= dig s <= 3 ->
  length (display_number s) = 4%nat ->
  exists v s',
    display_number s !! Z.to_nat (3 - dig s) = Some v /\
    display_handler intflag s = Some (s', [display_dig 0 v (dig s) false false]) /\
    dig s' = (if dig s =? 3 then 0 else dig s + 1) /\
    s' = set_dig s (dig s') /\
    driven_positions [display_dig (F:=F) 0 v (dig s) false false] = [dig s].
Proof.
  intros Hf Hd Hlen.
  destruct (display_handler_fired s intflag Hf Hd Hlen) as (v & Hv & Hstep).
  exists v, (set_dig s (next_dig (dig s))).
  split; [exact Hv|]. split; [exact Hstep|]. cbn [dig set_dig].
  split; [|split; reflexivity].
  assert (Hc : dig s = 0 \/ dig s = 1 \/ dig s = 2 \/ dig s = 3) by lia.
  destruct Hc as [-> | [-> | [-> | ->]]]; reflexivity.
Qed.
(** The display interrupt as the vector table enters it. *)
Lemma TC7_Handler_fired (s : state F) (intflag : Z) :
  flag_set intflag ->
  in_bounds s ->
  exists v,
    TC7_Handler intflag s =
      Some (set_dig s (next_dig (dig s)),
            [display_dig 0 v (dig s) false false; disp_intflag_set (Z.lor intflag 1)]).
Proof.
  intros Hf [Hd Hlen].
  destruct (display_handler_fired s intflag Hf Hd Hlen) as (v & _ & Hstep).
  exists v. unfold TC7_Handler. rewrite Hstep. reflexivity.
Qed.

Lemma set_dig_in_bounds (s : state F) (d : Z) :
  in_bounds s -> 0 <= d <= 3 -> in_bounds (set_dig s d).
Proof. intros [_ Hlen] Hd. split; [exact Hd | exact Hlen]. Qed.

(** C5. From any cursor value in 0..3, four display activations in a row
    drive each of the positions 0, 1, 2, 3 once, and bring the cursor
    back to where it started: four cursor advances are the identity. *)
Theorem C5_multiplex_covers_all_positions (s : state F) (f1 f2 f3 f4 : Z) :
  flag_set f1 -> flag_set f2 -> flag_set f3 -> flag_set f4 ->
  0 <= dig s <= 3 ->
  length (display_number s) = 4%nat ->
  exists s' evs,
    run omega [display_tick f1; display_tick f2; display_tick f3; display_tick f4] s
      = Some (s', evs) /\
    driven_positions evs ≡ₚ [0; 1; 2; 3] /\
    dig s' = dig s /\
    next_dig (next_dig (next_dig (next_dig (dig s)))) = dig s.
Proof.
  intros H1 H2 H3 H4 Hd Hlen.
  assert (B0 : in_bounds s) by (split; assumption).
  destruct (TC7_Handler_fired s f1 H1 B0) as [v1 E1].
  set (s1 := set_dig s (next_dig (dig s))) in *.
  assert (B1 : in_bounds s1) by (apply set_dig_in_bounds; [|apply next_dig_range]; assumption).
  destruct (TC7_Handler_fired s1 f2 H2 B1) as [v2 E2].
  set (s2 := set_dig s1 (next_dig (dig s1))) in *.
  assert (B2 : in_bounds s2) by (apply set_dig_in_bounds; [|apply next_dig_range]; apply B1).
  destruct (TC7_Handler_fired s2 f3 H3 B2) as [v3 E3].
  set (s3 := set_dig s2 (next_dig (dig s2))) in *.
  assert (B3 : in_bounds s3) by (apply set_dig_in_bounds; [|apply next_dig_range]; apply B2).
  destruct (TC7_Handler_fired s3 f4 H4 B3) as [v4 E4].
  eexists _, _. split.
  { cbn [run fire]. rewrite E1. cbn. rewrite E2. cbn. rewrite E3. cbn.
    rewrite E4. cbn. reflexivity. }
  cbn [driven_positions omap list_omap app]. subst s3 s2 s1. cbn [dig set_dig].
  assert (Hc : dig s = 0 \/ dig s = 1 \/ dig s = 2 \/ dig s = 3) by lia.
  destruct Hc as [-> | [-> | [-> | ->]]];
    (split; [|split; reflexivity]);
    change (next_dig 0) with 1; change (next_dig 1) with 2;
    change (next_dig 2) with 3; change (next_dig 3) with 0.
  - reflexivity.
  - exact (Permutation_app_comm [1; 2; 3] [0]).
  - exact (Permutation_app_comm [2; 3] [0; 1]).
  - exact (Permutation_app_comm [3] [0; 1; 2]).
Qed.

(** C6. For a value in 0..9999 the four digits the sampling interrupt
    stores, [v%10], [(v%100)/10], [(v%1000)/100], [(v%10000)/1000], are the
    digits [(v / 10^i) % 10], and [d0 + 10 d1 + 100 d2 + 1000 d3] gives the
    value back. *)
Theorem C6_digit_round_trip (v : Z) :
  0 <= v <= 9999 ->
  digits_of v = [ v mod 10; (v mod 100) / 10; (v mod 1000) / 100; (v mod 10000) / 1000 ] /\
  digits_of v = spec_digits v /\
  recombine (digits_of v) = v.
Proof.
  intros Hv.
  assert (E : digits_of v = spec_digits v).
  { rewrite digits_of_spec by lia. unfold spec_digits.
    change 100 with (10 * 10). change 1000 with (100 * 10).
    change 10000 with (1000 * 10). change (100 * 10 * 10) with (1000 * 10).
    rewrite !mod_div_digit by lia.
    reflexivity. }
  split; [apply digits_of_spec; lia|]. split; [exact E|].
  rewrite E. unfold spec_digits, recombine.
  assert (Hk : v / 10000 = 0) by (apply Z.div_small; lia).
  pose proof (Z.div_mod v 10). pose proof (Z.div_mod (v / 10) 10).
  pose proof (Z.div_mod (v / 100) 10). pose proof (Z.div_mod (v / 1000) 10).
  pose proof (Z.div_div v 10 10). pose proof (Z.div_div v 100 10).
  pose proof (Z.div_div v 1000 10).
  change (10 * 10) with 100 in *. change (100 * 10) with 1000 in *.
  change (1000 * 10) with 10000 in *. lia.
Qed.
(** C7. Whatever interrupts have run since reset, the buffer has four
    cells and each holds a digit 0..9: the initial cells do, the display
    interrupt leaves them alone, and a sampling activation, for any sample
    it reads, stores four values that are digits. *)
Theorem C7_buffer_cells_are_digits (acts : list activation) :
  digits_ok (display_number (@init_state F _)) /\
  exists s evs,
    run omega acts init_state = Some (s, evs) /\
    digits_ok (display_number s) /\
    (forall intflag sample, exists s' evs',
        adc_handler omega intflag sample s = Some (s', evs') /\
        digits_ok (display_number s') /\
        (flag_set intflag ->
         display_number s' = digits_of (adc_volt s') /\
         Forall is_digit (digits_of (adc_volt s')))) /\
    (forall intflag, exists s' evs',
        display_handler intflag s = Some (s', evs') /\
        display_number s' = display_number s).
Proof.
  split; [apply init_digits_ok|].
  destruct (run_in_bounds acts init_state init_in_bounds)
    as (s & evs & Hrun & [Hd Hlen] & Hdig).
  specialize (Hdig init_digits_ok).
  exists s, evs. split; [exact Hrun|]. split; [exact Hdig|]. split.
  - intros f v. destruct (flag_set_dec f) as [Hf | Hf].
    + rewrite (adc_handler_fired s f v Hf Hlen). eexists _, _.
      split; [reflexivity|]. cbn [display_number adc_volt].
      assert (Hds : Forall is_digit (digits_of (map32 (UINT32_wrap v) 0 0xFFFF 0 3300)))
        by (apply digits_of_are_digits; apply map32_range).
      split; [split; [reflexivity | exact Hds]|]. intros _. split; [reflexivity | exact Hds].
    + rewrite (adc_handler_idle s f v Hf). eexists _, _.
      split; [reflexivity|]. split; [exact Hdig | tauto].
  - intros f. destruct (flag_set_dec f) as [Hf | Hf].
    + destruct (display_handler_fired s f Hf Hd Hlen) as (v & _ & ->).
      eexists _, _. split; reflexivity.
    + rewrite (display_handler_idle s f Hf). eexists _, _. split; reflexivity.
Qed.

(** C9. At reset the buffer holds 1, 1, 1, 1, and display activations,
    however many and whatever their flags, leave the buffer as it was. *)
Theorem C9_display_never_writes_buffer
    (s s' : state F) (flags : list Z) (evs : list (event F)) :
  run omega (display_tick <$> flags) s = Some (s', evs) ->
  display_number s' = display_number s /\
  display_number (@init_state F _) = [1; 1; 1; 1].
Proof.
  intros Hrun. split; [|reflexivity].
  eapply run_display_frame. exact Hrun.
Qed.

(** C10. From reset, under any sequence of activations of the two
    interrupts, no array access leaves the buffer: the run never takes the
    out-of-bounds branch, the cursor stays in 0..3, the buffer keeps its
    four cells, the next read, at index [3 - dig], is inside 0..3, and the
    next sampling activation stores at indices 0 to 3 of a four-cell
    array. *)
Theorem C10_array_accesses_in_bounds (acts : list activation) :
  exists s evs,
    run omega acts (@init_state F _) = Some (s, evs) /\
    0 <= dig s <= 3 /\
    length (display_number s) = 4%nat /\
    0 <= DISPLAY_DIGIT_SIZE_MAX - 1 - dig s <= 3 /\
    is_Some (array_get (display_number s) (DISPLAY_DIGIT_SIZE_MAX - 1 - dig s)) /\
    (forall i v, 0 <= i <= 3 -> is_Some (array_set (display_number s) i v)) /\
    (forall a, is_Some (fire omega a s)).
Proof.
  destruct (run_in_bounds acts init_state init_in_bounds)
    as (s & evs & Hrun & [Hd Hlen] & _).
  exists s, evs. split; [exact Hrun|]. split; [exact Hd|]. split; [exact Hlen|].
  change (DISPLAY_DIGIT_SIZE_MAX - 1 - dig s) with (3 - dig s).
  split; [lia|]. split.
  - destruct (array_get_four (display_number s) (3 - dig s) Hlen) as [v Hv]; [lia|].
    exists v. exact Hv.
  - split.
    + intros i v Hi. unfold array_set. rewrite Hlen.
      destruct (Z.ltb_spec i 0) as [Hneg | _]; [lia|].
      destruct (Z.leb_spec (Z.of_nat 4) i) as [Hbig | _]; [lia|].
      eexists. reflexivity.
    + intros a. destruct (fire_in_bounds a s (conj Hd Hlen)) as (s1 & e1 & -> & _).
      eexists. reflexivity.
Qed.

(** C2 (as the code has it). With the 12-bit range selected, a sampling
    activation that reads the largest sample, 4095, stores 206 as the
    millivolt value and the digits 6, 0, 2, 0: the rescale divides by
    [0xFFFF], where the interpolation from [0, 4095] gives 3300. *)
Theorem C2_millivolt_of_full_scale (s : state F) (intflag : Z) :
  flag_set intflag ->
  length (display_number s) = 4%nat ->
  exists s' evs,
    adc_handler omega intflag (native_max RESOLUTION) s = Some (s', evs) /\
    adc_volt s' = 206 /\
    display_number s' = [6; 0; 2; 0] /\
    spec_millivolt RESOLUTION (native_max RESOLUTION) = 3300 /\
    adc_volt s' <> spec_millivolt RESOLUTION (native_max RESOLUTION).
Proof.
  intros Hf Hlen. eexists _, _.
  split; [apply adc_handler_fired; assumption|].
  cbn [adc_volt display_number].
  split; [reflexivity|]. split; [reflexivity|]. split; [reflexivity|].
  discriminate.
Qed.

(** The filter state after [n] sampling activations that all read the
    same sample is the filter run on its own. *)
Lemma run_adc_filter (n : nat) (s : state F) (intflag sample : Z) :
  flag_set intflag ->
  in_bounds s ->
  exists s' evs,
    run omega (repeat (adc_tick intflag sample) n) s = Some (s', evs) /\
    in_bounds s' /\
    (y_prev s', x_prev s') =
      filter_run omega n (y_prev s, x_prev s) (of_Z (UINT32_wrap sample)).
Proof.
  intros Hf. revert s. induction n as [|n IH]; intros s Hs.
  - exists s, []. split; [reflexivity|]. split; [exact Hs | reflexivity].
  - replace (repeat (adc_tick intflag sample) (S n))
      with (repeat (adc_tick intflag sample) n ++ [adc_tick intflag sample])
      by (symmetry; apply (repeat_cons n (adc_tick intflag sample))).
    destruct (IH s Hs) as (s1 & e1 & Hrun & [Hd1 Hlen1] & Hst).
    assert (Happ : forall l1 l2 (t : state F),
               run omega (l1 ++ l2) t =
               '(t1, v1) ← run omega l1 t; '(t2, v2) ← run omega l2 t1; Some (t2, v1 ++ v2)).
    { induction l1 as [|a l1 IHl]; intros l2 t.
      - cbn. destruct (run omega l2 t) as [[t2 v2]|]; reflexivity.
      - cbn [app run]. destruct (fire omega a t) as [[ta va]|]; [|reflexivity].
        cbn. rewrite IHl. destruct (run omega l1 ta) as [[t1 v1]|]; [|reflexivity].
        cbn. destruct (run omega l2 t1) as [[t2 v2]|]; [|reflexivity].
        cbn. rewrite app_assoc. reflexivity. }
    rewrite Happ, Hrun. cbn [run fire mbind option_bind]. unfold TC6_Handler.
    rewrite (adc_handler_fired s1 intflag sample Hf Hlen1). cbn.
    eexists _, _. split; [reflexivity|].
    split; [split; [exact Hd1 | reflexivity]|].
    cbn [y_prev x_prev filter_run]. unfold filter_step. rewrite <- Hst. reflexivity.
Qed.

End Handlers.

(** ** The recurrence in exact arithmetic *)

Module Exact.

Open Scope Q_scope.

Lemma omega_value : omega_exact == 0.628.
Proof. reflexivity. Qed.

Lemma lpf_value (yp xp : Q) :
  lpf (H:=exact) omega_exact yp xp == (1 - 0.628) * yp + 0.628 * xp.
Proof.
  unfold lpf. cbn [fadd fsub fmul of_Z exact]. rewrite omega_value.
  change (inject_Z 1) with 1. reflexivity.
Qed.

Lemma run_input (n : nat) (st : Q * Q) (c : Q) :
  snd (filter_run (H:=exact) omega_exact (S n) st c) = c.
Proof. reflexivity. Qed.

Lemma out_succ (n : nat) (st : Q * Q) (c : Q) :
  filter_out (H:=exact) omega_exact st c (S (S n)) ==
  (1 - 0.628) * filter_out (H:=exact) omega_exact st c (S n) + 0.628 * c.
Proof.
  unfold filter_out. cbn [filter_run filter_step fst snd].
  apply lpf_value.
Qed.

Lemma error_ratio (n : nat) (st : Q * Q) (c : Q) :
  filter_out (H:=exact) omega_exact st c (S (S n)) - c ==
  (1 - 0.628) * (filter_out (H:=exact) omega_exact st c (S n) - c).
Proof. rewrite out_succ. ring. Qed.

Lemma error_abs_ratio (n : nat) (st : Q * Q) (c : Q) :
  Qabs (filter_out (H:=exact) omega_exact st c (S (S n)) - c) ==
  (1 - 0.628) * Qabs (filter_out (H:=exact) omega_exact st c (S n) - c).
Proof.
  rewrite error_ratio, Qabs_Qmult.
  rewrite (Qabs_pos (1 - 0.628)) by (vm_compute; discriminate). reflexivity.
Qed.

(** The error after [n + 1] steps, against the error after the first. *)
Lemma error_bound (n : nat) (st : Q * Q) (c : Q) :
  inject_Z (Z.of_nat n + 1) *
    Qabs (filter_out (H:=exact) omega_exact st c (S n) - c)
  <= Qabs (filter_out (H:=exact) omega_exact st c 1 - c).
Proof.
  induction n as [|n IH].
  - change (inject_Z (Z.of_nat 0 + 1)) with 1. rewrite Qmult_1_l. apply Qle_refl.
  - rewrite error_abs_ratio.
    set (e := Qabs (filter_out (H:=exact) omega_exact st c (S n) - c)) in *.
    set (C := Qabs (filter_out (H:=exact) omega_exact st c 1 - c)) in *.
    assert (He : 0 <= e) by apply Qabs_nonneg.
    replace (Z.of_nat (S n) + 1)%Z with ((Z.of_nat n + 1) + 1)%Z by lia.
    rewrite inject_Z_plus. change (inject_Z 1) with 1.
    set (a := inject_Z (Z.of_nat n + 1)) in *.
    assert (Ha : 1 <= a).
    { unfold a. change 1 with (inject_Z 1). rewrite <- Zle_Qle. lia. }
    assert (Hae : e <= a * e) by nra.
    nra.
Qed.

Lemma converges (st : Q * Q) (c : Q) :
  converges_to (filter_out (H:=exact) omega_exact st c) c.
Proof.
  intros eps Heps.
  set (C := Qabs (filter_out (H:=exact) omega_exact st c 1 - c)).
  assert (HC : 0 <= C) by apply Qabs_nonneg.
  exists (S (Z.to_nat (Qceiling (C / eps)))). intros n Hn.
  destruct n as [|n]; [lia|].
  pose proof (error_bound n st c) as Hb. fold C in Hb.
  set (e := Qabs (filter_out (H:=exact) omega_exact st c (S n) - c)) in *.
  assert (He : 0 <= e) by apply Qabs_nonneg.
  assert (Hceil : C / eps <= inject_Z (Z.of_nat n)).
  { eapply Qle_trans; [apply Qle_ceiling|]. rewrite <- Zle_Qle. lia. }
  assert (HCe : C <= inject_Z (Z.of_nat n) * eps).
  { apply (Qmult_le_compat_r _ _ eps) in Hceil; [|lra].
    assert (E : C / eps * eps == C) by (field; lra).
    rewrite E in Hceil. exact Hceil. }
  rewrite inject_Z_plus in Hb. change (inject_Z 1) with 1 in Hb.
  set (a := inject_Z (Z.of_nat n)) in *.
  assert (Ha : 0 <= a).
  { unfold a. change 0 with (inject_Z 0). rewrite <- Zle_Qle. lia. }
  apply Qnot_le_lt. intros Hle.
  assert (Hae : a * eps <= a * e) by nra.
  nra.
Qed.

End Exact.

(** ** The recurrence in single precision *)

Section FixedPoint.

Context {F : Type} `{FloatOps F}.

Variable omega : F.

Lemma filter_out_unfold (n : nat) (st : F * F) (c : F) :
  filter_out omega st c n = fst (filter_run omega n st c).
Proof. reflexivity. Qed.

Lemma filter_run_add (n m : nat) (st : F * F) (c : F) :
  filter_run omega (m + n) st c = filter_run omega m (filter_run omega n st c) c.
Proof.
  induction m as [|m IH]; [reflexivity|].
  cbn [Nat.add filter_run]. rewrite IH. reflexivity.
Qed.

Lemma filter_run_fixed (n : nat) (st : F * F) (c : F) :
  filter_step omega st c = st -> filter_run omega n st c = st.
Proof.
  intros Hfix. induction n as [|n IH]; [reflexivity|].
  cbn [filter_run]. rewrite IH. exact Hfix.
Qed.

(** Once the state is a fixed point, every later output is the same. *)
Lemma filter_out_settled (n0 n : nat) (st : F * F) (c : F) :
  filter_step omega (filter_run omega n0 st c) c = filter_run omega n0 st c ->
  (n0 <= n)%nat ->
  filter_out omega st c n = filter_out omega st c n0.
Proof.
  intros Hfix Hn. unfold filter_out.
  replace n with ((n - n0) + n0)%nat by lia.
  rewrite filter_run_add, filter_run_fixed by exact Hfix. reflexivity.
Qed.

End FixedPoint.

Module SingleFacts.

Import Single.

Lemma eqb_eq (a b : spec_float) : eqb a b = true -> a = b.
Proof.
  destruct a as [s | s | | s m e], b as [s' | s' | | s' m' e']; cbn;
    try discriminate; try reflexivity.
  - intros E. apply Bool.eqb_prop in E. subst. reflexivity.
  - intros E. apply Bool.eqb_prop in E. subst. reflexivity.
  - intros E. apply andb_prop in E. destruct E as [E E3].
    apply andb_prop in E. destruct E as [E1 E2].
    apply Bool.eqb_prop in E1. apply Pos.eqb_eq in E2. apply Z.eqb_eq in E3.
    subst. reflexivity.
Qed.

Lemma omega32_value : omega32 = S754_finite false 10536092 (-24).
Proof. vm_compute. reflexivity. Qed.

Lemma samples_below_In (n : nat) (k : Z) :
  0 <= k < Z.of_nat n -> In k (samples_below n).
Proof.
  intros Hk. unfold samples_below. apply in_map_iff.
  exists (Z.to_nat k). split; [lia|]. apply in_seq. lia.
Qed.

Lemma all_samples_settle :
  forallb (fun k => settled_at k (run32 20 reset (of_Z32 k))) (samples_below 4096) = true.
Proof. vm_compute. reflexivity. Qed.

Lemma sample_settles (k : Z) :
  0 <= k <= 4095 -> settled_at k (run32 20 reset (of_Z32 k)) = true.
Proof.
  intros Hk. pose proof all_samples_settle as Hall.
  rewrite forallb_forall in Hall.
  exact (Hall k (samples_below_In 4096 k ltac:(lia))).
Qed.

Lemma settled_at_spec (k : Z) (st : spec_float * spec_float) :
  settled_at k st = true ->
  step32 st (of_Z32 k) = st /\
  IEEE.is_finite (fst st) = true /\
  (inject_Z k - (1 # 4096) <= IEEE.F2Q (fst st) <= inject_Z k)%Q.
Proof.
  unfold settled_at. intros Hs.
  apply andb_prop in Hs. destruct Hs as [Hs Hhi].
  apply andb_prop in Hs. destruct Hs as [Hs Hlo].
  apply andb_prop in Hs. destruct Hs as [Hs Hfin].
  apply andb_prop in Hs. destruct Hs as [Hy Hx].
  apply eqb_eq in Hy. apply eqb_eq in Hx.
  apply Qle_bool_iff in Hhi. apply Qle_bool_iff in Hlo.
  split; [|split; [exact Hfin | split; assumption]].
  rewrite (surjective_pairing (step32 st (of_Z32 k))), Hy, Hx.
  symmetry. apply surjective_pairing.
Qed.

(** From reset, on any constant sample of the 12-bit range, every output
    from the 20th on is the same finite number, in [k - 2^-12, k]. *)
Lemma settled_output (k : Z) (n : nat) :
  0 <= k <= 4095 -> (20 <= n)%nat ->
  out32 reset (of_Z32 k) n = out32 reset (of_Z32 k) 20 /\
  IEEE.is_finite (out32 reset (of_Z32 k) n) = true /\
  (inject_Z k - (1 # 4096) <= IEEE.F2Q (out32 reset (of_Z32 k) n) <= inject_Z k)%Q.
Proof.
  intros Hk Hn.
  destruct (settled_at_spec k _ (sample_settles k Hk)) as (Hfix & Hfin & Hb).
  pose proof (filter_out_settled omega32 20 n reset (of_Z32 k) Hfix Hn) as E.
  split; [exact E|]. rewrite E, filter_out_unfold.
  split; [exact Hfin | exact Hb].
Qed.

(** The scenario: constant sample 2048 from reset. *)
Lemma scenario_first : out32 reset (of_Z32 2048) 1 = S754_zero false.
Proof. vm_compute. reflexivity. Qed.

Lemma scenario_second :
  out32 reset (of_Z32 2048) 2 = @fmul _ binary32 omega32 (of_Z32 2048).
Proof. vm_compute. reflexivity. Qed.

Lemma scenario_settled (n : nat) :
  (18 <= n)%nat -> out32 reset (of_Z32 2048) n = of_Z32 2048.
Proof.
  intros Hn.
  rewrite (filter_out_settled omega32 18 n) by (try exact Hn; vm_compute; reflexivity).
  vm_compute. reflexivity.
Qed.

(** The constant sample 4094 from reset: the output stays one unit in the
    last place below the input. *)
Lemma stuck_below_4094 (n : nat) :
  (20 <= n)%nat ->
  out32 reset (of_Z32 4094) n = S754_finite false 16769023 (-12).
Proof.
  intros Hn.
  rewrite (filter_out_settled omega32 20 n) by (try exact Hn; vm_compute; reflexivity).
  vm_compute. reflexivity.
Qed.

End SingleFacts.

(** ** The two rescales *)

Module Rescale.

Import Single.

Lemma millivolt_value (raw : Z) :
  0 <= raw <= 0xFFFF -> millivolt raw = raw * 3300 / 65535.
Proof.
  intros Hraw. unfold millivolt, map32.
  replace (raw - 0) with raw by lia.
  change (UINT32_wrap (3300 - 0)) with 3300.
  change (UINT32_wrap (65535 - 0)) with 65535.
  assert (Hq : 0 <= raw * 3300 / 65535 <= 3300).
  { split; [apply Z.div_pos; lia|]. apply Z.div_le_upper_bound; lia. }
  rewrite (UINT32_wrap_small raw) by (change (2 ^ 32) with 4294967296; lia).
  rewrite (UINT32_wrap_small (raw * 3300)) by (change (2 ^ 32) with 4294967296; lia).
  rewrite (UINT32_wrap_small (raw * 3300 / 65535))
    by (change (2 ^ 32) with 4294967296; lia).
  rewrite Z.add_0_l. apply UINT32_wrap_small. change (2 ^ 32) with 4294967296. lia.
Qed.

Lemma millivolt_monotone (a b : Z) :
  0 <= a <= b -> b <= 0xFFFF -> millivolt a <= millivolt b.
Proof.
  intros Hab Hb. rewrite !millivolt_value by lia.
  apply Z.div_le_mono; lia.
Qed.

Lemma dac_exact_value (p : Q) :
  (dac_scale (H:=exact) p == p * (1023 # 4095))%Q.
Proof.
  unfold dac_scale, mapf. cbn [fadd fsub fmul fdiv of_Z exact].
  change (inject_Z (native_max RESOLUTION)) with (4095 # 1)%Q.
  change (inject_Z 0) with 0%Q. change (inject_Z 1023) with (1023 # 1)%Q.
  field.
Qed.

Lemma dac_exact_monotone (p q : Q) :
  (p <= q -> dac_scale (H:=exact) p <= dac_scale (H:=exact) q)%Q.
Proof. intros Hpq. rewrite !dac_exact_value. lra. Qed.

Lemma dac_steps_ordered :
  forallb (fun k => Qle_bool (dac_value k) (dac_value (k + 1))) (samples_below 4095) = true.
Proof. vm_compute. reflexivity. Qed.

Lemma dac_step (k : Z) : 0 <= k <= 4094 -> (dac_value k <= dac_value (k + 1))%Q.
Proof.
  intros Hk. pose proof dac_steps_ordered as Hall.
  rewrite forallb_forall in Hall.
  apply Qle_bool_iff.
  exact (Hall k (SingleFacts.samples_below_In 4095 k ltac:(lia))).
Qed.

Lemma dac_value_monotone (a b : Z) :
  0 <= a <= b -> b <= 4095 -> (dac_value a <= dac_value b)%Q.
Proof.
  intros Hab Hb.
  replace b with (a + Z.of_nat (Z.to_nat (b - a))) in * by lia.
  induction (Z.to_nat (b - a)) as [|d IH].
  - rewrite Z.add_0_r. apply Qle_refl.
  - eapply Qle_trans; [apply IH; lia|].
    replace (a + Z.of_nat (S d)) with (a + Z.of_nat d + 1) by lia.
    apply dac_step. lia.
Qed.

End Rescale.

(** ** The claim about the rescales *)

(** C8. Both rescales of the sampling interrupt are non-decreasing: the
    millivolt value of a raw sample, over the native range of either
    resolution, and the DAC value of the filter output, in exact
    arithmetic for any two values, and in single precision for the integer
    values of the 12-bit range. *)
Theorem C8_rescales_are_monotone (a b : Z) (p q : Q) :
  0 <= a <= b ->
  b <= native_max 16 ->
  (p <= q)%Q ->
  millivolt a <= millivolt b /\
  (dac_scale (H:=exact) p <= dac_scale (H:=exact) q)%Q /\
  (b <= native_max RESOLUTION ->
   (IEEE.F2Q (dac_scale (H:=binary32) (@of_Z _ binary32 a))
      <= IEEE.F2Q (dac_scale (H:=binary32) (@of_Z _ binary32 b)))%Q).
Proof.
  intros Hab Hb Hpq.
  split; [apply Rescale.millivolt_monotone; assumption|].
  split; [apply Rescale.dac_exact_monotone; assumption|].
  intros Hb12. apply Rescale.dac_value_monotone; [exact Hab | exact Hb12].
Qed.

(** ** The claims at concrete inputs, on the single-precision firmware *)

Lemma flag_set_1 : flag_set 1.
Proof. unfold flag_set. cbn. discriminate. Defined.

Lemma C1_witness :
  flag_set 1 /\
  length (display_number Single.init32) = 4%nat /\
  0 <= 2048 < 2 ^ 32 /\
  exists s' evs,
    adc_handler (H:=binary32) omega32 1 2048 Single.init32 = Some (s', evs) /\
    x_prev s' = Single.of_Z32 2048 /\
    y_prev s' = y s'.
Proof.
  assert (Hs : 0 <= 2048 < 2 ^ 32) by (cbn; lia).
  split; [exact flag_set_1|]. split; [reflexivity|]. split; [exact Hs|].
  destruct (C1_filter_uses_previous_input (H:=binary32) omega32 Single.init32 1 2048
              flag_set_1 eq_refl Hs) as (s' & evs & E & _ & _ & Hx & Hy & _).
  exists s', evs. split; [exact E|]. split; [exact Hx | exact Hy].
Defined.

Lemma C2_witness :
  flag_set 1 /\
  length (display_number Single.init32) = 4%nat /\
  exists s' evs,
    adc_handler (H:=binary32) omega32 1 4095 Single.init32 = Some (s', evs) /\
    adc_volt s' = 206 /\
    display_number s' = [6; 0; 2; 0].
Proof.
  split; [exact flag_set_1|]. split; [reflexivity|].
  destruct (C2_millivolt_of_full_scale (H:=binary32) omega32 Single.init32 1
              flag_set_1 eq_refl) as (s' & evs & E & Hv & Hd & _).
  exists s', evs. split; [exact E|]. split; [exact Hv | exact Hd].
Defined.

Lemma C4_witness :
  flag_set 1 /\
  0 <= dig Single.init32 <= 3 /\
  length (display_number Single.init32) = 4%nat /\
  exists s',
    display_handler 1 Single.init32 = Some (s', [display_dig 0 1 0 false false]) /\
    dig s' = 1.
Proof.
  assert (Hd : 0 <= dig Single.init32 <= 3) by (cbn; lia).
  split; [exact flag_set_1|]. split; [exact Hd|]. split; [reflexivity|].
  destruct (C4_display_drives_one_digit Single.init32 1 flag_set_1 Hd eq_refl)
    as (v & s' & Hv & E & Hdig & _).
  exists s'. injection Hv as <-. split; [exact E | exact Hdig].
Defined.

Lemma C5_witness :
  flag_set 1 /\
  0 <= dig Single.init32 <= 3 /\
  length (display_number Single.init32) = 4%nat /\
  exists s' evs,
    run (H:=binary32) omega32
      [display_tick 1; display_tick 1; display_tick 1; display_tick 1]
      Single.init32 = Some (s', evs) /\
    driven_positions evs ≡ₚ [0; 1; 2; 3] /\
    dig s' = 0.
Proof.
  assert (Hd : 0 <= dig Single.init32 <= 3) by (cbn; lia).
  split; [exact flag_set_1|]. split; [exact Hd|]. split; [reflexivity|].
  destruct (C5_multiplex_covers_all_positions (H:=binary32) omega32 Single.init32
              1 1 1 1 flag_set_1 flag_set_1 flag_set_1 flag_set_1 Hd eq_refl)
    as (s' & evs & E & Hp & Hdig & _).
  exists s', evs. split; [exact E|]. split; [exact Hp | exact Hdig].
Defined.

Lemma C6_witness :
  0 <= 3300 <= 9999 /\
  digits_of 3300 = [0; 0; 3; 3] /\
  recombine (digits_of 3300) = 3300.
Proof.
  assert (Hv : 0 <= 3300 <= 9999) by lia.
  split; [exact Hv|].
  destruct (C6_digit_round_trip 3300 Hv) as (E & _ & Hr).
  split; [exact E | exact Hr].
Defined.

Lemma C7_witness :
  exists s evs,
    run (H:=binary32) omega32 [adc_tick 1 4095; display_tick 1] Single.init32
      = Some (s, evs) /\
    digits_ok (display_number s).
Proof.
  destruct (C7_buffer_cells_are_digits (H:=binary32) omega32
              [adc_tick 1 4095; display_tick 1])
    as (_ & s & evs & E & Hok & _).
  exists s, evs. split; [exact E | exact Hok].
Defined.

Lemma C8_witness :
  0 <= 100 <= 200 /\
  200 <= native_max 16 /\
  (1 <= 2)%Q /\
  millivolt 100 <= millivolt 200 /\
  (dac_scale (H:=exact) 1 <= dac_scale (H:=exact) 2)%Q /\
  (IEEE.F2Q (dac_scale (H:=binary32) (Single.of_Z32 100))
     <= IEEE.F2Q (dac_scale (H:=binary32) (Single.of_Z32 200)))%Q.
Proof.
  assert (Hab : 0 <= 100 <= 200) by lia.
  assert (Hb : 200 <= native_max 16) by (cbn; lia).
  assert (Hpq : (1 <= 2)%Q) by (unfold Qle; cbn; lia).
  split; [exact Hab|]. split; [exact Hb|]. split; [exact Hpq|].
  destruct (C8_rescales_are_monotone 100 200 1%Q 2%Q Hab Hb Hpq) as (Hm & He & Hs).
  split; [exact Hm|]. split; [exact He|]. apply Hs. cbn. lia.
Defined.

Lemma C9_witness :
  exists s' evs,
    run (H:=binary32) omega32 (display_tick <$> [1; 0; 1]) Single.init32
      = Some (s', evs) /\
    display_number s' = display_number Single.init32.
Proof.
  destruct (run_in_bounds (H:=binary32) omega32 (display_tick <$> [1; 0; 1])
              Single.init32 init_in_bounds)
    as (s' & evs & E & _).
  exists s', evs. split; [exact E|].
  exact (proj1 (C9_display_never_writes_buffer (H:=binary32) omega32
                  Single.init32 s' [1; 0; 1] evs E)).
Defined.

Lemma C10_witness :
  exists s evs,
    run (H:=binary32) omega32
      [display_tick 1; adc_tick 1 4095; display_tick 1; display_tick 3] Single.init32
      = Some (s, evs) /\
    0 <= dig s <= 3 /\
    is_Some (array_get (display_number s) (DISPLAY_DIGIT_SIZE_MAX - 1 - dig s)).
Proof.
  destruct (C10_array_accesses_in_bounds (H:=binary32) omega32
              [display_tick 1; adc_tick 1 4095; display_tick 1; display_tick 3])
    as (s & evs & E & Hd & _ & _ & Hget & _).
  exists s, evs. split; [exact E|]. split; [exact Hd | exact Hget].
Defined.

(** ** The single-precision rescale and filter step, on exact values *)

Module SingleRounding.

Import IEEE Rounding Single.

Local Abbreviation rounded32 := (rounded 24 128).

Lemma zero32 : ieee_of_Z 24 128 0 = S754_zero false.
Proof. reflexivity. Qed.

Lemma c1023 :
  SFsub 24 128 (ieee_of_Z 24 128 1023) (S754_zero false) = S754_finite false 16760832 (-14).
Proof. vm_compute. reflexivity. Qed.

Lemma c4095 :
  SFsub 24 128 (ieee_of_Z 24 128 4095) (S754_zero false) = S754_finite false 16773120 (-12).
Proof. vm_compute. reflexivity. Qed.

Lemma one_minus_omega32 :
  SFsub 24 128 (ieee_of_Z 24 128 1) omega32 = S754_finite false 12482248 (-25).
Proof. vm_compute. reflexivity. Qed.

Lemma SFsub_zero (v : spec_float) :
  is_finite v = true -> is_nonneg v = true ->
  is_finite (SFsub 24 128 v (S754_zero false)) = true /\
  is_nonneg (SFsub 24 128 v (S754_zero false)) = true /\
  F2Q (SFsub 24 128 v (S754_zero false)) = F2Q v.
Proof.
  intros Hf Hn. destruct (nonneg_cases v Hf Hn) as [[s ->] | (m & e & ->)].
  - destruct s; cbn; auto.
  - cbn. auto.
Qed.

Lemma SFadd_zero (v : spec_float) :
  is_finite v = true -> is_nonneg v = true ->
  is_finite (SFadd 24 128 (S754_zero false) v) = true /\
  is_nonneg (SFadd 24 128 (S754_zero false) v) = true /\
  F2Q (SFadd 24 128 (S754_zero false) v) = F2Q v.
Proof.
  intros Hf Hn. destruct (nonneg_cases v Hf Hn) as [[s ->] | (m & e & ->)].
  - destruct s; cbn; auto.
  - cbn. auto.
Qed.

Lemma pow2_13 : (pow2 13 == 8192)%Q.
Proof. reflexivity. Qed.

(** The DAC rescale of a value [v] of the 12-bit range is two roundings:
    of [v * 1023], then of the quotient by 4095. *)
Lemma dac32_rounded (v : spec_float) :
  is_finite v = true -> is_nonneg v = true -> (F2Q v <= 4095)%Q ->
  is_finite (dac32 v) = true /\
  is_nonneg (dac32 v) = true /\
  exists t : Q,
    rounded32 (F2Q v * 1023) t /\ rounded32 (t / 4095) (F2Q (dac32 v)).
Proof.
  intros Hf Hn Hv. unfold dac_scale, mapf.
  cbn [fadd fsub fmul fdiv of_Z binary32 ieee_ops].
  change (native_max RESOLUTION) with 4095.
  rewrite zero32, c1023, c4095.
  destruct (SFsub_zero v Hf Hn) as (Hf0 & Hn0 & Ev0).
  set (v0 := SFsub 24 128 v (S754_zero false)) in *.
  destruct (SFmul_rounded 24 128 ltac:(lia) v0 (S754_finite false 16760832 (-14)) 13
              Hf0 Hn0 eq_refl eq_refl) as (Hft & Hnt & Ht).
  { rewrite Ev0, pow2_13. lra. }
  { vm_compute. discriminate. }
  { lia. }
  { lia. }
  set (t := SFmul 24 128 v0 (S754_finite false 16760832 (-14))) in *.
  assert (E1023 : (F2Q (S754_finite false 16760832 (-14)) == 1023)%Q) by reflexivity.
  rewrite Ev0 in Ht.
  assert (Ht' : rounded32 (F2Q v * 1023) (F2Q t)).
  { eapply rounded_comp; [| reflexivity | exact Ht]. rewrite E1023. reflexivity. }
  assert (Htb : (F2Q t <= 4194304)%Q).
  { destruct (rounded_nonneg 24 128 _ _ Ht') as [Hx0 Ht0].
    assert (Hx : (F2Q v * 1023 < pow2 23)%Q).
    { change (pow2 23) with 8388608%Q. lra. }
    pose proof (rounded_error 24 128 _ _ 23 Ht' Hx) as Herr.
    change (pow2 (fexp 24 128 23) / 2)%Q with (1 # 4)%Q in Herr.
    apply Qabs_Qle_condition in Herr. lra. }
  destruct (SFdiv_rounded 24 128 ltac:(lia) t 16773120 (-12) 11 Hft Hnt)
    as (Hfu & Hnu & Hu).
  { assert (E4095 : (F2Q (S754_finite false 16773120 (-12)) == 4095)%Q) by reflexivity.
    rewrite E4095. change (pow2 11) with 2048%Q.
    destruct (rounded_nonneg 24 128 _ _ Ht') as [_ Ht0].
    apply Qlt_shift_div_r; [reflexivity|]. lra. }
  { lia. }
  { lia. }
  set (u := SFdiv 24 128 t (S754_finite false 16773120 (-12))) in *.
  destruct (SFadd_zero u Hfu Hnu) as (Hfr & Hnr & Er).
  split; [exact Hfr|]. split; [exact Hnr|].
  exists (F2Q t). split; [exact Ht'|]. rewrite Er.
  eapply rounded_comp; [| reflexivity | exact Hu].
  assert (E4095 : (F2Q (S754_finite false 16773120 (-12)) == 4095)%Q) by reflexivity.
  rewrite E4095. reflexivity.
Qed.

Lemma dac32_monotone (v1 v2 : spec_float) :
  is_finite v1 = true -> is_nonneg v1 = true ->
  is_finite v2 = true -> is_nonneg v2 = true ->
  (F2Q v1 <= F2Q v2)%Q -> (F2Q v2 <= 4095)%Q ->
  (F2Q (dac32 v1) <= F2Q (dac32 v2))%Q.
Proof.
  intros Hf1 Hn1 Hf2 Hn2 H12 H2.
  destruct (dac32_rounded v1 Hf1 Hn1 ltac:(lra)) as (_ & _ & t1 & Ht1 & Hu1).
  destruct (dac32_rounded v2 Hf2 Hn2 H2) as (_ & _ & t2 & Ht2 & Hu2).
  assert (Ht : (t1 <= t2)%Q).
  { eapply (rounded_mono 24 128 ltac:(lia)); [exact Ht1 | exact Ht2 |]. lra. }
  eapply (rounded_mono 24 128 ltac:(lia)); [exact Hu1 | exact Hu2 |].
  apply Qmult_le_compat_r; [exact Ht | discriminate].
Qed.

(** The two coefficients of the recurrence, as rationals: they add up
    to one. *)
Lemma coefficients_value :
  (F2Q (S754_finite false 12482248 (-25)) == 1560281 # 4194304)%Q /\
  (F2Q omega32 == 2634023 # 4194304)%Q /\
  (F2Q (S754_finite false 12482248 (-25)) + F2Q omega32 == 1)%Q.
Proof. split; [| split]; vm_compute; reflexivity. Qed.

(** One filter step in single precision: the exact recurrence, up to
    three roundings. *)
Lemma lpf32_step (yp xp : spec_float) :
  is_finite yp = true -> is_nonneg yp = true -> (F2Q yp <= 4095)%Q ->
  is_finite xp = true -> is_nonneg xp = true -> (F2Q xp <= 4095)%Q ->
  is_finite (lpf (H:=binary32) omega32 yp xp) = true /\
  is_nonneg (lpf (H:=binary32) omega32 yp xp) = true /\
  (F2Q (lpf (H:=binary32) omega32 yp xp) <= 4095)%Q /\
  (Qabs (F2Q (lpf (H:=binary32) omega32 yp xp)
         - ((1 - F2Q omega32) * F2Q yp + F2Q omega32 * F2Q xp)) <= 5 # 16384)%Q.
Proof.
  intros Hfy Hny Hy Hfx Hnx Hx. unfold lpf.
  cbn [fadd fsub fmul of_Z binary32 ieee_ops].
  rewrite one_minus_omega32.
  destruct coefficients_value as (EA & EW & E1).
  assert (EW1 : (1 - F2Q omega32 == 1560281 # 4194304)%Q) by (rewrite EW; reflexivity).
  rewrite EW1, EW.
  rewrite SingleFacts.omega32_value.
  destruct (rounded_nonneg 24 128 0 0 (or_introl (conj (Qeq_refl 0) (Qeq_refl 0)))) as [_ _].
  (* first product *)
  destruct (SFmul_rounded 24 128 ltac:(lia) (S754_finite false 12482248 (-25)) yp 13
              eq_refl eq_refl Hfy Hny) as (Hf1 & Hn1 & R1).
  { vm_compute. discriminate. }
  { rewrite pow2_13. lra. }
  { lia. }
  { lia. }
  set (p1 := SFmul 24 128 (S754_finite false 12482248 (-25)) yp) in *.
  apply (rounded_comp 24 128 _ ((1560281 # 4194304) * F2Q yp)%Q _ (F2Q p1)) in R1;
    [| rewrite EA; reflexivity | reflexivity].
  (* second product *)
  destruct (SFmul_rounded 24 128 ltac:(lia) (S754_finite false 10536092 (-24)) xp 13
              eq_refl eq_refl Hfx Hnx) as (Hf2 & Hn2 & R2).
  { vm_compute. discriminate. }
  { rewrite pow2_13. lra. }
  { lia. }
  { lia. }
  set (p2 := SFmul 24 128 (S754_finite false 10536092 (-24)) xp) in *.
  assert (EW' : (F2Q (S754_finite false 10536092 (-24)) == 2634023 # 4194304)%Q)
    by (vm_compute; reflexivity).
  apply (rounded_comp 24 128 _ ((2634023 # 4194304) * F2Q xp)%Q _ (F2Q p2)) in R2;
    [| rewrite EW'; reflexivity | reflexivity].
  destruct (rounded_nonneg 24 128 _ _ R1) as [X1 P1].
  destruct (rounded_nonneg 24 128 _ _ R2) as [X2 P2].
  assert (B1 : ((1560281 # 4194304) * F2Q yp < pow2 11)%Q)
    by (change (pow2 11) with 2048%Q; lra).
  assert (B2 : ((2634023 # 4194304) * F2Q xp < pow2 12)%Q)
    by (change (pow2 12) with 4096%Q; lra).
  pose proof (rounded_error 24 128 _ _ 11 R1 B1) as Er1.
  pose proof (rounded_error 24 128 _ _ 12 R2 B2) as Er2.
  change (pow2 (fexp 24 128 11) / 2)%Q with (1 # 16384)%Q in Er1.
  change (pow2 (fexp 24 128 12) / 2)%Q with (1 # 8192)%Q in Er2.
  apply Qabs_Qle_condition in Er1. apply Qabs_Qle_condition in Er2.
  (* the sum *)
  destruct (SFadd_rounded 24 128 ltac:(lia) p1 p2 12 Hf1 Hn1 Hf2 Hn2)
    as (Hf3 & Hn3 & R3).
  { change (pow2 12) with 4096%Q. lra. }
  { lia. }
  { lia. }
  split; [exact Hf3|]. split; [exact Hn3|].
  assert (Hexact : ((1560281 # 4194304) * F2Q yp + (2634023 # 4194304) * F2Q xp <= 4095)%Q)
    by lra.
  destruct R3 as [[Hz E3] | R3].
  - split.
    + rewrite E3. destruct Hz as [Hz | Hz]; rewrite Hz; lra.
    + rewrite E3. apply Qabs_Qle_condition. split; lra.
  - assert (B3 : (F2Q p1 + F2Q p2 < pow2 12)%Q)
      by (change (pow2 12) with 4096%Q; lra).
    pose proof (rounded_error 24 128 _ _ 12 R3 B3) as Er3.
    change (pow2 (fexp 24 128 12) / 2)%Q with (1 # 8192)%Q in Er3.
    apply Qabs_Qle_condition in Er3.
    split; [| apply Qabs_Qle_condition; split; lra].
    destruct (Qlt_le_dec 4095 (F2Q p1 + F2Q p2)) as [Hbig | Hsmall].
    + (* both products are large, hence multiples of 2^-13 *)
      destruct (rounded_grid 24 128 _ _ 11 R1) as [k1 Hk1].
      { change (pow2 (11 - 1)) with 1024%Q. lra. }
      destruct (rounded_grid 24 128 _ _ 12 R2) as [k2 Hk2].
      { change (pow2 (12 - 1)) with 2048%Q. lra. }
      change (pow2 (fexp 24 128 11)) with (1 # 8192)%Q in Hk1.
      change (pow2 (fexp 24 128 12)) with (1 # 4096)%Q in Hk2.
      assert (Hsum : (F2Q p1 + F2Q p2 <= 4095 + (3 # 16384))%Q) by lra.
      assert (Hk : (k1 + 2 * k2 <= 33546241)%Z).
      { rewrite Hk1, Hk2 in Hsum. unfold Qle in Hsum. cbn in Hsum. lia. }
      assert (Hsum' : (F2Q p1 + F2Q p2 <= 4095 + (1 # 8192))%Q).
      { rewrite Hk1, Hk2. unfold Qle. cbn. lia. }
      assert (Rtop : rounded32 (4095 + (1 # 8192)) 4095).
      { right. exists 12. split.
        - split; [apply Qle_bool_iff | apply Qlt_alt]; vm_compute; reflexivity.
        - vm_compute. reflexivity. }
      exact (rounded_mono 24 128 ltac:(lia) _ _ _ _ R3 Rtop Hsum').
    + assert (Rtop : rounded32 4095 4095).
      { right. exists 12. split.
        - split; [apply Qle_bool_iff | apply Qlt_alt]; vm_compute; reflexivity.
        - vm_compute. reflexivity. }
      exact (rounded_mono 24 128 ltac:(lia) _ _ _ _ R3 Rtop Hsmall).
Qed.

(** Integers below [2^24] convert to single precision without rounding. *)
Lemma of_Z32_value (k : Z) :
  0 <= k < 2 ^ 24 ->
  is_finite (of_Z32 k) = true /\ is_nonneg (of_Z32 k) = true /\
  (F2Q (of_Z32 k) == inject_Z k)%Q.
Proof.
  intros Hk. cbn [of_Z binary32 ieee_ops]. unfold ieee_of_Z, binary_normalize.
  destruct k as [|p|p]; [cbn; repeat split; reflexivity | | lia].
  assert (E0 : (inject_Z (Z.pos p) * pow2 0 == inject_Z (Z.pos p))%Q)
    by (rewrite pow2_0; ring).
  assert (Hpos : (0 < inject_Z (Z.pos p) * pow2 0)%Q).
  { rewrite E0. change 0%Q with (inject_Z 0). rewrite <- Zlt_Qlt. lia. }
  destruct (bitlen_exists _ Hpos) as [L HL].
  assert (HL24 : L <= 24).
  { apply (bitlen_le _ _ _ HL). rewrite E0, pow2_Z by lia.
    rewrite <- Zlt_Qlt. lia. }
  assert (HE : fexp 24 128 L <= 0) by (rewrite fexp_spec; unfold emin; lia).
  destruct (binary_round_value 24 128 ltac:(lia) p 0 L HL) as (Hf & Hn & Hv); [lia|].
  split; [exact Hf|]. split; [exact Hn|].
  rewrite Hv, round_at_finer by exact HE. exact E0.
Qed.

End SingleRounding.

Section Runs.

Context {F : Type} `{FloatOps F}.

Variable omega : F.

Lemma flag_clear_test (f : Z) : ~ flag_set f -> (Z.land f 1 =? 0) = true.
Proof.
  unfold flag_set. intros Hf. apply Z.eqb_eq.
  destruct (Z.eq_dec (Z.land f 1) 0) as [E | N]; [exact E | tauto].
Qed.

Lemma run_step (a : activation) (rest : list activation)
    (s s1 s2 : state F) (e1 e2 : list (event F)) :
  fire omega a s = Some (s1, e1) -> run omega rest s1 = Some (s2, e2) ->
  run omega (a :: rest) s = Some (s2, e1 ++ e2).
Proof. intros Hf Hr. cbn [run]. rewrite Hf. cbn. rewrite Hr. reflexivity. Qed.

(** The four ways an activation can go. *)
Lemma fire_cases (a : activation) (s : state F) :
  in_bounds s ->
  exists s' evs,
    fire omega a s = Some (s', evs) /\ in_bounds s' /\
    ((exists f v out, a = adc_tick f v /\ flag_set f /\
        evs = [write_to_dac out; adc_intflag_set (Z.lor f 1)] /\
        dig s' = dig s /\
        adc_volt s' = map32 (UINT32_wrap v) 0 0xFFFF 0 3300 /\
        display_number s' = digits_of (adc_volt s')) \/
     (exists f v, a = adc_tick f v /\ ~ flag_set f /\ s' = s /\ evs = []) \/
     (exists f val, a = display_tick f /\ flag_set f /\
        display_number s !! Z.to_nat (3 - dig s) = Some val /\
        s' = set_dig s (next_dig (dig s)) /\
        evs = [display_dig 0 val (dig s) false false;
               disp_intflag_set (Z.lor f 1)]) \/
     (exists f, a = display_tick f /\ ~ flag_set f /\ s' = s /\
        evs = [disp_intflag_set (Z.lor f 1)])).
Proof.
  intros [Hd Hlen]. destruct a as [f v | f]; cbn [fire].
  - unfold TC6_Handler. destruct (flag_set_dec f) as [Hf | Hf].
    + rewrite (adc_handler_fired omega s f v Hf Hlen). eexists _, _.
      split; [reflexivity|]. split; [split; [exact Hd | reflexivity]|].
      left. eexists f, v, _. repeat split; try reflexivity. exact Hf.
    + rewrite (adc_handler_idle omega s f v Hf). eexists _, _.
      split; [reflexivity|]. split; [split; assumption|].
      right. left. exists f, v. auto.
  - unfold TC7_Handler. destruct (flag_set_dec f) as [Hf | Hf].
    + destruct (display_handler_fired s f Hf Hd Hlen) as (val & Hval & ->).
      eexists _, _. split; [reflexivity|].
      split; [split; [apply next_dig_range; exact Hd | exact Hlen]|].
      right. right. left. exists f, val. auto.
    + rewrite (display_handler_idle s f Hf). eexists _, _.
      split; [reflexivity|]. split; [split; assumption|].
      right. right. right. exists f. auto.
Qed.

(** A run in which no activation finds its flag up. *)
Lemma run_idle (acts : list activation) (s : state F) :
  Forall (fun a => Z.land (flag_of a) 1 = 0) acts ->
  run omega acts s = Some (s, idle_events acts).
Proof.
  induction 1 as [|a rest Ha _ IH]; [reflexivity|].
  assert (Hclr : ~ flag_set (flag_of a)) by (unfold flag_set; tauto).
  destruct a as [f v | f]; cbn [flag_of] in Hclr.
  - apply (run_step (adc_tick f v) rest s s s [] (idle_events rest)); [|exact IH].
    cbn [fire]. unfold TC6_Handler. apply adc_handler_idle. exact Hclr.
  - apply (run_step (display_tick f) rest s s s
             [disp_intflag_set (Z.lor f 1)] (idle_events rest)); [|exact IH].
    cbn [fire]. unfold TC7_Handler. rewrite (display_handler_idle s f Hclr).
    reflexivity.
Qed.

Lemma display_calls_app (e1 e2 : list (event F)) :
  display_calls (e1 ++ e2) = display_calls e1 ++ display_calls e2.
Proof. unfold display_calls. apply omap_app. Qed.

Lemma dac_writes_app (e1 e2 : list (event F)) :
  dac_writes (e1 ++ e2) = dac_writes e1 ++ dac_writes e2.
Proof. unfold dac_writes. apply omap_app. Qed.

Lemma digits_ok_lookup (buf : list Z) (i : nat) (v : Z) :
  digits_ok buf -> buf !! i = Some v -> 0 <= v <= 9.
Proof.
  intros [_ Hall] Hv. rewrite Forall_lookup in Hall. exact (Hall i v Hv).
Qed.

(** What a run does, seen from outside: the cursor counts the display
    activations that fired, and each fired activation makes its one
    driver call. *)
Lemma run_counts (acts : list activation) (s : state F) :
  in_bounds s ->
  exists s' evs,
    run omega acts s = Some (s', evs) /\
    in_bounds s' /\
    dig s' = (dig s + Z.of_nat (fired_display acts)) mod 4 /\
    length (dac_writes evs) = fired_adc acts /\
    length (display_calls evs) = fired_display acts.
Proof.
  revert s. induction acts as [|a rest IH]; intros s Hs.
  - exists s, []. split; [reflexivity|]. split; [exact Hs|].
    cbn [fired_display fired_adc dac_writes display_calls omap list_omap length].
    destruct Hs as [Hd _]. rewrite Z.add_0_r, Z.mod_small by lia.
    repeat split.
  - destruct (fire_cases a s Hs) as (s1 & e1 & Hfire & Hs1 & Hcase).
    destruct (IH s1 Hs1) as (s2 & e2 & Hrun & Hs2 & Hcur & Hdac & Hdisp).
    exists s2, (e1 ++ e2). split; [exact (run_step _ _ _ _ _ _ _ Hfire Hrun)|].
    split; [exact Hs2|].
    rewrite dac_writes_app, display_calls_app, !length_app, Hdac, Hdisp, Hcur.
    destruct Hs as [Hd Hlen].
    destruct Hcase as [(f & v & out & -> & Hf & -> & Hsame & _)
                      | [(f & v & -> & Hf & -> & ->)
                      | [(f & val & -> & Hf & Hval & -> & ->)
                      | (f & -> & Hf & -> & ->)]]];
      cbn [fired_display fired_adc dac_writes display_calls omap list_omap length
           dig set_dig].
    + rewrite (flag_set_test _ Hf), Hsame. repeat split.
    + rewrite (flag_clear_test _ Hf). repeat split.
    + rewrite (flag_set_test _ Hf), (next_dig_cycle _ Hd).
      split; [|split; reflexivity].
      rewrite Zplus_mod_idemp_l. f_equal. lia.
    + rewrite (flag_clear_test _ Hf). repeat split.
Qed.

(** Every call of [display_dig] a run makes is well formed, as long as
    the buffer held digits at the start. *)
Lemma run_calls_ok (acts : list activation) (s : state F) :
  in_bounds s -> digits_ok (display_number s) ->
  exists s' evs,
    run omega acts s = Some (s', evs) /\ Forall display_call_ok evs.
Proof.
  revert s. induction acts as [|a rest IH]; intros s Hs Hdig.
  - exists s, []. split; [reflexivity | constructor].
  - destruct (fire_cases a s Hs) as (s1 & e1 & Hfire & Hs1 & Hcase).
    assert (Hdig1 : digits_ok (display_number s1)).
    { destruct Hcase as [(f & v & out & _ & _ & _ & _ & Hvolt & Hbuf)
                        | [(f & v & _ & _ & -> & _)
                        | [(f & val & _ & _ & _ & -> & _)
                        | (f & _ & _ & -> & _)]]]; try exact Hdig.
      rewrite Hbuf. split; [reflexivity|]. apply digits_of_are_digits.
      rewrite Hvolt. apply map32_range. }
    destruct (IH s1 Hs1 Hdig1) as (s2 & e2 & Hrun & Hok).
    exists s2, (e1 ++ e2). split; [exact (run_step _ _ _ _ _ _ _ Hfire Hrun)|].
    apply Forall_app. split; [|exact Hok].
    destruct Hs as [Hd Hlen].
    destruct Hcase as [(f & v & out & -> & Hf & -> & _)
                      | [(f & v & -> & Hf & -> & ->)
                      | [(f & val & -> & Hf & Hval & -> & ->)
                      | (f & -> & Hf & -> & ->)]]].
    + repeat constructor.
    + constructor.
    + constructor; [|constructor; [exact I | constructor]].
      cbn [display_call_ok]. split; [reflexivity|].
      split; [exact (digits_ok_lookup _ _ _ Hdig Hval)|]. auto.
    + repeat constructor.
Qed.

(** The cell the display shows at position [d] holds the decimal digit
    of weight [10^(3-d)]. *)
Lemma digits_of_lookup (v d val : Z) :
  0 <= v -> 0 <= d <= 3 ->
  digits_of v !! Z.to_nat (3 - d) = Some val ->
  val = decimal_digit v (3 - d).
Proof.
  intros Hv Hd. rewrite digits_of_spec by exact Hv. unfold decimal_digit.
  assert (Hc : d = 0 \/ d = 1 \/ d = 2 \/ d = 3) by lia.
  destruct Hc as [-> | [-> | [-> | ->]]]; cbn; intros [= <-].
  - change 10000 with (1000 * 10). apply mod_div_digit; lia.
  - change 1000 with (100 * 10). apply mod_div_digit; lia.
  - change 100 with (10 * 10). apply mod_div_digit; lia.
  - rewrite Z.div_1_r. reflexivity.
Qed.

(** The stored digits of any value: its four low decimal digits. *)
Lemma digits_of_decimal (v : Z) :
  0 <= v ->
  digits_of v =
    [decimal_digit v 0; decimal_digit v 1; decimal_digit v 2; decimal_digit v 3].
Proof.
  intros Hv. rewrite digits_of_spec by exact Hv. unfold decimal_digit.
  change (10 ^ 0) with 1. change (10 ^ 1) with 10.
  change (10 ^ 2) with 100. change (10 ^ 3) with 1000.
  rewrite Z.div_1_r.
  change 100 with (10 * 10) at 1. rewrite mod_div_digit by lia.
  change 1000 with (100 * 10) at 1. rewrite mod_div_digit by lia.
  change 10000 with (1000 * 10). rewrite mod_div_digit by lia.
  reflexivity.
Qed.

Lemma recombine_decimal (v : Z) :
  0 <= v ->
  recombine [decimal_digit v 0; decimal_digit v 1; decimal_digit v 2; decimal_digit v 3]
    = v mod 10000.
Proof.
  intros Hv. unfold recombine, decimal_digit.
  change (10 ^ 0) with 1. change (10 ^ 1) with 10.
  change (10 ^ 2) with 100. change (10 ^ 3) with 1000.
  rewrite Z.div_1_r.
  pose proof (Z.div_mod v 10). pose proof (Z.div_mod (v / 10) 10).
  pose proof (Z.div_mod (v / 100) 10). pose proof (Z.div_mod (v / 1000) 10).
  pose proof (Z.div_div v 10 10). pose proof (Z.div_div v 100 10).
  pose proof (Z.div_div v 1000 10). pose proof (Z.div_mod v 10000).
  change (10 * 10) with 100 in *. change (100 * 10) with 1000 in *.
  change (1000 * 10) with 10000 in *. lia.
Qed.

(** Display activations show the digits of the stored millivolt value. *)
Lemma run_display_digits (flags : list Z) (s : state F) :
  in_bounds s -> 0 <= adc_volt s ->
  display_number s = digits_of (adc_volt s) ->
  exists s' evs,
    run omega (display_tick <$> flags) s = Some (s', evs) /\
    Forall (fun c => c.1 = decimal_digit (adc_volt s) (3 - c.2) /\ 0 <= c.2 <= 3)
      (display_calls evs).
Proof.
  revert s. induction flags as [|f rest IH]; intros s Hs Hv Hbuf.
  - exists s, []. split; [reflexivity | constructor].
  - cbn [fmap list_fmap].
    destruct (fire_cases (display_tick f) s Hs) as (s1 & e1 & Hfire & Hs1 & Hcase).
    destruct Hs as [Hd Hlen].
    destruct Hcase as [(f' & v & out & [=] & _)
                      | [(f' & v & [=] & _)
                      | [(f' & val & _ & Hf & Hval & -> & ->)
                      | (f' & _ & Hf & -> & ->)]]].
    + destruct (IH (set_dig s (next_dig (dig s))) Hs1 Hv Hbuf)
        as (s2 & e2 & Hrun & Hall).
      eexists s2, _. split; [exact (run_step _ _ _ _ _ _ _ Hfire Hrun)|].
      rewrite display_calls_app. apply Forall_app. split; [|exact Hall].
      cbn [display_calls omap list_omap]. constructor; [|constructor].
      cbn [fst snd]. split; [|exact Hd].
      rewrite Hbuf in Hval. exact (digits_of_lookup _ _ _ Hv Hd Hval).
    + destruct (IH s (conj Hd Hlen) Hv Hbuf) as (s2 & e2 & Hrun & Hall).
      eexists s2, _. split; [exact (run_step _ _ _ _ _ _ _ Hfire Hrun)|].
      rewrite display_calls_app. exact Hall.
Qed.

End Runs.

Module SingleRun.

Import IEEE Rounding Single SingleRounding.

Lemma in_range32_spec (v : spec_float) :
  in_range32 v = true <->
  is_finite v = true /\ is_nonneg v = true /\ (F2Q v <= 4095)%Q.
Proof.
  unfold in_range32. rewrite !andb_true_iff, Qle_bool_iff.
  change (inject_Z (native_max RESOLUTION)) with 4095%Q. tauto.
Qed.

Lemma nonneg_value (v : spec_float) :
  is_finite v = true -> is_nonneg v = true -> (0 <= F2Q v)%Q.
Proof.
  intros Hf Hn. destruct (nonneg_cases v Hf Hn) as [[s ->] | (m & e & ->)].
  - apply Qle_refl.
  - apply Qlt_le_weak. apply float_pos.
Qed.

Lemma of_Z32_in_range (k : Z) :
  0 <= k <= 4095 -> in_range32 (of_Z32 k) = true /\ (F2Q (of_Z32 k) == inject_Z k)%Q.
Proof.
  intros Hk. destruct (of_Z32_value k) as (Hf & Hn & Hv); [lia|].
  split; [|exact Hv]. apply in_range32_spec.
  split; [exact Hf|]. split; [exact Hn|]. rewrite Hv.
  change 4095%Q with (inject_Z 4095). rewrite <- Zle_Qle. lia.
Qed.

(** The filter step keeps the working range, and is the recurrence of
    the single-precision coefficients up to [5/16384]. *)
Lemma lpf32_in_range (yp xp : spec_float) :
  in_range32 yp = true -> in_range32 xp = true ->
  in_range32 (lpf (H:=binary32) omega32 yp xp) = true /\
  (Qabs (F2Q (lpf (H:=binary32) omega32 yp xp)
         - ((1 - F2Q omega32) * F2Q yp + F2Q omega32 * F2Q xp)) <= 5 # 16384)%Q.
Proof.
  intros Hy Hx. apply in_range32_spec in Hy, Hx.
  destruct Hy as (Hfy & Hny & Hy). destruct Hx as (Hfx & Hnx & Hx).
  destruct (lpf32_step yp xp Hfy Hny Hy Hfx Hnx Hx) as (Hf & Hn & Hb & He).
  split; [|exact He]. apply in_range32_spec. auto.
Qed.

(** The same step against the recurrence with [omega = 0.628]. *)
Lemma lpf32_accuracy (yp xp : spec_float) :
  in_range32 yp = true -> in_range32 xp = true ->
  (Qabs (F2Q (lpf (H:=binary32) omega32 yp xp)
         - lpf (H:=exact) omega_exact (F2Q yp) (F2Q xp)) <= 7 # 16384)%Q.
Proof.
  intros Hy Hx. destruct (lpf32_in_range yp xp Hy Hx) as [_ He].
  apply in_range32_spec in Hy, Hx.
  destruct Hy as (Hfy & Hny & Hy). destruct Hx as (Hfx & Hnx & Hx).
  pose proof (nonneg_value yp Hfy Hny) as Py.
  pose proof (nonneg_value xp Hfx Hnx) as Px.
  destruct coefficients_value as (_ & EW & _).
  rewrite Exact.lpf_value.
  apply Qabs_Qle_condition in He. apply Qabs_Qle_condition.
  rewrite EW in He. split; lra.
Qed.

(** The DAC rescale of a value of the working range is finite and within
    [0, 1023]. *)
Lemma dac32_in_range (v : spec_float) :
  in_range32 v = true ->
  is_finite (dac32 v) = true /\ (0 <= F2Q (dac32 v) <= 1023)%Q.
Proof.
  intros Hv. apply in_range32_spec in Hv. destruct Hv as (Hf & Hn & Hv).
  destruct (dac32_rounded v Hf Hn Hv) as (Hfd & Hnd & _).
  split; [exact Hfd|]. split; [apply nonneg_value; assumption|].
  assert (Etop : (F2Q (dac32 (of_Z32 4095)) == 1023)%Q) by (vm_compute; reflexivity).
  rewrite <- Etop.
  destruct (of_Z32_value 4095) as (Hf4 & Hn4 & Hv4); [lia|].
  apply dac32_monotone; try assumption.
  - rewrite Hv4. exact Hv.
  - rewrite Hv4. apply Qle_refl.
Qed.

Lemma sample_wrap (v : Z) : 0 <= v <= 4095 -> UINT32_wrap v = v.
Proof. intros Hv. apply UINT32_wrap_small. change (2 ^ 32) with 4294967296. lia. Qed.

Lemma fire32_invariant (a : activation) (s : state spec_float) :
  inv32 s -> sample_in_range a = true ->
  exists s' evs,
    fire (H:=binary32) omega32 a s = Some (s', evs) /\ inv32 s' /\
    Forall dac_ok (dac_writes evs).
Proof.
  intros ([Hd Hlen] & Hy & Hx) Ha. destruct a as [f v | f]; cbn [fire].
  - unfold TC6_Handler. cbn [sample_in_range] in Ha.
    apply andb_true_iff in Ha. destruct Ha as [Hv0 Hv1].
    apply Z.leb_le in Hv0, Hv1. change (native_max RESOLUTION) with 4095 in Hv1.
    destruct (flag_set_dec f) as [Hf | Hf].
    + rewrite (@adc_handler_fired _ binary32 omega32 s f v Hf Hlen).
      eexists _, _. split; [reflexivity|].
      destruct (lpf32_in_range _ _ Hy Hx) as [Hy' _].
      split.
      * split; [split; [exact Hd | reflexivity]|]. cbn [y_prev x_prev].
        split; [exact Hy'|]. rewrite sample_wrap by lia.
        apply of_Z32_in_range. lia.
      * cbn [dac_writes omap list_omap]. constructor; [|constructor].
        apply (dac32_in_range _ Hy').
    + rewrite (@adc_handler_idle _ binary32 omega32 s f v Hf).
      eexists _, _. split; [reflexivity|]. split; [|constructor].
      split; [split; assumption | split; assumption].
  - unfold TC7_Handler. destruct (flag_set_dec f) as [Hf | Hf].
    + destruct (display_handler_fired s f Hf Hd Hlen) as (v & _ & ->).
      eexists _, _. split; [reflexivity|]. split; [|constructor].
      split; [split; [apply next_dig_range; exact Hd | exact Hlen]|].
      split; assumption.
    + rewrite (display_handler_idle s f Hf).
      eexists _, _. split; [reflexivity|]. split; [|constructor].
      split; [split; assumption | split; assumption].
Qed.

Lemma run32_invariant (acts : list activation) (s : state spec_float) :
  inv32 s -> forallb sample_in_range acts = true ->
  exists s' evs,
    run (H:=binary32) omega32 acts s = Some (s', evs) /\ inv32 s' /\
    Forall dac_ok (dac_writes evs).
Proof.
  revert s. induction acts as [|a rest IH]; intros s Hs Hacts.
  - exists s, []. split; [reflexivity|]. split; [exact Hs | constructor].
  - cbn [forallb] in Hacts. apply andb_true_iff in Hacts. destruct Hacts as [Ha Hrest].
    destruct (fire32_invariant a s Hs Ha) as (s1 & e1 & Hfire & Hs1 & Hd1).
    destruct (IH s1 Hs1 Hrest) as (s2 & e2 & Hrun & Hs2 & Hd2).
    exists s2, (e1 ++ e2). cbn [run]. rewrite Hfire. cbn. rewrite Hrun. cbn.
    split; [reflexivity|]. split; [exact Hs2|].
    rewrite dac_writes_app. apply Forall_app. split; assumption.
Qed.




(** ** Settling on a constant sample, from any state of the range *)

Lemma settle_bound_step (b : Q) :
  (b <= 1 # 1024)%Q -> ((1560281 # 4194304) * b + (5 # 16384) <= 1 # 1024)%Q.
Proof. intros Hb. lra. Qed.

Lemma settle_bound_small (n : nat) :
  (19 <= n)%nat -> (settle_bound n <= 1 # 1024)%Q.
Proof.
  induction 1 as [|n Hn IH].
  - apply Qle_bool_iff. vm_compute. reflexivity.
  - cbn [settle_bound]. apply settle_bound_step. exact IH.
Qed.

Lemma run32_settles (st : spec_float * spec_float) (c : spec_float) (k : Q) (n : nat) :
  in_range32 (fst st) = true -> in_range32 (snd st) = true ->
  in_range32 c = true -> (F2Q c == k)%Q ->
  in_range32 (fst (run32 (S n) st c)) = true /\
  snd (run32 (S n) st c) = c /\
  (Qabs (F2Q (fst (run32 (S n) st c)) - k) <= settle_bound n)%Q.
Proof.
  intros Hy Hx Hc Ec. induction n as [|n (IHr & IHs & IHe)].
  - cbn [filter_run]. unfold filter_step. cbn [fst snd].
    destruct (lpf32_in_range _ _ Hy Hx) as [Hr _].
    split; [exact Hr|]. split; [reflexivity|].
    apply in_range32_spec in Hr, Hc.
    destruct Hr as (Hf & Hn & Hb). destruct Hc as (Hfc & Hnc & Hbc).
    pose proof (nonneg_value _ Hf Hn) as P. pose proof (nonneg_value _ Hfc Hnc) as Pc.
    change (settle_bound 0) with 4095%Q.
    apply Qabs_Qle_condition. split; lra.
  - remember (run32 (S n) st c) as r eqn:Er.
    assert (E : run32 (S (S n)) st c = filter_step (H:=binary32) omega32 r c)
      by (rewrite Er; reflexivity).
    rewrite E. unfold filter_step. cbn [fst snd]. rewrite IHs.
    destruct (lpf32_in_range _ _ IHr Hc) as [Hr He].
    split; [exact Hr|]. split; [reflexivity|].
    destruct coefficients_value as (_ & EW & _).
    rewrite EW in He. cbn [settle_bound].
    apply Qabs_Qle_condition in He. apply Qabs_Qle_condition in IHe.
    apply Qabs_Qle_condition. split; lra.
Qed.

End SingleRun.

(** ** Order in single precision *)

Module SingleMonotone.

Import IEEE Rounding Single SingleRounding SingleRun.

(** A value below half a grid step rounds to zero. *)
Lemma round_at_small (E : Z) (x : Q) :
  (0 <= x)%Q -> (2 * x < pow2 E)%Q -> (round_at E x == 0)%Q.
Proof.
  intros H0 Hx. pose proof (pow2_pos E) as HE. unfold round_at.
  assert (Hu : (0 <= x / pow2 E < 1 # 2)%Q).
  { split.
    - apply Qle_shift_div_l; [exact HE | rewrite Qmult_0_l; exact H0].
    - apply Qlt_shift_div_r; [exact HE | lra]. }
  pose proof (rnd_error (x / pow2 E)) as He. apply Qabs_Qle_condition in He.
  pose proof (rnd_mono 0 (x / pow2 E) (proj1 Hu)) as Hm.
  change 0%Q with (inject_Z 0) in Hm. rewrite rnd_Z in Hm.
  assert (Hlt : (inject_Z (rnd (x / pow2 E)) < inject_Z 1)%Q)
    by (change (inject_Z 1) with 1%Q; lra).
  rewrite <- Zlt_Qlt in Hlt.
  assert (Ez : rnd (x / pow2 E) = 0) by lia.
  rewrite Ez. change (inject_Z 0) with 0%Q. ring.
Qed.

(** A rounded value is a float: it rounds to itself. *)
Lemma rounded32_idem (x v : Q) : rounded 24 128 x v -> rounded 24 128 v v.
Proof.
  intros [[Ex Ev] | (L & HL & Ev)].
  - left. split; exact Ev.
  - pose proof (bitlen_pos _ _ HL) as Hx. destruct HL as [HL1 HL2].
    set (E := fexp 24 128 L) in *.
    assert (HE : E = Z.max (L - 24) (-149)) by reflexivity.
    assert (Hv0 : (0 <= v)%Q) by (rewrite Ev; apply round_at_nonneg; lra).
    destruct (Z_le_gt_dec E L) as [HEL | HEL].
    + assert (Hv2 : (v <= pow2 L)%Q).
      { rewrite Ev, <- (round_at_pow2 E L HEL). apply round_at_mono. lra. }
      destruct (Qlt_le_dec 0 v) as [Hpos | Hz].
      * right. destruct (bitlen_exists v Hpos) as [Lv HLv]. exists Lv.
        split; [exact HLv|].
        destruct (Qlt_le_dec v (pow2 L)) as [Hlt | Hge].
        -- pose proof (bitlen_le _ _ _ HLv Hlt) as HLe.
           pose proof (fexp_mono 24 128 Lv L HLe) as Hfe. fold E in Hfe.
           assert (Evk : (v == inject_Z (rnd (x / pow2 E)) * pow2 E)%Q) by exact Ev.
           rewrite (round_at_comp (fexp 24 128 Lv) _ _ Evk).
           rewrite (round_at_finer _ _ _ Hfe). exact Evk.
        -- assert (Evl : (v == pow2 L)%Q) by lra.
           assert (HLv' : bitlen (pow2 L) (L + 1)).
           { split; [replace (L + 1 - 1) with L by lia; apply Qle_refl|].
             apply pow2_lt. lia. }
           pose proof (bitlen_unique _ _ _ (bitlen_comp _ _ _ Evl HLv) HLv') as ->.
           rewrite (round_at_comp (fexp 24 128 (L + 1)) _ _ Evl).
           assert (Hfe : fexp 24 128 (L + 1) <= L) 
             by (change (fexp 24 128 (L + 1)) with (Z.max (L + 1 - 24) (-149)); lia).
           apply (Qeq_trans _ _ _ Evl). symmetry. exact (round_at_pow2 _ _ Hfe).
      * left. assert (Ez : (v == 0)%Q) by lra. split; exact Ez.
    + left. assert (Ez : (v == 0)%Q).
      { rewrite Ev. apply round_at_small; [lra|].
        assert (Hp : (pow2 L <= pow2 (E - 1))%Q) by (apply pow2_le; lia).
        assert (Hs : (pow2 E == 2 * pow2 (E - 1))%Q).
        { replace E with (E - 1 + 1) at 1 by lia. apply pow2_succ. }
        rewrite Hs. lra. }
      split; exact Ez.
Qed.

(** The sum of two rounded values is rounded, also when one of them is
    zero and the sum is the other one. *)
Lemma SFadd32_rounded (p1 p2 : spec_float) (x1 x2 : Q) :
  is_finite p1 = true -> is_nonneg p1 = true ->
  is_finite p2 = true -> is_nonneg p2 = true ->
  rounded 24 128 x1 (F2Q p1) -> rounded 24 128 x2 (F2Q p2) ->
  (F2Q p1 + F2Q p2 < pow2 12)%Q ->
  rounded 24 128 (F2Q p1 + F2Q p2) (F2Q (SFadd 24 128 p1 p2)).
Proof.
  intros Hf1 Hn1 Hf2 Hn2 R1 R2 Hlt.
  destruct (SFadd_rounded 24 128 ltac:(lia) p1 p2 12 Hf1 Hn1 Hf2 Hn2 Hlt
              ltac:(lia) ltac:(lia)) as (_ & _ & [[Hz E3] | R3]); [|exact R3].
  destruct Hz as [Hz | Hz].
  - apply (rounded_comp 24 128 (F2Q p2) _ (F2Q p2) _).
    + rewrite Hz. ring.
    + rewrite E3, Hz. ring.
    + exact (rounded32_idem _ _ R2).
  - apply (rounded_comp 24 128 (F2Q p1) _ (F2Q p1) _).
    + rewrite Hz. ring.
    + rewrite E3, Hz. ring.
    + exact (rounded32_idem _ _ R1).
Qed.

(** The filter step as three roundings: of the two products, then of
    their sum. *)
Lemma lpf32_roundings (yp xp : spec_float) :
  in_range32 yp = true -> in_range32 xp = true ->
  exists p1 p2 : Q,
    rounded 24 128 ((1560281 # 4194304) * F2Q yp) p1 /\
    rounded 24 128 ((2634023 # 4194304) * F2Q xp) p2 /\
    rounded 24 128 (p1 + p2) (F2Q (lpf (H:=binary32) omega32 yp xp)).
Proof.
  intros Hy Hx. apply in_range32_spec in Hy, Hx.
  destruct Hy as (Hfy & Hny & Hy). destruct Hx as (Hfx & Hnx & Hx).
  pose proof (nonneg_value yp Hfy Hny) as Py.
  pose proof (nonneg_value xp Hfx Hnx) as Px.
  unfold lpf. cbn [fadd fsub fmul of_Z binary32 ieee_ops].
  rewrite one_minus_omega32.
  destruct coefficients_value as (EA & EW & E1).
  rewrite SingleFacts.omega32_value.
  destruct (SFmul_rounded 24 128 ltac:(lia) (S754_finite false 12482248 (-25)) yp 13
              eq_refl eq_refl Hfy Hny) as (Hf1 & Hn1 & R1).
  { vm_compute. discriminate. }
  { rewrite pow2_13. lra. }
  { lia. }
  { lia. }
  set (p1 := SFmul 24 128 (S754_finite false 12482248 (-25)) yp) in *.
  apply (rounded_comp 24 128 _ ((1560281 # 4194304) * F2Q yp)%Q _ (F2Q p1)) in R1;
    [| rewrite EA; reflexivity | reflexivity].
  destruct (SFmul_rounded 24 128 ltac:(lia) (S754_finite false 10536092 (-24)) xp 13
              eq_refl eq_refl Hfx Hnx) as (Hf2 & Hn2 & R2).
  { vm_compute. discriminate. }
  { rewrite pow2_13. lra. }
  { lia. }
  { lia. }
  set (p2 := SFmul 24 128 (S754_finite false 10536092 (-24)) xp) in *.
  assert (EW' : (F2Q (S754_finite false 10536092 (-24)) == 2634023 # 4194304)%Q)
    by (vm_compute; reflexivity).
  apply (rounded_comp 24 128 _ ((2634023 # 4194304) * F2Q xp)%Q _ (F2Q p2)) in R2;
    [| rewrite EW'; reflexivity | reflexivity].
  assert (B1 : ((1560281 # 4194304) * F2Q yp < pow2 11)%Q)
    by (change (pow2 11) with 2048%Q; lra).
  assert (B2 : ((2634023 # 4194304) * F2Q xp < pow2 12)%Q)
    by (change (pow2 12) with 4096%Q; lra).
  pose proof (rounded_error 24 128 _ _ 11 R1 B1) as Er1.
  pose proof (rounded_error 24 128 _ _ 12 R2 B2) as Er2.
  change (pow2 (fexp 24 128 11) / 2)%Q with (1 # 16384)%Q in Er1.
  change (pow2 (fexp 24 128 12) / 2)%Q with (1 # 8192)%Q in Er2.
  apply Qabs_Qle_condition in Er1. apply Qabs_Qle_condition in Er2.
  exists (F2Q p1), (F2Q p2). split; [exact R1|]. split; [exact R2|].
  apply (SFadd32_rounded p1 p2 _ _ Hf1 Hn1 Hf2 Hn2 R1 R2).
  change (pow2 12) with 4096%Q. lra.
Qed.

(** The filter step preserves the order of its two arguments. *)
Lemma lpf32_monotone (y1 x1 y2 x2 : spec_float) :
  in_range32 y1 = true -> in_range32 x1 = true ->
  in_range32 y2 = true -> in_range32 x2 = true ->
  (F2Q y1 <= F2Q y2)%Q -> (F2Q x1 <= F2Q x2)%Q ->
  (F2Q (lpf (H:=binary32) omega32 y1 x1) <= F2Q (lpf (H:=binary32) omega32 y2 x2))%Q.
Proof.
  intros Hy1 Hx1 Hy2 Hx2 Hy Hx.
  destruct (lpf32_roundings y1 x1 Hy1 Hx1) as (p1 & p2 & R1 & R2 & R3).
  destruct (lpf32_roundings y2 x2 Hy2 Hx2) as (q1 & q2 & S1 & S2 & S3).
  assert (M1 : (p1 <= q1)%Q).
  { apply (rounded_mono 24 128 ltac:(lia) _ _ _ _ R1 S1). lra. }
  assert (M2 : (p2 <= q2)%Q).
  { apply (rounded_mono 24 128 ltac:(lia) _ _ _ _ R2 S2). lra. }
  apply (rounded_mono 24 128 ltac:(lia) _ _ _ _ R3 S3). lra.
Qed.

(** On a constant input, the outputs keep the direction of the first
    move: upwards when the input is not below the stored one, downwards
    when it is not above. *)
Lemma run32_rising (st : spec_float * spec_float) (c : spec_float) (n : nat) :
  in_range32 (fst st) = true -> in_range32 (snd st) = true ->
  in_range32 c = true ->
  (F2Q (snd st) <= F2Q c)%Q ->
  (F2Q (fst st) <= F2Q (fst (run32 1 st c)))%Q ->
  in_range32 (fst (run32 n st c)) = true /\
  in_range32 (snd (run32 n st c)) = true /\
  (F2Q (snd (run32 n st c)) <= F2Q c)%Q /\
  (F2Q (fst (run32 n st c)) <= F2Q (fst (run32 (S n) st c)))%Q.
Proof.
  intros Hy Hx Hc Hxc H1. induction n as [|n (IHy & IHx & IHc & IH)].
  - cbn [filter_run]. auto.
  - remember (run32 n st c) as r eqn:Er.
    assert (E1 : run32 (S n) st c = filter_step (H:=binary32) omega32 r c)
      by (rewrite Er; reflexivity).
    assert (E2 : run32 (S (S n)) st c =
                 filter_step (H:=binary32) omega32 (run32 (S n) st c) c) by reflexivity.
    rewrite E2, E1 in *. unfold filter_step in *. cbn [fst snd] in *.
    destruct (lpf32_in_range _ _ IHy IHx) as [Hr _].
    split; [exact Hr|]. split; [exact Hc|]. split; [apply Qle_refl|].
    apply lpf32_monotone; try assumption.
Qed.

Lemma run32_falling (st : spec_float * spec_float) (c : spec_float) (n : nat) :
  in_range32 (fst st) = true -> in_range32 (snd st) = true ->
  in_range32 c = true ->
  (F2Q c <= F2Q (snd st))%Q ->
  (F2Q (fst (run32 1 st c)) <= F2Q (fst st))%Q ->
  in_range32 (fst (run32 n st c)) = true /\
  in_range32 (snd (run32 n st c)) = true /\
  (F2Q c <= F2Q (snd (run32 n st c)))%Q /\
  (F2Q (fst (run32 (S n) st c)) <= F2Q (fst (run32 n st c)))%Q.
Proof.
  intros Hy Hx Hc Hxc H1. induction n as [|n (IHy & IHx & IHc & IH)].
  - cbn [filter_run]. auto.
  - remember (run32 n st c) as r eqn:Er.
    assert (E1 : run32 (S n) st c = filter_step (H:=binary32) omega32 r c)
      by (rewrite Er; reflexivity).
    assert (E2 : run32 (S (S n)) st c =
                 filter_step (H:=binary32) omega32 (run32 (S n) st c) c) by reflexivity.
    rewrite E2, E1 in *. unfold filter_step in *. cbn [fst snd] in *.
    destruct (lpf32_in_range _ _ IHy IHx) as [Hr _].
    split; [exact Hr|]. split; [exact Hc|]. split; [apply Qle_refl|].
    apply lpf32_monotone; try assumption.
Qed.

End SingleMonotone.

Module SingleOrder.

Import IEEE Rounding Single SingleRounding SingleRun SingleMonotone.

Lemma fire32_ordered (a b : activation) (s1 s2 : state spec_float) :
  inv32 s1 -> inv32 s2 -> below32 s1 s2 ->
  sample_le a b = true ->
  sample_in_range a = true -> sample_in_range b = true ->
  exists s1' e1 s2' e2,
    fire (H:=binary32) omega32 a s1 = Some (s1', e1) /\
    fire (H:=binary32) omega32 b s2 = Some (s2', e2) /\
    inv32 s1' /\ inv32 s2' /\ below32 s1' s2' /\
    Forall2 le32 (dac_writes e1) (dac_writes e2).
Proof.
  intros ([Hd1 Hl1] & Hy1 & Hx1) ([Hd2 Hl2] & Hy2 & Hx2) [Hy Hx] Hab Ha Hb.
  destruct a as [f v | f], b as [g w | g]; cbn [sample_le] in Hab;
    try discriminate; cbn [fire].
  - apply andb_true_iff in Hab. destruct Hab as [Efg Hvw].
    apply Z.eqb_eq in Efg. subst g. apply Z.leb_le in Hvw.
    cbn [sample_in_range] in Ha, Hb.
    apply andb_true_iff in Ha, Hb. destruct Ha as [Hv0 Hv1], Hb as [Hw0 Hw1].
    apply Z.leb_le in Hv0, Hv1, Hw0, Hw1.
    change (native_max RESOLUTION) with 4095 in Hv1, Hw1.
    unfold TC6_Handler. destruct (flag_set_dec f) as [Hf | Hf].
    + rewrite (@adc_handler_fired _ binary32 omega32 s1 f v Hf Hl1).
      rewrite (@adc_handler_fired _ binary32 omega32 s2 f w Hf Hl2).
      eexists _, _, _, _. split; [reflexivity|]. split; [reflexivity|].
      destruct (lpf32_in_range _ _ Hy1 Hx1) as [Hr1 _].
      destruct (lpf32_in_range _ _ Hy2 Hx2) as [Hr2 _].
      pose proof (lpf32_monotone _ _ _ _ Hy1 Hx1 Hy2 Hx2 Hy Hx) as Hm.
      destruct (of_Z32_in_range v ltac:(lia)) as [Hrv Ev].
      destruct (of_Z32_in_range w ltac:(lia)) as [Hrw Ew].
      rewrite !sample_wrap by lia.
      split; [split; [split; [exact Hd1 | reflexivity] | split; [exact Hr1 | exact Hrv]]|].
      split; [split; [split; [exact Hd2 | reflexivity] | split; [exact Hr2 | exact Hrw]]|].
      split.
      * split; cbn [y_prev x_prev]; [exact Hm|].
        rewrite Ev, Ew. rewrite <- Zle_Qle. exact Hvw.
      * cbn [dac_writes omap list_omap]. constructor; [|constructor].
        apply in_range32_spec in Hr1, Hr2.
        destruct Hr1 as (F1 & N1 & _). destruct Hr2 as (F2 & N2 & B2).
        exact (dac32_monotone _ _ F1 N1 F2 N2 Hm B2).
    + rewrite (@adc_handler_idle _ binary32 omega32 s1 f v Hf).
      rewrite (@adc_handler_idle _ binary32 omega32 s2 f w Hf).
      eexists _, _, _, _. split; [reflexivity|]. split; [reflexivity|].
      split; [split; [split; assumption | split; assumption]|].
      split; [split; [split; assumption | split; assumption]|].
      split; [split; assumption | constructor].
  - apply Z.eqb_eq in Hab. subst g.
    unfold TC7_Handler. destruct (flag_set_dec f) as [Hf | Hf].
    + destruct (display_handler_fired s1 f Hf Hd1 Hl1) as (v1 & _ & ->).
      destruct (display_handler_fired s2 f Hf Hd2 Hl2) as (v2 & _ & ->).
      eexists _, _, _, _. split; [reflexivity|]. split; [reflexivity|].
      split; [split; [split; [apply next_dig_range; exact Hd1 | exact Hl1]
                     | split; assumption]|].
      split; [split; [split; [apply next_dig_range; exact Hd2 | exact Hl2]
                     | split; assumption]|].
      split; [split; assumption | constructor].
    + rewrite (display_handler_idle s1 f Hf), (display_handler_idle s2 f Hf).
      eexists _, _, _, _. split; [reflexivity|]. split; [reflexivity|].
      split; [split; [split; assumption | split; assumption]|].
      split; [split; [split; assumption | split; assumption]|].
      split; [split; assumption | constructor].
Qed.

Lemma run32_ordered (acts1 acts2 : list activation) (s1 s2 : state spec_float) :
  inv32 s1 -> inv32 s2 -> below32 s1 s2 ->
  samples_le acts1 acts2 = true ->
  forallb sample_in_range acts1 = true -> forallb sample_in_range acts2 = true ->
  exists s1' e1 s2' e2,
    run (H:=binary32) omega32 acts1 s1 = Some (s1', e1) /\
    run (H:=binary32) omega32 acts2 s2 = Some (s2', e2) /\
    inv32 s1' /\ inv32 s2' /\ below32 s1' s2' /\
    Forall2 le32 (dac_writes e1) (dac_writes e2).
Proof.
  revert acts2 s1 s2.
  induction acts1 as [|a r1 IH]; intros [|b r2] s1 s2 H1 H2 Hb Hacts Hr1 Hr2;
    cbn [samples_le] in Hacts; try discriminate.
  - exists s1, [], s2, []. split; [reflexivity|]. split; [reflexivity|].
    split; [exact H1|]. split; [exact H2|]. split; [exact Hb | constructor].
  - apply andb_true_iff in Hacts. destruct Hacts as [Hab Hrest].
    cbn [forallb] in Hr1, Hr2. apply andb_true_iff in Hr1, Hr2.
    destruct Hr1 as [Ha Hr1], Hr2 as [Hb' Hr2].
    destruct (fire32_ordered a b s1 s2 H1 H2 Hb Hab Ha Hb')
      as (t1 & e1 & t2 & e2 & F1 & F2 & I1 & I2 & B & D).
    destruct (IH r2 t1 t2 I1 I2 B Hrest Hr1 Hr2)
      as (u1 & g1 & u2 & g2 & R1 & R2 & J1 & J2 & B' & D').
    exists u1, (e1 ++ g1), u2, (e2 ++ g2).
    split; [exact (run_step omega32 a r1 s1 t1 u1 e1 g1 F1 R1)|].
    split; [exact (run_step omega32 b r2 s2 t2 u2 e2 g2 F2 R2)|].
    split; [exact J1|]. split; [exact J2|]. split; [exact B'|].
    rewrite !dac_writes_app. apply Forall2_app; assumption.
Qed.

End SingleOrder.

(** ** The constant-input response in single precision *)

Module SingleResponse.

Import IEEE Rounding Single SingleRounding SingleRun.

Lemma floor_balance :
  ((1 - omega_exact) * rounding_floor + step_rounding == rounding_floor)%Q.
Proof. vm_compute. reflexivity. Qed.

Lemma floor_below : (rounding_floor < 1 # 1024)%Q.
Proof. apply Qlt_alt. vm_compute. reflexivity. Qed.

Lemma ratio_pow_nonneg (n : nat) : (0 <= (1 - omega_exact) ^ Z.of_nat n)%Q.
Proof. apply Qpower_pos. apply Qle_bool_iff. vm_compute. reflexivity. Qed.

Lemma ratio_pow_succ (n : nat) :
  ((1 - omega_exact) ^ Z.of_nat (S n) ==
   (1 - omega_exact) * (1 - omega_exact) ^ Z.of_nat n)%Q.
Proof.
  rewrite Nat2Z.inj_succ. unfold Z.succ.
  rewrite Qpower_plus by (vm_compute; discriminate).
  change ((1 - omega_exact) ^ 1)%Q with (1 - omega_exact)%Q. ring.
Qed.

(** The powers of [1 - omega] fall at least like [1 / (n + 1)]. *)
Lemma ratio_pow_bound (n : nat) :
  (inject_Z (Z.of_nat n + 1) * (1 - omega_exact) ^ Z.of_nat n <= 1)%Q.
Proof.
  induction n as [|n IH].
  - vm_compute. discriminate.
  - rewrite ratio_pow_succ.
    pose proof (ratio_pow_nonneg n) as Hp.
    set (p := ((1 - omega_exact) ^ Z.of_nat n)%Q) in *.
    replace (Z.of_nat (S n) + 1) with ((Z.of_nat n + 1) + 1) by lia.
    rewrite inject_Z_plus. change (inject_Z 1) with 1%Q.
    set (a := inject_Z (Z.of_nat n + 1)) in *.
    assert (Ha : (1 <= a)%Q).
    { unfold a. change 1%Q with (inject_Z 1). rewrite <- Zle_Qle. lia. }
    assert (Er : (1 - omega_exact == 372 # 1000)%Q) by (vm_compute; reflexivity).
    rewrite Er. nra.
Qed.

Lemma ratio_pow_small (C eps : Q) :
  (0 <= C)%Q -> (0 < eps)%Q ->
  exists N : nat, forall n : nat, (N <= n)%nat ->
    ((1 - omega_exact) ^ Z.of_nat n * C < eps)%Q.
Proof.
  intros HC Heps. exists (Z.to_nat (Qceiling (C / eps))). intros n Hn.
  pose proof (ratio_pow_bound n) as Hb.
  assert (Hp : (0 < (1 - omega_exact) ^ Z.of_nat n)%Q).
  { apply Qpower_0_lt. apply Qlt_alt. vm_compute. reflexivity. }
  set (p := ((1 - omega_exact) ^ Z.of_nat n)%Q) in *.
  assert (Hceil : (C / eps <= inject_Z (Z.of_nat n))%Q).
  { eapply Qle_trans; [apply Qle_ceiling|]. rewrite <- Zle_Qle. lia. }
  assert (HCe : (C <= inject_Z (Z.of_nat n) * eps)%Q).
  { apply (Qmult_le_compat_r _ _ eps) in Hceil; [|lra].
    assert (E : (C / eps * eps == C)%Q) by (field; lra).
    rewrite E in Hceil. exact Hceil. }
  rewrite inject_Z_plus in Hb. change (inject_Z 1) with 1%Q in Hb.
  set (a := inject_Z (Z.of_nat n)) in *.
  assert (H1 : (p * C <= p * (a * eps))%Q).
  { apply Qmult_le_l; [exact Hp | exact HCe]. }
  assert (H2 : ((a + 1) * p * eps <= 1 * eps)%Q).
  { apply Qmult_le_compat_r; [exact Hb | lra]. }
  assert (H3 : (0 < p * eps)%Q) by (apply Qmult_lt_0_compat; assumption).
  assert (E : ((a + 1) * p * eps == p * (a * eps) + p * eps)%Q) by ring.
  rewrite E in H2. lra.
Qed.

(** One step on a constant input, from the second on: the error is
    multiplied by [1 - omega], up to the rounding of the step. *)
Lemma run32_ratio (st : spec_float * spec_float) (c : spec_float) (n : nat) :
  in_range32 (fst st) = true -> in_range32 (snd st) = true ->
  in_range32 c = true ->
  in_range32 (out32 st c (S n)) = true /\
  (Qabs ((F2Q (out32 st c (S (S n))) - F2Q c)
         - (1 - omega_exact) * (F2Q (out32 st c (S n)) - F2Q c))
     <= step_rounding)%Q.
Proof.
  intros Hy Hx Hc.
  destruct (run32_settles st c (F2Q c) n Hy Hx Hc (Qeq_refl _)) as (Hr & Hs & _).
  rewrite !filter_out_unfold. split; [exact Hr|].
  remember (run32 (S n) st c) as r eqn:Er.
  assert (E : run32 (S (S n)) st c = filter_step (H:=binary32) omega32 r c)
    by (rewrite Er; reflexivity).
  rewrite E. unfold filter_step. cbn [fst snd]. rewrite Hs.
  pose proof (lpf32_accuracy _ _ Hr Hc) as Ha.
  rewrite Exact.lpf_value in Ha.
  assert (Eo : (1 - omega_exact == 372 # 1000)%Q) by (vm_compute; reflexivity).
  rewrite Eo. unfold step_rounding.
  apply Qabs_Qle_condition in Ha. apply Qabs_Qle_condition. split; lra.
Qed.

Lemma run32_abs_ratio (st : spec_float * spec_float) (c : spec_float) (n : nat) :
  in_range32 (fst st) = true -> in_range32 (snd st) = true ->
  in_range32 c = true ->
  (Qabs (F2Q (out32 st c (S (S n))) - F2Q c)
     <= (1 - omega_exact) * Qabs (F2Q (out32 st c (S n)) - F2Q c) + step_rounding)%Q.
Proof.
  intros Hy Hx Hc. destruct (run32_ratio st c n Hy Hx Hc) as [_ Hr].
  assert (Eo : (1 - omega_exact == 372 # 1000)%Q) by (vm_compute; reflexivity).
  rewrite Eo in *. unfold step_rounding in *.
  set (e' := (F2Q (out32 st c (S (S n))) - F2Q c)%Q) in *.
  set (e := (F2Q (out32 st c (S n)) - F2Q c)%Q) in *.
  apply Qabs_Qle_condition in Hr.
  destruct (Qlt_le_dec e 0) as [Hneg | Hpos].
  - rewrite (Qabs_neg e) by lra. apply Qabs_Qle_condition. split; lra.
  - rewrite (Qabs_pos e) by lra. apply Qabs_Qle_condition. split; lra.
Qed.

(** The error is under a geometric envelope of ratio [1 - omega], above
    the rounding floor. *)
Lemma run32_envelope (st : spec_float * spec_float) (c : spec_float) (n : nat) :
  in_range32 (fst st) = true -> in_range32 (snd st) = true ->
  in_range32 c = true ->
  (Qabs (F2Q (out32 st c (S n)) - F2Q c)
     <= (1 - omega_exact) ^ Z.of_nat n * Qabs (F2Q (out32 st c 1) - F2Q c)
        + rounding_floor)%Q.
Proof.
  intros Hy Hx Hc.
  assert (HT : (0 <= rounding_floor)%Q) by (apply Qle_bool_iff; vm_compute; reflexivity).
  induction n as [|n IH].
  - change ((1 - omega_exact) ^ Z.of_nat 0)%Q with 1%Q. lra.
  - pose proof (run32_abs_ratio st c n Hy Hx Hc) as Hr.
    rewrite ratio_pow_succ. pose proof floor_balance as Hbal.
    assert (Eo : (1 - omega_exact == 372 # 1000)%Q) by (vm_compute; reflexivity).
    set (q := ((1 - omega_exact) ^ Z.of_nat n * Qabs (F2Q (out32 st c 1) - F2Q c))%Q) in *.
    assert (Eq' : ((1 - omega_exact) * (1 - omega_exact) ^ Z.of_nat n
                   * Qabs (F2Q (out32 st c 1) - F2Q c) == (1 - omega_exact) * q)%Q)
      by (unfold q; ring).
    rewrite Eq'. rewrite Eo in *. lra.
Qed.

(** The output ends within the rounding floor of the input. *)
Lemma run32_converges_within (st : spec_float * spec_float) (c : spec_float) :
  in_range32 (fst st) = true -> in_range32 (snd st) = true ->
  in_range32 c = true ->
  converges_within rounding_floor (fun n => F2Q (out32 st c n)) (F2Q c).
Proof.
  intros Hy Hx Hc eps Heps.
  destruct (ratio_pow_small (Qabs (F2Q (out32 st c 1) - F2Q c)) eps
              (Qabs_nonneg _) Heps) as [N HN].
  exists (S N). intros n Hn. destruct n as [|n]; [lia|].
  pose proof (run32_envelope st c n Hy Hx Hc) as He.
  pose proof (HN n ltac:(lia)) as Hs.
  cbv beta. lra.
Qed.

(** From the 20th step on the output is within [1/1024] of the input. *)
Lemma run32_close (st : spec_float * spec_float) (c : spec_float) (n : nat) :
  in_range32 (fst st) = true -> in_range32 (snd st) = true ->
  in_range32 c = true -> (20 <= n)%nat ->
  (Qabs (F2Q (out32 st c n) - F2Q c) <= 1 # 1024)%Q.
Proof.
  intros Hy Hx Hc Hn. destruct n as [|n]; [lia|].
  destruct (run32_settles st c (F2Q c) n Hy Hx Hc (Qeq_refl _)) as (_ & _ & He).
  rewrite filter_out_unfold.
  eapply Qle_trans; [exact He|]. apply settle_bound_small. lia.
Qed.

End SingleResponse.

(** ** The claim about the constant-input response *)

(** C3 (as stated, on the code). In single precision the output does not
    tend to the input for every constant input: from reset, on the
    constant sample 4094, the output stays at [4094 - 2^-12]. *)
Lemma C3_single_precision_stalls :
  ~ filter_converges (H:=binary32) IEEE.F2Q omega32
      Single.reset (@of_Z _ binary32 4094).
Proof.
  unfold filter_converges, converges_to. intros Hconv.
  destruct (Hconv (1 # 4096)%Q eq_refl) as [N HN].
  specialize (HN (Nat.max N 20) (Nat.le_max_l N 20)).
  rewrite SingleFacts.stuck_below_4094 in HN by apply Nat.le_max_r.
  vm_compute in HN. discriminate HN.
Qed.

(** C3 (amended). With [omega = 0.628], on a constant input.

    In exact arithmetic, for any initial filter state and any input [c]:
    from the second step on the error [y[n] - c] is multiplied by
    [1 - omega] at each step, the output tends to [c], and from the zero
    state the input 2048 gives 0, then [0.628 * 2048].

    In single precision, for any initial filter state [st32] and any
    input [c32] in the range of the samples (finite, between 0 and 4095):
    the outputs stay in that range; from the second step on the error is
    multiplied by [1 - omega] up to the rounding of one step, [7/16384];
    it stays under the geometric envelope
    [(1 - omega)^n * |y[1] - c32|] raised by the rounding floor
    [(7/16384) / omega]; the output ends within that floor of [c32],
    which is below [1/1024], and is within [1/1024] of [c32] from the
    20th step on. These are all the states the code reaches: after any
    activations from reset whose samples are in 0..4095 the filter
    statics are in the range.

    From reset, the input 2048 gives 0, then [omega * 2048] (within
    [10^-4] of [0.628 * 2048]), and exactly 2048 from the 18th step on;
    for every sample [k] of the 12-bit range the output is constant from
    the 20th step on, at a finite value in [k - 2^-12, k]. *)
Theorem C3_constant_input_response
    (st : Q * Q) (c : Q) (st32 : spec_float * spec_float) (c32 : spec_float)
    (acts : list activation) (k : Z) (n : nat) :
  Single.in_range32 (fst st32) = true ->
  Single.in_range32 (snd st32) = true ->
  Single.in_range32 c32 = true ->
  forallb sample_in_range acts = true ->
  0 <= k <= 4095 ->
  (omega_exact == 0.628)%Q /\
  (filter_out (H:=exact) omega_exact st c (S (S n)) - c ==
     (1 - omega_exact) * (filter_out (H:=exact) omega_exact st c (S n) - c))%Q /\
  (Qabs (filter_out (H:=exact) omega_exact st c (S (S n)) - c) ==
     (1 - omega_exact) * Qabs (filter_out (H:=exact) omega_exact st c (S n) - c))%Q /\
  filter_converges (H:=exact) (fun q => q) omega_exact st c /\
  (filter_out (H:=exact) omega_exact (0, 0) 2048 1 == 0)%Q /\
  (filter_out (H:=exact) omega_exact (0, 0) 2048 2 == 0.628 * 2048)%Q /\
  Single.in_range32 (Single.out32 st32 c32 (S n)) = true /\
  (Qabs ((IEEE.F2Q (Single.out32 st32 c32 (S (S n))) - IEEE.F2Q c32)
         - (1 - omega_exact) * (IEEE.F2Q (Single.out32 st32 c32 (S n)) - IEEE.F2Q c32))
     <= step_rounding)%Q /\
  (Qabs (IEEE.F2Q (Single.out32 st32 c32 (S (S n))) - IEEE.F2Q c32)
     <= (1 - omega_exact) * Qabs (IEEE.F2Q (Single.out32 st32 c32 (S n)) - IEEE.F2Q c32)
        + step_rounding)%Q /\
  (Qabs (IEEE.F2Q (Single.out32 st32 c32 (S n)) - IEEE.F2Q c32)
     <= (1 - omega_exact) ^ Z.of_nat n
          * Qabs (IEEE.F2Q (Single.out32 st32 c32 1) - IEEE.F2Q c32)
        + rounding_floor)%Q /\
  converges_within rounding_floor
    (fun i => IEEE.F2Q (Single.out32 st32 c32 i)) (IEEE.F2Q c32) /\
  (rounding_floor < 1 # 1024)%Q /\
  ((20 <= n)%nat ->
   (Qabs (IEEE.F2Q (Single.out32 st32 c32 n) - IEEE.F2Q c32) <= 1 # 1024)%Q) /\
  (exists s' evs,
     run (H:=binary32) omega32 acts Single.init32 = Some (s', evs) /\
     Single.in_range32 (y_prev s') = true /\
     Single.in_range32 (x_prev s') = true) /\
  Single.out32 Single.reset (Single.of_Z32 2048) 1 = S754_zero false /\
  Single.out32 Single.reset (Single.of_Z32 2048) 2 =
    @fmul _ binary32 omega32 (Single.of_Z32 2048) /\
  (Qabs (IEEE.F2Q (Single.out32 Single.reset (Single.of_Z32 2048) 2) - 0.628 * 2048)
     <= 1 # 10000)%Q /\
  ((18 <= n)%nat ->
   Single.out32 Single.reset (Single.of_Z32 2048) n = Single.of_Z32 2048) /\
  ((20 <= n)%nat ->
   Single.out32 Single.reset (Single.of_Z32 k) n =
     Single.out32 Single.reset (Single.of_Z32 k) 20 /\
   IEEE.is_finite (Single.out32 Single.reset (Single.of_Z32 k) n) = true /\
   (inject_Z k - (1 # 4096)
      <= IEEE.F2Q (Single.out32 Single.reset (Single.of_Z32 k) n)
      <= inject_Z k)%Q).
Proof.
  intros Hy Hx Hc Hacts Hk.
  split; [apply Exact.omega_value|].
  assert (Hr : (1 - 0.628 == 1 - omega_exact)%Q) by (vm_compute; reflexivity).
  split.
  { eapply Qeq_trans; [apply Exact.error_ratio|].
    apply Qmult_comp; [exact Hr | apply Qeq_refl]. }
  split.
  { eapply Qeq_trans; [apply Exact.error_abs_ratio|].
    apply Qmult_comp; [exact Hr | apply Qeq_refl]. }
  split; [apply Exact.converges|].
  split; [reflexivity|]. split; [reflexivity|].
  destruct (SingleResponse.run32_ratio st32 c32 n Hy Hx Hc) as [Hrange Hratio].
  split; [exact Hrange|]. split; [exact Hratio|].
  split; [exact (SingleResponse.run32_abs_ratio st32 c32 n Hy Hx Hc)|].
  split; [exact (SingleResponse.run32_envelope st32 c32 n Hy Hx Hc)|].
  split; [exact (SingleResponse.run32_converges_within st32 c32 Hy Hx Hc)|].
  split; [exact SingleResponse.floor_below|].
  split; [intros Hn; exact (SingleResponse.run32_close st32 c32 n Hy Hx Hc Hn)|].
  split.
  { assert (Hi : inv32 Single.init32).
    { split; [exact init_in_bounds|]. split; reflexivity. }
    destruct (SingleRun.run32_invariant acts Single.init32 Hi Hacts)
      as (s' & evs & Hrun & (_ & Hy' & Hx') & _).
    exists s', evs. split; [exact Hrun|]. split; [exact Hy' | exact Hx']. }
  split; [apply SingleFacts.scenario_first|].
  split; [apply SingleFacts.scenario_second|].
  split; [rewrite SingleFacts.scenario_second; vm_compute; discriminate|].
  split; [apply SingleFacts.scenario_settled|].
  intros Hn. apply SingleFacts.settled_output; assumption.
Qed.

Lemma C3_witness :
  Single.in_range32 (fst (Single.of_Z32 4095, Single.of_Z32 4095)) = true /\
  Single.in_range32 (snd (Single.of_Z32 4095, Single.of_Z32 4095)) = true /\
  Single.in_range32 (Single.of_Z32 0) = true /\
  forallb sample_in_range [adc_tick 1 4095; display_tick 1; adc_tick 1 0] = true /\
  0 <= 4094 <= 4095 /\
  (Qabs (IEEE.F2Q (Single.out32 (Single.of_Z32 4095, Single.of_Z32 4095)
                     (Single.of_Z32 0) 25)
         - IEEE.F2Q (Single.of_Z32 0)) <= 1 # 1024)%Q /\
  Single.out32 Single.reset (Single.of_Z32 2048) 25 = Single.of_Z32 2048 /\
  (inject_Z 4094 - (1 # 4096)
     <= IEEE.F2Q (Single.out32 Single.reset (Single.of_Z32 4094) 25)
     <= inject_Z 4094)%Q.
Proof.
  assert (Hk : 0 <= 4094 <= 4095) by lia.
  split; [reflexivity|]. split; [reflexivity|]. split; [reflexivity|].
  split; [reflexivity|]. split; [exact Hk|].
  destruct (C3_constant_input_response (0, 0)%Q 2048%Q
              (Single.of_Z32 4095, Single.of_Z32 4095) (Single.of_Z32 0)
              [adc_tick 1 4095; display_tick 1; adc_tick 1 0] 4094 25
              eq_refl eq_refl eq_refl eq_refl Hk)
    as (_ & _ & _ & _ & _ & _ & _ & _ & _ & _ & _ & _ & Hclose & _ & _ & _ & _ & H18 & H20).
  split; [apply Hclose; lia|].
  split; [apply H18; lia|]. apply H20. lia.
Defined.

(** ** The configuration code *)

Module ConfigFacts.

Import Config.

(** *** Bits *)

Lemma land_bit (v n : Z) :
  0 <= n -> Z.land v (Z.shiftl 1 n) = if Z.testbit v n then 2 ^ n else 0.
Proof.
  intros Hn. rewrite Z.shiftl_1_l. apply Z.bits_inj'. intros i Hi.
  rewrite Z.land_spec, Z.pow2_bits_eqb by exact Hn.
  destruct (Z.eqb_spec n i) as [-> | Hne].
  - destruct (Z.testbit v i) eqn:E.
    + rewrite Z.pow2_bits_true by exact Hi. reflexivity.
    + rewrite Z.bits_0. reflexivity.
  - rewrite andb_false_r. destruct (Z.testbit v n).
    + rewrite Z.pow2_bits_false by congruence. reflexivity.
    + rewrite Z.bits_0. reflexivity.
Qed.

(** The loop condition tests bit 7 of the reading, SYNCBUSY. *)
Lemma sync_busy_bit (v : Z) : sync_busy v = Z.testbit v 7.
Proof.
  unfold sync_busy. rewrite land_bit by lia.
  destruct (Z.testbit v 7); reflexivity.
Qed.

Lemma set_bit_spec (v n i : Z) :
  0 <= n ->
  Z.testbit (Z.lor v (Z.shiftl 1 n)) i = if i =? n then true else Z.testbit v i.
Proof.
  intros Hn. rewrite Z.lor_spec, Z.shiftl_1_l, Z.pow2_bits_eqb by exact Hn.
  rewrite (Z.eqb_sym n i). destruct (i =? n).
  - apply orb_true_r.
  - apply orb_false_r.
Qed.

Lemma clear_bit_spec (v n i : Z) :
  0 <= n ->
  Z.testbit (Z.land v (Z.lnot (Z.shiftl 1 n))) i =
    if i =? n then false else Z.testbit v i.
Proof.
  intros Hn. destruct (Z.ltb_spec i 0) as [Hneg | Hi].
  - rewrite !Z.testbit_neg_r by exact Hneg.
    destruct (Z.eqb_spec i n); [lia | reflexivity].
  - rewrite Z.land_spec, Z.lnot_spec, Z.shiftl_1_l, Z.pow2_bits_eqb by assumption.
    rewrite (Z.eqb_sym n i). destruct (i =? n).
    + apply andb_false_r.
    + apply andb_true_r.
Qed.

(** *** The polling loop *)

Lemma synced_spec (polls : list Z) (ready : Z) :
  synced polls ready = true <->
  Forall (fun v => sync_busy v = true) polls /\ sync_busy ready = false.
Proof.
  unfold synced. rewrite andb_true_iff, negb_true_iff.
  assert (Hall : forallb sync_busy polls = true <->
                 Forall (fun v => sync_busy v = true) polls).
  { induction polls as [|v vs IH]; cbn [forallb].
    - split; [constructor | reflexivity].
    - rewrite andb_true_iff, IH. split.
      + intros [Hv Hvs]. constructor; assumption.
      + intros Hf. inversion Hf; subst. auto. }
  tauto.
Qed.

Lemma poll_ready (r : reg) (vs : list Z) (ready : Z) (rest : list Z) :
  synced vs ready = true ->
  poll r (vs ++ ready :: rest) = ((rd r <$> vs) ++ [rd r ready], Some rest).
Proof.
  intros Hs. apply synced_spec in Hs. destruct Hs as [Hvs Hready].
  induction Hvs as [|v vs Hv _ IH].
  - cbn [app poll fmap list_fmap]. rewrite Hready. reflexivity.
  - cbn [app poll fmap list_fmap]. rewrite Hv, IH. reflexivity.
Qed.

Lemma poll_busy (r : reg) (vs : list Z) :
  forallb sync_busy vs = true -> poll r vs = (rd r <$> vs, None).
Proof.
  induction vs as [|v vs IH]; [reflexivity|].
  cbn [forallb]. rewrite andb_true_iff. intros [Hv Hvs].
  cbn [poll fmap list_fmap]. rewrite Hv, (IH Hvs). reflexivity.
Qed.

Lemma poll_inv (r : reg) (vs : list Z) (tr : list access) (rest : list Z) :
  poll r vs = (tr, Some rest) ->
  exists pre ready, vs = pre ++ ready :: rest /\ synced pre ready = true.
Proof.
  revert tr. induction vs as [|v vs IH]; intros tr; [discriminate|].
  cbn [poll]. destruct (sync_busy v) eqn:Ev.
  - destruct (poll r vs) as [tr' [rest'|]] eqn:E; [|discriminate].
    intros [= <- <-]. destruct (IH tr' eq_refl) as (pre & ready & -> & Hs).
    exists (v :: pre), ready. split; [reflexivity|].
    unfold synced in *. cbn [forallb]. rewrite Ev. exact Hs.
  - intros [= <- <-]. exists [], v. split; [reflexivity|].
    unfold synced. cbn [forallb]. rewrite Ev. reflexivity.
Qed.

(** *** The functions on the feeds that let them return *)

Ltac io_unfold :=
  cbv beta iota zeta delta
    [enable_adc_timer disable_adc_timer configure_adc_interrupt enable_adc_tc_clocks
     enable_display_timer disable_display_timer configure_display_interrupt
     enable_display_tc_clocks main
     bind ret load store extern deref set_adc_timer set_disp_timer wait_sync
     set_bits mask_bits log timer6_8 timer7_16
     disp_timer adc_timer feed trace config_feed
     r_apbcmask r_clkctrl r_ctrla r_polls r_ready r_ctrla2 r_iser r_intenset
     r_intflag].

Ltac io_run Hs :=
  io_unfold; rewrite (poll_ready _ _ _ _ Hs); io_unfold;
  rewrite <- ?app_assoc; reflexivity.

Lemma enable_adc_timer_run (m : machine) (t : timer)
    (polls : list Z) (ready ctrl : Z) (rest : list Z) :
  adc_timer m = Some t ->
  feed m = polls ++ ready :: ctrl :: rest ->
  synced polls ready = true ->
  enable_adc_timer m =
    Done tt {| disp_timer := disp_timer m; adc_timer := Some t; feed := rest;
               trace := trace m ++ enable_trace t polls ready ctrl |}.
Proof.
  destruct m as [dt at_ fd tr]. cbn [adc_timer feed disp_timer trace].
  intros -> -> Hs. unfold enable_trace. io_run Hs.
Qed.

Lemma enable_display_timer_run (m : machine) (t : timer)
    (polls : list Z) (ready ctrl : Z) (rest : list Z) :
  disp_timer m = Some t ->
  feed m = polls ++ ready :: ctrl :: rest ->
  synced polls ready = true ->
  enable_display_timer m =
    Done tt {| disp_timer := Some t; adc_timer := adc_timer m; feed := rest;
               trace := trace m ++ enable_trace t polls ready ctrl |}.
Proof.
  destruct m as [dt at_ fd tr]. cbn [adc_timer feed disp_timer trace].
  intros -> -> Hs. unfold enable_trace. io_run Hs.
Qed.

Lemma disable_adc_timer_run (m : machine) (t : timer)
    (ctrl : Z) (polls : list Z) (ready : Z) (rest : list Z) :
  adc_timer m = Some t ->
  feed m = ctrl :: polls ++ ready :: rest ->
  synced polls ready = true ->
  disable_adc_timer m =
    Done tt {| disp_timer := disp_timer m; adc_timer := Some t; feed := rest;
               trace := trace m ++ disable_trace t ctrl polls ready |}.
Proof.
  destruct m as [dt at_ fd tr]. cbn [adc_timer feed disp_timer trace].
  intros -> -> Hs. unfold disable_trace. io_run Hs.
Qed.

Lemma disable_display_timer_run (m : machine) (t : timer)
    (ctrl : Z) (polls : list Z) (ready : Z) (rest : list Z) :
  disp_timer m = Some t ->
  feed m = ctrl :: polls ++ ready :: rest ->
  synced polls ready = true ->
  disable_display_timer m =
    Done tt {| disp_timer := Some t; adc_timer := adc_timer m; feed := rest;
               trace := trace m ++ disable_trace t ctrl polls ready |}.
Proof.
  destruct m as [dt at_ fd tr]. cbn [adc_timer feed disp_timer trace].
  intros -> -> Hs. unfold disable_trace. io_run Hs.
Qed.

Lemma configure_adc_interrupt_run (m : machine) (q : config_reads) (rest : list Z) :
  feed m = config_feed q ++ rest ->
  synced (r_polls q) (r_ready q) = true ->
  configure_adc_interrupt m =
    Done tt {| disp_timer := disp_timer m; adc_timer := Some TC6; feed := rest;
               trace := trace m ++ adc_config_trace q |}.
Proof.
  destruct m as [dt at_ fd tr]. destruct q as [a c k polls ready k2 i e f].
  cbn [adc_timer feed disp_timer trace r_polls r_ready].
  intros -> Hs. unfold adc_config_trace. io_unfold.
  cbn [app]. rewrite <- app_assoc. cbn [app]. io_run Hs.
Qed.

Lemma configure_display_interrupt_run (m : machine) (q : config_reads)
    (rest : list Z) :
  feed m = config_feed q ++ rest ->
  synced (r_polls q) (r_ready q) = true ->
  configure_display_interrupt m =
    Done tt {| disp_timer := Some TC7; adc_timer := adc_timer m; feed := rest;
               trace := trace m ++ display_config_trace q |}.
Proof.
  destruct m as [dt at_ fd tr]. destruct q as [a c k polls ready k2 i e f].
  cbn [adc_timer feed disp_timer trace r_polls r_ready].
  intros -> Hs. unfold display_config_trace. io_unfold.
  cbn [app]. rewrite <- app_assoc. cbn [app]. io_run Hs.
Qed.

(** *** When the synchronisation never ends *)

Lemma enable_adc_timer_stuck (m : machine) (t : timer) :
  adc_timer m = Some t -> forallb sync_busy (feed m) = true ->
  enable_adc_timer m =
    Starved {| disp_timer := disp_timer m; adc_timer := Some t; feed := [];
               trace := trace m ++ (rd (STATUS t) <$> feed m) |}.
Proof.
  destruct m as [dt at_ fd tr]. cbn [adc_timer feed disp_timer trace].
  intros -> Hb. io_unfold. rewrite (poll_busy _ _ Hb). reflexivity.
Qed.

Lemma enable_display_timer_stuck (m : machine) (t : timer) :
  disp_timer m = Some t -> forallb sync_busy (feed m) = true ->
  enable_display_timer m =
    Starved {| disp_timer := Some t; adc_timer := adc_timer m; feed := [];
               trace := trace m ++ (rd (STATUS t) <$> feed m) |}.
Proof.
  destruct m as [dt at_ fd tr]. cbn [adc_timer feed disp_timer trace].
  intros -> Hb. io_unfold. rewrite (poll_busy _ _ Hb). reflexivity.
Qed.

Lemma disable_adc_timer_stuck (m : machine) (t : timer) (ctrl : Z) (vs : list Z) :
  adc_timer m = Some t -> feed m = ctrl :: vs -> forallb sync_busy vs = true ->
  disable_adc_timer m =
    Starved {| disp_timer := disp_timer m; adc_timer := Some t; feed := [];
               trace := trace m ++
                 [rd (CTRLA t) ctrl; wr (CTRLA t) (Z.land ctrl (Z.lnot (Z.shiftl 1 1)))] ++
                 (rd (STATUS t) <$> vs) |}.
Proof.
  destruct m as [dt at_ fd tr]. cbn [adc_timer feed disp_timer trace].
  intros -> -> Hb. io_unfold. rewrite (poll_busy _ _ Hb). io_unfold.
  rewrite <- !app_assoc. reflexivity.
Qed.

Lemma disable_display_timer_stuck (m : machine) (t : timer) (ctrl : Z) (vs : list Z) :
  disp_timer m = Some t -> feed m = ctrl :: vs -> forallb sync_busy vs = true ->
  disable_display_timer m =
    Starved {| disp_timer := Some t; adc_timer := adc_timer m; feed := [];
               trace := trace m ++
                 [rd (CTRLA t) ctrl; wr (CTRLA t) (Z.land ctrl (Z.lnot (Z.shiftl 1 1)))] ++
                 (rd (STATUS t) <$> vs) |}.
Proof.
  destruct m as [dt at_ fd tr]. cbn [adc_timer feed disp_timer trace].
  intros -> -> Hb. io_unfold. rewrite (poll_busy _ _ Hb). io_unfold.
  rewrite <- !app_assoc. reflexivity.
Qed.

(** A call that returns found the synchronisation over at some poll. *)
Lemma enable_adc_timer_inv (m m' : machine) :
  enable_adc_timer m = Done tt m' ->
  exists t polls ready ctrl rest,
    adc_timer m = Some t /\ feed m = polls ++ ready :: ctrl :: rest /\
    synced polls ready = true.
Proof.
  destruct m as [dt at_ fd tr]. io_unfold. destruct at_ as [t|]; [|discriminate].
  destruct (poll (STATUS t) fd) as [ptr [rest|]] eqn:E; [|discriminate].
  destruct (poll_inv _ _ _ _ E) as (polls & ready & -> & Hs).
  destruct rest as [|ctrl rest]; [discriminate|]. intros _.
  exists t, polls, ready, ctrl, rest. auto.
Qed.

Lemma enable_display_timer_inv (m m' : machine) :
  enable_display_timer m = Done tt m' ->
  exists t polls ready ctrl rest,
    disp_timer m = Some t /\ feed m = polls ++ ready :: ctrl :: rest /\
    synced polls ready = true.
Proof.
  destruct m as [dt at_ fd tr]. io_unfold. destruct dt as [t|]; [|discriminate].
  destruct (poll (STATUS t) fd) as [ptr [rest|]] eqn:E; [|discriminate].
  destruct (poll_inv _ _ _ _ E) as (polls & ready & -> & Hs).
  destruct rest as [|ctrl rest]; [discriminate|]. intros _.
  exists t, polls, ready, ctrl, rest. auto.
Qed.

Lemma disable_adc_timer_inv (m m' : machine) :
  disable_adc_timer m = Done tt m' ->
  exists t ctrl polls ready rest,
    adc_timer m = Some t /\ feed m = ctrl :: polls ++ ready :: rest /\
    synced polls ready = true.
Proof.
  destruct m as [dt at_ fd tr]. io_unfold. destruct at_ as [t|]; [|discriminate].
  destruct fd as [|ctrl fd]; [discriminate|]. io_unfold.
  destruct (poll (STATUS t) fd) as [ptr [rest|]] eqn:E; [|discriminate].
  destruct (poll_inv _ _ _ _ E) as (polls & ready & -> & Hs). intros _.
  exists t, ctrl, polls, ready, rest. auto.
Qed.

Lemma disable_display_timer_inv (m m' : machine) :
  disable_display_timer m = Done tt m' ->
  exists t ctrl polls ready rest,
    disp_timer m = Some t /\ feed m = ctrl :: polls ++ ready :: rest /\
    synced polls ready = true.
Proof.
  destruct m as [dt at_ fd tr]. io_unfold. destruct dt as [t|]; [|discriminate].
  destruct fd as [|ctrl fd]; [discriminate|]. io_unfold.
  destruct (poll (STATUS t) fd) as [ptr [rest|]] eqn:E; [|discriminate].
  destruct (poll_inv _ _ _ _ E) as (polls & ready & -> & Hs). intros _.
  exists t, ctrl, polls, ready, rest. auto.
Qed.

(** *** Registers that hold what was written *)

Lemma replay_app (tr1 tr2 : list access) (rf : regfile) :
  replay (tr1 ++ tr2) rf = replay tr2 (replay tr1 rf).
Proof.
  revert rf. induction tr1 as [|[r v | r v | d args] tr1 IH]; intros rf;
    cbn [app replay]; auto.
Qed.

Lemma coherent_app (rf : regfile) (tr1 tr2 : list access) :
  coherent rf (tr1 ++ tr2) = coherent rf tr1 && coherent (replay tr1 rf) tr2.
Proof.
  revert rf. induction tr1 as [|[r v | r v | d args] tr1 IH]; intros rf;
    cbn [app replay coherent]; auto.
  rewrite IH, andb_assoc. reflexivity.
Qed.

Lemma replay_polls (t : timer) (vs : list Z) (rf : regfile) :
  replay (rd (STATUS t) <$> vs) rf = rf.
Proof. induction vs as [|v vs IH]; [reflexivity | exact IH]. Qed.

Lemma coherent_polls (t : timer) (vs : list Z) (rf : regfile) :
  coherent rf (rd (STATUS t) <$> vs) = true.
Proof. induction vs as [|v vs IH]; [reflexivity | exact IH]. Qed.

Ltac regs_unfold_in H :=
  cbv beta iota zeta delta
    [coherent replay update reg_eqb holds_writes andb app timer_of] in H.

Ltac eqb_split H :=
  repeat match type of H with
         | (if ?x =? ?y then _ else _) = true =>
             destruct (Z.eqb_spec x y); [|discriminate H]
         end.

Lemma adc_config_reads (rf : regfile) (q : config_reads) :
  coherent rf (adc_config_trace q) = true ->
  r_apbcmask q = rf APBCMASK /\ r_clkctrl q = 0x16 /\ r_ctrla q = rf (CTRLA TC6) /\
  r_ctrla2 q = Z.land (r_ctrla q) (Z.lnot (Z.shiftl 1 1)) /\
  r_iser q = rf ISER0 /\ r_intenset q = rf (INTENSET TC6).
Proof.
  destruct q as [a c k polls ready k2 i e f].
  unfold adc_config_trace. cbn [r_apbcmask r_clkctrl r_ctrla r_polls r_ready
    r_ctrla2 r_iser r_intenset r_intflag].
  rewrite !coherent_app, replay_polls, coherent_polls.
  rewrite !andb_true_iff. intros [H1 [_ H2]].
  regs_unfold_in H1. regs_unfold_in H2.
  eqb_split H1. eqb_split H2. repeat split; assumption.
Qed.

Lemma display_config_reads (rf : regfile) (q : config_reads) :
  coherent rf (display_config_trace q) = true ->
  r_apbcmask q = rf APBCMASK /\ r_clkctrl q = 0x16 /\ r_ctrla q = rf (CTRLA TC7) /\
  r_ctrla2 q = Z.land (r_ctrla q) (Z.lnot (Z.shiftl 1 1)) /\
  r_iser q = rf ISER0 /\ r_intenset q = rf (INTENSET TC7).
Proof.
  destruct q as [a c k polls ready k2 i e f].
  unfold display_config_trace. cbn [r_apbcmask r_clkctrl r_ctrla r_polls r_ready
    r_ctrla2 r_iser r_intenset r_intflag].
  rewrite !coherent_app, replay_polls, coherent_polls.
  rewrite !andb_true_iff. intros [H1 [_ H2]].
  regs_unfold_in H1. regs_unfold_in H2.
  eqb_split H1. eqb_split H2. repeat split; assumption.
Qed.

(** The register file after [configure_adc_interrupt]. *)
Lemma adc_config_effect (rf : regfile) (q : config_reads) :
  coherent rf (adc_config_trace q) = true ->
  forall r,
    replay (adc_config_trace q) rf r =
      match r with
      | APBCMASK => Z.lor (rf APBCMASK) (Z.shiftl 1 14)
      | CLKCTRL => 0x4016
      | ISER0 => Z.lor (rf ISER0) (Z.shiftl 1 19)
      | CTRLA TC6 => Z.lor (Z.land (rf (CTRLA TC6)) (Z.lnot (Z.shiftl 1 1))) 0x1344
      | PER TC6 => 249
      | CC0 TC6 => 1
      | INTENSET TC6 => Z.lor (rf (INTENSET TC6)) 1
      | INTFLAG TC6 => Z.lor (r_intflag q) 1
      | _ => rf r
      end.
Proof.
  intros Hc r. destruct (adc_config_reads _ _ Hc) as (Ea & Ec & Ek & Ek2 & Ei & Ee).
  destruct q as [a c k polls ready k2 i e f].
  cbn [r_apbcmask r_clkctrl r_ctrla r_polls r_ready
       r_ctrla2 r_iser r_intenset r_intflag] in *. subst a c k k2 i e.
  unfold adc_config_trace. cbn [r_apbcmask r_clkctrl r_ctrla r_polls r_ready
    r_ctrla2 r_iser r_intenset r_intflag].
  rewrite !replay_app, replay_polls.
  destruct r as [| | | [|] | [|] | [|] | [|] | [|] | [|]]; reflexivity.
Qed.

Lemma display_config_effect (rf : regfile) (q : config_reads) :
  coherent rf (display_config_trace q) = true ->
  forall r,
    replay (display_config_trace q) rf r =
      match r with
      | APBCMASK => Z.lor (rf APBCMASK) (Z.shiftl 1 15)
      | CLKCTRL => 0x4016
      | ISER0 => Z.lor (rf ISER0) (Z.shiftl 1 20)
      | CTRLA TC7 => Z.lor (Z.land (rf (CTRLA TC7)) (Z.lnot (Z.shiftl 1 1))) 0x1520
      | CC0 TC7 => 0x50
      | INTENSET TC7 => Z.lor (rf (INTENSET TC7)) 1
      | INTFLAG TC7 => Z.lor (r_intflag q) 1
      | _ => rf r
      end.
Proof.
  intros Hc r. destruct (display_config_reads _ _ Hc) as (Ea & Ec & Ek & Ek2 & Ei & Ee).
  destruct q as [a c k polls ready k2 i e f].
  cbn [r_apbcmask r_clkctrl r_ctrla r_polls r_ready
       r_ctrla2 r_iser r_intenset r_intflag] in *. subst a c k k2 i e.
  unfold display_config_trace. cbn [r_apbcmask r_clkctrl r_ctrla r_polls r_ready
    r_ctrla2 r_iser r_intenset r_intflag].
  rewrite !replay_app, replay_polls.
  destruct r as [| | | [|] | [|] | [|] | [|] | [|] | [|]]; reflexivity.
Qed.

(** Enabling a timer whose CTRLA holds what was written. *)
Lemma enable_effect (rf : regfile) (t : timer) (polls : list Z) (ready ctrl : Z) :
  coherent rf (enable_trace t polls ready ctrl) = true ->
  forall r,
    replay (enable_trace t polls ready ctrl) rf r =
      if reg_eqb r (CTRLA t) then Z.lor (rf (CTRLA t)) (Z.shiftl 1 1) else rf r.
Proof.
  unfold enable_trace. rewrite coherent_app, replay_polls, coherent_polls.
  cbn [andb]. intros Hc r. regs_unfold_in Hc. eqb_split Hc. subst ctrl.
  rewrite replay_app, replay_polls. reflexivity.
Qed.

(** *** The rules of the triples *)

Lemma triple_bind {A B : Type} (P : machine -> Prop) (c : io A) (k : A -> io B)
    (Q : A -> machine -> Prop) (Q' : B -> machine -> Prop) (R : machine -> Prop) :
  triple P c Q R -> (forall a, triple (Q a) (k a) Q' R) ->
  triple P (bind c k) Q' R.
Proof.
  intros Hc Hk m Hm. unfold bind. specialize (Hc m Hm).
  destruct (c m) as [a m' | m' | m']; [exact (Hk a m' Hc) | exact Hc | exact Hc].
Qed.

Lemma triple_last {A : Type} (P : machine -> Prop) (c : io A)
    (Q : A -> machine -> Prop) (R : machine -> Prop) :
  triple P (bind c ret) Q R -> triple P c Q R.
Proof.
  intros Hc m Hm. specialize (Hc m Hm). unfold bind, ret in Hc.
  destruct (c m); exact Hc.
Qed.

Lemma triple_ret {A : Type} (P : machine -> Prop) (a : A)
    (Q : A -> machine -> Prop) (R : machine -> Prop) :
  (forall m, P m -> Q a m) -> triple P (ret a) Q R.
Proof. intros HQ m Hm. exact (HQ m Hm). Qed.

Section Within.

(** The accesses allowed, and the trace at the start. *)
Variable ok : access -> Prop.
Variable tr0 : list access.

Local Abbreviation traced := (Config.traced ok tr0).
Local Abbreviation within := (Config.within ok tr0).

Lemma traced_log (a : access) (m : machine) :
  ok a -> traced m -> traced (log a m).
Proof.
  intros Ha (tr & E & Hall). exists (tr ++ [a]). cbn [log trace].
  rewrite E, app_assoc. split; [reflexivity|].
  apply Forall_app. split; [exact Hall | repeat constructor; exact Ha].
Qed.

Lemma traced_app (m : machine) (tr' : list access) (fd : list Z) :
  Forall ok tr' -> traced m ->
  traced {| disp_timer := disp_timer m; adc_timer := adc_timer m;
            feed := fd; trace := trace m ++ tr' |}.
Proof.
  intros Hok (tr & E & Hall). exists (tr ++ tr'). cbn [trace].
  rewrite E, app_assoc. split; [reflexivity|].
  apply Forall_app. split; assumption.
Qed.

Variables (A : Type) (Q : A -> machine -> Prop).

Lemma triple_load (ap dp : option timer) (r : reg) (k : Z -> io A) :
  (forall v, ok (rd r v)) ->
  (forall v, triple (within ap dp) (k v) Q traced) ->
  triple (within ap dp) (bind (load r) k) Q traced.
Proof.
  intros Hok Hk m (Ha & Hd & Ht). unfold bind, load.
  destruct (feed m) as [|v rest]; [exact Ht|].
  apply Hk. split; [exact Ha|]. split; [exact Hd|].
  exact (traced_app m [rd r v] rest ltac:(repeat constructor; apply Hok) Ht).
Qed.

Lemma triple_store (ap dp : option timer) (r : reg) (v : Z) (k : unit -> io A) :
  ok (wr r v) ->
  triple (within ap dp) (k tt) Q traced ->
  triple (within ap dp) (bind (store r v) k) Q traced.
Proof.
  intros Hok Hk m (Ha & Hd & Ht). unfold bind, store.
  apply Hk. split; [exact Ha|]. split; [exact Hd|]. apply traced_log; assumption.
Qed.

Lemma triple_extern (ap dp : option timer) (d : driver) (args : list Z)
    (k : unit -> io A) :
  ok (call d args) ->
  triple (within ap dp) (k tt) Q traced ->
  triple (within ap dp) (bind (extern d args) k) Q traced.
Proof.
  intros Hok Hk m (Ha & Hd & Ht). unfold bind, extern.
  apply Hk. split; [exact Ha|]. split; [exact Hd|]. apply traced_log; assumption.
Qed.

Lemma triple_set_bits (ap dp : option timer) (r : reg) (bits : Z)
    (k : unit -> io A) :
  (forall v, ok (rd r v)) -> (forall v, ok (wr r v)) ->
  triple (within ap dp) (k tt) Q traced ->
  triple (within ap dp) (bind (set_bits r bits) k) Q traced.
Proof.
  intros Hrd Hwr Hk m (Ha & Hd & Ht). unfold set_bits. unfold bind, load, store.
  destruct (feed m) as [|v rest]; [exact Ht|].
  apply Hk. split; [exact Ha|]. split; [exact Hd|].
  apply traced_log; [apply Hwr|].
  exact (traced_app m [rd r v] rest ltac:(repeat constructor; apply Hrd) Ht).
Qed.

Lemma triple_mask_bits (ap dp : option timer) (r : reg) (bits : Z)
    (k : unit -> io A) :
  (forall v, ok (rd r v)) -> (forall v, ok (wr r v)) ->
  triple (within ap dp) (k tt) Q traced ->
  triple (within ap dp) (bind (mask_bits r bits) k) Q traced.
Proof.
  intros Hrd Hwr Hk m (Ha & Hd & Ht). unfold mask_bits. unfold bind, load, store.
  destruct (feed m) as [|v rest]; [exact Ht|].
  apply Hk. split; [exact Ha|]. split; [exact Hd|].
  apply traced_log; [apply Hwr|].
  exact (traced_app m [rd r v] rest ltac:(repeat constructor; apply Hrd) Ht).
Qed.

Lemma triple_deref_adc (t : timer) (dp : option timer) (k : timer -> io A) :
  triple (within (Some t) dp) (k t) Q traced ->
  triple (within (Some t) dp) (bind (deref adc_timer) k) Q traced.
Proof.
  intros Hk m Hm. unfold bind, deref. destruct Hm as (Ha & Hd & Ht).
  rewrite Ha. apply Hk. split; [exact Ha|]. split; [exact Hd | exact Ht].
Qed.

Lemma triple_deref_disp (ap : option timer) (t : timer) (k : timer -> io A) :
  triple (within ap (Some t)) (k t) Q traced ->
  triple (within ap (Some t)) (bind (deref disp_timer) k) Q traced.
Proof.
  intros Hk m Hm. unfold bind, deref. destruct Hm as (Ha & Hd & Ht).
  rewrite Hd. apply Hk. split; [exact Ha|]. split; [exact Hd | exact Ht].
Qed.

Lemma triple_set_adc (ap dp : option timer) (t : timer) (k : unit -> io A) :
  triple (within (Some t) dp) (k tt) Q traced ->
  triple (within ap dp) (bind (set_adc_timer t) k) Q traced.
Proof.
  intros Hk m (Ha & Hd & Ht). unfold bind, set_adc_timer.
  apply Hk. split; [reflexivity|]. split; [exact Hd | exact Ht].
Qed.

Lemma triple_set_disp (ap dp : option timer) (t : timer) (k : unit -> io A) :
  triple (within ap (Some t)) (k tt) Q traced ->
  triple (within ap dp) (bind (set_disp_timer t) k) Q traced.
Proof.
  intros Hk m (Ha & Hd & Ht). unfold bind, set_disp_timer.
  apply Hk. split; [exact Ha|]. split; [reflexivity | exact Ht].
Qed.

Lemma poll_reads (r : reg) (vs : list Z) :
  (forall v, ok (rd r v)) -> Forall ok (fst (poll r vs)).
Proof.
  intros Hok. induction vs as [|v vs IH]; [constructor|].
  cbn [poll]. destruct (sync_busy v).
  - destruct (poll r vs) as [tr more]. cbn [fst] in *.
    constructor; [apply Hok | exact IH].
  - repeat constructor. apply Hok.
Qed.

Lemma triple_wait_adc (t : timer) (dp : option timer) (k : unit -> io A) :
  (forall v, ok (rd (STATUS t) v)) ->
  triple (within (Some t) dp) (k tt) Q traced ->
  triple (within (Some t) dp) (bind (wait_sync adc_timer) k) Q traced.
Proof.
  intros Hok Hk m (Ha & Hd & Ht). unfold wait_sync. unfold bind, deref. cbv beta. rewrite Ha.
  pose proof (poll_reads (STATUS t) (feed m) Hok) as Hp.
  destruct (poll (STATUS t) (feed m)) as [tr [rest|]]; cbn [fst] in Hp.
  - apply Hk. split; [exact Ha|]. split; [exact Hd|]. apply traced_app; assumption.
  - apply traced_app; assumption.
Qed.

Lemma triple_wait_disp (ap : option timer) (t : timer) (k : unit -> io A) :
  (forall v, ok (rd (STATUS t) v)) ->
  triple (within ap (Some t)) (k tt) Q traced ->
  triple (within ap (Some t)) (bind (wait_sync disp_timer) k) Q traced.
Proof.
  intros Hok Hk m (Ha & Hd & Ht). unfold wait_sync. unfold bind, deref. cbv beta. rewrite Hd.
  pose proof (poll_reads (STATUS t) (feed m) Hok) as Hp.
  destruct (poll (STATUS t) (feed m)) as [tr [rest|]]; cbn [fst] in Hp.
  - apply Hk. split; [exact Ha|]. split; [exact Hd|]. apply traced_app; assumption.
  - apply traced_app; assumption.
Qed.

End Within.

Lemma triple_assoc {A B C : Type} (P : machine -> Prop) (c : io A)
    (k1 : A -> io B) (k2 : B -> io C)
    (Q : C -> machine -> Prop) (R : machine -> Prop) :
  triple P (bind c (fun a => bind (k1 a) k2)) Q R ->
  triple P (bind (bind c k1) k2) Q R.
Proof.
  intros Hc m Hm. specialize (Hc m Hm). unfold bind in *.
  destruct (c m); exact Hc.
Qed.

Lemma within_start (ok : access -> Prop) (m : machine) :
  within ok (trace m) (adc_timer m) (disp_timer m) m.
Proof.
  split; [reflexivity|]. split; [reflexivity|].
  exists []. rewrite app_nil_r. split; [reflexivity | constructor].
Qed.

(** One statement of a function, by the rule of its form; [side] proves
    that the accesses made are allowed. *)
Ltac triple_step side :=
  lazymatch goal with
  | |- triple _ (bind (bind _ _) _) _ _ => apply triple_assoc
  | |- triple _ (bind (load _) _) _ _ =>
      apply triple_load; [intros ?; side | intros ?]
  | |- triple _ (bind (store _ _) _) _ _ => apply triple_store; [side|]
  | |- triple _ (bind (extern _ _) _) _ _ => apply triple_extern; [side|]
  | |- triple _ (bind (set_bits _ _) _) _ _ =>
      apply triple_set_bits; [intros ?; side | intros ?; side |]
  | |- triple _ (bind (mask_bits _ _) _) _ _ =>
      apply triple_mask_bits; [intros ?; side | intros ?; side |]
  | |- triple _ (bind (deref adc_timer) _) _ _ => apply triple_deref_adc
  | |- triple _ (bind (deref disp_timer) _) _ _ => apply triple_deref_disp
  | |- triple _ (bind (set_adc_timer _) _) _ _ => apply triple_set_adc
  | |- triple _ (bind (set_disp_timer _) _) _ _ => apply triple_set_disp
  | |- triple _ (bind (wait_sync adc_timer) _) _ _ =>
      apply triple_wait_adc; [intros ?; side |]
  | |- triple _ (bind (wait_sync disp_timer) _) _ _ =>
      apply triple_wait_disp; [intros ?; side |]
  | |- triple _ (bind (ret _) _) _ _ => unfold bind at 1, ret at 1
  | |- triple _ (bind _ _) _ _ =>
      progress unfold enable_adc_tc_clocks, enable_adc_timer, disable_adc_timer,
        configure_adc_interrupt, enable_display_tc_clocks, enable_display_timer,
        disable_display_timer, configure_display_interrupt, timer6_8, timer7_16;
      cbv beta zeta
  | |- triple _ (ret _) _ _ => apply triple_ret; intros ? ?
  | |- triple _ _ _ _ => apply triple_last
  end.

(** [configure_adc_interrupt], on any feed and from any machine. *)
Lemma configure_adc_interrupt_triple (m : machine) :
  triple (within (fun a => touches TC7 a = false) (trace m) (adc_timer m) (disp_timer m))
    configure_adc_interrupt
    (fun _ => within (fun a => touches TC7 a = false) (trace m) (Some TC6) (disp_timer m))
    (traced (fun a => touches TC7 a = false) (trace m)).
Proof.
  unfold configure_adc_interrupt. repeat triple_step ltac:(reflexivity). assumption.
Qed.

Lemma configure_display_interrupt_triple (m : machine) :
  triple (within (fun a => touches TC6 a = false) (trace m) (adc_timer m) (disp_timer m))
    configure_display_interrupt
    (fun _ => within (fun a => touches TC6 a = false) (trace m) (adc_timer m) (Some TC7))
    (traced (fun a => touches TC6 a = false) (trace m)).
Proof.
  unfold configure_display_interrupt. repeat triple_step ltac:(reflexivity). assumption.
Qed.

Lemma main_triple :
  triple (within (fun _ => True) [] None None) main
    (fun r m => r = 0 /\ within (fun _ => True) [] (Some TC6) (Some TC7) m)
    (traced (fun _ => True) []).
Proof.
  unfold main. change (RESOLUTION =? 16) with false.
  change (RESOLUTION =? 12) with true. cbv iota.
  repeat triple_step ltac:(exact I). split; [reflexivity | assumption].
Qed.

(** [main] on a feed that lets it return. *)
Lemma main_run (qa qd : config_reads) (pa pd : list Z) (ra ca rdy cd : Z)
    (rest : list Z) :
  synced (r_polls qa) (r_ready qa) = true -> synced pa ra = true ->
  synced (r_polls qd) (r_ready qd) = true -> synced pd rdy = true ->
  main (boot (config_feed qa ++ (pa ++ ra :: ca ::
                (config_feed qd ++ (pd ++ rdy :: cd :: rest))))) =
    Done 0 {| disp_timer := Some TC7; adc_timer := Some TC6; feed := rest;
              trace := main_calls ++
                       (adc_config_trace qa ++ enable_trace TC6 pa ra ca ++
                        display_config_trace qd ++ enable_trace TC7 pd rdy cd) |}.
Proof.
  intros Hqa Hpa Hqd Hpd. unfold main.
  change (RESOLUTION =? 16) with false. change (RESOLUTION =? 12) with true.
  cbv beta iota delta [bind extern log boot ret feed trace adc_timer disp_timer].
  match goal with |- context [configure_adc_interrupt ?m] =>
    rewrite (configure_adc_interrupt_run m qa _ eq_refl Hqa) end.
  cbv beta iota delta [feed trace adc_timer disp_timer].
  match goal with |- context [enable_adc_timer ?m] =>
    rewrite (enable_adc_timer_run m TC6 pa ra ca _ eq_refl eq_refl Hpa) end.
  cbv beta iota delta [feed trace adc_timer disp_timer].
  match goal with |- context [configure_display_interrupt ?m] =>
    rewrite (configure_display_interrupt_run m qd _ eq_refl Hqd) end.
  cbv beta iota delta [feed trace adc_timer disp_timer].
  match goal with |- context [enable_display_timer ?m] =>
    rewrite (enable_display_timer_run m TC7 pd rdy cd _ eq_refl eq_refl Hpd) end.
  cbv beta iota delta [feed trace adc_timer disp_timer].
  rewrite <- !app_assoc. reflexivity.
Qed.

(** The registers after [main], when they hold what was written. *)
Lemma main_effect (rf : regfile) (qa qd : config_reads) (pa pd : list Z)
    (ra ca rdy cd : Z) :
  coherent rf (adc_config_trace qa ++ enable_trace TC6 pa ra ca ++
               display_config_trace qd ++ enable_trace TC7 pd rdy cd) = true ->
  forall r,
    replay (adc_config_trace qa ++ enable_trace TC6 pa ra ca ++
            display_config_trace qd ++ enable_trace TC7 pd rdy cd) rf r =
      match r with
      | APBCMASK => Z.lor (Z.lor (rf APBCMASK) (Z.shiftl 1 14)) (Z.shiftl 1 15)
      | CLKCTRL => 0x4016
      | ISER0 => Z.lor (Z.lor (rf ISER0) (Z.shiftl 1 19)) (Z.shiftl 1 20)
      | CTRLA TC6 =>
          Z.lor (Z.lor (Z.land (rf (CTRLA TC6)) (Z.lnot (Z.shiftl 1 1))) 0x1344)
            (Z.shiftl 1 1)
      | CTRLA TC7 =>
          Z.lor (Z.lor (Z.land (rf (CTRLA TC7)) (Z.lnot (Z.shiftl 1 1))) 0x1520)
            (Z.shiftl 1 1)
      | PER TC6 => 249
      | CC0 TC6 => 1
      | CC0 TC7 => 0x50
      | INTENSET TC6 => Z.lor (rf (INTENSET TC6)) 1
      | INTENSET TC7 => Z.lor (rf (INTENSET TC7)) 1
      | INTFLAG TC6 => Z.lor (r_intflag qa) 1
      | INTFLAG TC7 => Z.lor (r_intflag qd) 1
      | _ => rf r
      end.
Proof.
  rewrite !coherent_app, !andb_true_iff. intros (H1 & H2 & H3 & H4) r.
  rewrite !replay_app.
  rewrite <- !replay_app in H4. rewrite <- !replay_app in H3.
  pose proof (adc_config_effect _ _ H1) as E1.
  pose proof (enable_effect _ _ _ _ _ H2) as E2.
  rewrite !replay_app in H3. pose proof (display_config_effect _ _ H3) as E3.
  rewrite !replay_app in H4. pose proof (enable_effect _ _ _ _ _ H4) as E4.
  rewrite E4, !E3, !E2, !E1.
  destruct r as [| | | [|] | [|] | [|] | [|] | [|] | [|]]; reflexivity.
Qed.

End ConfigFacts.

(** * Further properties of the code *)

(** ** The two handlers, for any float arithmetic *)

Section Observations.

Context {F : Type} `{FloatOps F}.

Variable omega : F.

(** X1. Activations that find their flag down change no static of the
    program and make no driver call. The sampling interrupt then does
    nothing at all; the display interrupt, [TC7_Handler], still writes its
    flag register, which it does outside the test of [display_handler]. *)
Theorem idle_activations_change_nothing (acts : list activation) (s : state F) :
  Forall (fun a => Z.land (flag_of a) 1 = 0) acts ->
  run omega acts s = Some (s, idle_events acts) /\
  dac_writes (idle_events (F:=F) acts) = [] /\
  display_calls (idle_events (F:=F) acts) = [] /\
  forall f, In (display_tick f) acts ->
    In (disp_intflag_set (F:=F) (Z.lor f 1)) (idle_events acts).
Proof.
  intros Hidle. split; [apply run_idle; exact Hidle|].
  clear Hidle. induction acts as [|[f v | f] rest (IH1 & IH2 & IH3)].
  - repeat split. intros f [].
  - cbn [idle_events omap list_omap]. split; [exact IH1|]. split; [exact IH2|].
    intros g [Hg | Hg]; [discriminate Hg | exact (IH3 g Hg)].
  - cbn [idle_events omap list_omap dac_writes display_calls].
    split; [exact IH1|]. split; [exact IH2|].
    intros g [Hg | Hg].
    + injection Hg as ->. left. reflexivity.
    + right. exact (IH3 g Hg).
Qed.

(** X2. The display cursor counts the display activations that found
    their flag up, modulo 4: after any interleaving of the two interrupts,
    [dig] is its starting value plus that count, modulo 4. Sampling
    activations, and display activations with the flag down, do not move
    it. *)
Theorem cursor_counts_display_activations (acts : list activation) (s : state F) :
  in_bounds s ->
  exists s' evs,
    run omega acts s = Some (s', evs) /\
    dig s' = (dig s + Z.of_nat (fired_display acts)) mod 4.
Proof.
  intros Hs. destruct (run_counts omega acts s Hs) as (s' & evs & Hrun & _ & Hcur & _).
  exists s', evs. split; [exact Hrun | exact Hcur].
Qed.

(** X3. In any run, [write_to_dac] is called once for each sampling
    activation that found its flag up, and [display_dig] once for each
    display activation that found its flag up: no activation calls the
    other interrupt's driver, and none calls its own twice. *)
Theorem one_driver_call_per_fired_activation (acts : list activation) (s : state F) :
  in_bounds s ->
  exists s' evs,
    run omega acts s = Some (s', evs) /\
    length (dac_writes evs) = fired_adc acts /\
    length (display_calls evs) = fired_display acts.
Proof.
  intros Hs.
  destruct (run_counts omega acts s Hs) as (s' & evs & Hrun & _ & _ & Hdac & Hdisp).
  exists s', evs. split; [exact Hrun|]. split; [exact Hdac | exact Hdisp].
Qed.

(** X4. Every call of [display_dig] that a run makes has display 0, a
    value that is a decimal digit, a position in 0..3, and both flags
    off, provided the buffer held four digits at the start (as it does at
    reset). *)
Theorem display_calls_are_well_formed (acts : list activation) (s : state F) :
  in_bounds s -> digits_ok (display_number s) ->
  exists s' evs,
    run omega acts s = Some (s', evs) /\
    Forall display_call_ok evs.
Proof.
  intros Hs Hdig. exact (run_calls_ok omega acts s Hs Hdig).
Qed.

(** X6. From a sampling activation on, the display shows the millivolt
    value it stored: every [display_dig] call of the display activations
    that follow, however many, has a position [p] in 0..3 and for value
    the decimal digit of weight [10^(3-p)] of [adc_volt]. Position 0
    shows the thousands, position 3 the units. *)
Theorem display_shows_the_sampled_value
    (s : state F) (intflag sample : Z) (flags : list Z) :
  flag_set intflag -> in_bounds s ->
  exists s1 e1 s2 e2,
    adc_handler omega intflag sample s = Some (s1, e1) /\
    adc_volt s1 = millivolt (UINT32_wrap sample) /\
    run omega (display_tick <$> flags) s1 = Some (s2, e2) /\
    Forall (fun c => fst c = decimal_digit (adc_volt s1) (3 - snd c) /\
                     0 <= snd c <= 3)
      (display_calls e2).
Proof.
  intros Hf [Hd Hlen].
  pose proof (adc_handler_fired omega s intflag sample Hf Hlen) as Hadc.
  set (s1 := {| adc_raw := UINT32_wrap sample;
                adc_volt := map32 (UINT32_wrap sample) 0 0xFFFF 0 3300;
                x := of_Z (UINT32_wrap sample);
                y := lpf omega (y_prev s) (x_prev s);
                y_prev := lpf omega (y_prev s) (x_prev s);
                x_prev := of_Z (UINT32_wrap sample);
                display_number := digits_of (map32 (UINT32_wrap sample) 0 0xFFFF 0 3300);
                dig := dig s |}) in *.
  assert (Hs1 : in_bounds s1) by (split; [exact Hd | reflexivity]).
  assert (Hv : 0 <= adc_volt s1) by apply map32_range.
  destruct (run_display_digits omega flags s1 Hs1 Hv eq_refl) as (s2 & e2 & Hrun & Hall).
  eexists s1, _, s2, e2. split; [exact Hadc|]. split; [reflexivity|].
  split; [exact Hrun | exact Hall].
Qed.

End Observations.

(** X5. The four digits stored for a value [v] are its four low decimal
    digits, whatever the size of [v]: a value above 9999 loses what is
    above the thousands, and the digits recombine to [v mod 10000]. *)
Theorem stored_digits_drop_the_ten_thousands (v : Z) :
  0 <= v ->
  digits_of v =
    [decimal_digit v 0; decimal_digit v 1; decimal_digit v 2; decimal_digit v 3] /\
  recombine (digits_of v) = v mod 10000.
Proof.
  intros Hv. split; [apply digits_of_decimal; exact Hv|].
  rewrite digits_of_decimal by exact Hv. apply recombine_decimal. exact Hv.
Qed.

(** ** The filter in single precision *)

Section SinglePrecision.

Import IEEE Single SingleRun.

(** X7. One sampling activation in single precision, from a filter state
    in the range of the samples (finite, between 0 and 4095): the new
    output is finite, in the same range, and within [7/16384] of
    [(1 - 0.628) * y_prev + 0.628 * x_prev], the recurrence computed
    exactly. *)
Theorem single_precision_step_is_accurate
    (s : state spec_float) (intflag sample : Z) :
  flag_set intflag ->
  length (display_number s) = 4%nat ->
  in_range32 (y_prev s) = true -> in_range32 (x_prev s) = true ->
  exists s' evs,
    adc_handler (H:=binary32) omega32 intflag sample s = Some (s', evs) /\
    y s' = lpf (H:=binary32) omega32 (y_prev s) (x_prev s) /\
    is_finite (y s') = true /\
    (0 <= F2Q (y s') <= 4095)%Q /\
    (Qabs (F2Q (y s') - ((1 - 0.628) * F2Q (y_prev s) + 0.628 * F2Q (x_prev s)))
       <= 7 # 16384)%Q.
Proof.
  intros Hf Hlen Hy Hx. eexists _, _.
  split; [exact (adc_handler_fired (H:=binary32) omega32 s intflag sample Hf Hlen)|].
  cbn [y]. split; [reflexivity|].
  destruct (lpf32_in_range _ _ Hy Hx) as [Hr _].
  pose proof (lpf32_accuracy _ _ Hy Hx) as Hacc.
  rewrite Exact.lpf_value in Hacc.
  apply in_range32_spec in Hr. destruct Hr as (Hfin & Hnn & Hle).
  split; [exact Hfin|]. split; [|exact Hacc].
  split; [exact (nonneg_value _ Hfin Hnn) | exact Hle].
Qed.

(** X8. The filter never leaves the range of the samples: in single
    precision, after any interleaving of the two interrupts in which the
    samples read are in 0..4095, the filter statics [y_prev] and [x_prev]
    are finite numbers between 0 and 4095 (no overflow, no NaN, no
    overshoot above the largest sample), if they were at the start. *)
Theorem single_precision_filter_stays_in_range
    (acts : list activation) (s : state spec_float) :
  in_bounds s ->
  in_range32 (y_prev s) = true -> in_range32 (x_prev s) = true ->
  forallb sample_in_range acts = true ->
  exists s' evs,
    run (H:=binary32) omega32 acts s = Some (s', evs) /\
    is_finite (y_prev s') = true /\ (0 <= F2Q (y_prev s') <= 4095)%Q /\
    is_finite (x_prev s') = true /\ (0 <= F2Q (x_prev s') <= 4095)%Q.
Proof.
  intros Hs Hy Hx Hacts.
  destruct (run32_invariant acts s (conj Hs (conj Hy Hx)) Hacts)
    as (s' & evs & Hrun & (_ & Hy' & Hx') & _).
  exists s', evs. split; [exact Hrun|].
  apply in_range32_spec in Hy', Hx'.
  destruct Hy' as (Hfy & Hny & Hly). destruct Hx' as (Hfx & Hnx & Hlx).
  split; [exact Hfy|]. split; [split; [exact (nonneg_value _ Hfy Hny) | exact Hly]|].
  split; [exact Hfx|]. split; [exact (nonneg_value _ Hfx Hnx) | exact Hlx].
Qed.

(** X9. With [mapf] the linear interpolation, every value handed to
    [write_to_dac] in such a run is a finite number between 0 and 1023,
    the range of the 10-bit DAC. *)
Theorem dac_writes_stay_in_range
    (acts : list activation) (s : state spec_float) :
  in_bounds s ->
  in_range32 (y_prev s) = true -> in_range32 (x_prev s) = true ->
  forallb sample_in_range acts = true ->
  exists s' evs,
    run (H:=binary32) omega32 acts s = Some (s', evs) /\
    Forall (fun v => is_finite v = true /\ (0 <= F2Q v <= 1023)%Q) (dac_writes evs).
Proof.
  intros Hs Hy Hx Hacts.
  destruct (run32_invariant acts s (conj Hs (conj Hy Hx)) Hacts)
    as (s' & evs & Hrun & _ & Hdac).
  exists s', evs. split; [exact Hrun | exact Hdac].
Qed.


(** X11. On a constant sample [k] in 0..4095, from any filter state in
    the range of the samples, the single-precision output is within
    [1/1024] of [k] from the 20th step on. *)
Theorem single_precision_settles_near_the_sample
    (st : spec_float * spec_float) (k : Z) (n : nat) :
  in_range32 (fst st) = true -> in_range32 (snd st) = true ->
  0 <= k <= 4095 -> (20 <= n)%nat ->
  is_finite (out32 st (of_Z32 k) n) = true /\
  (Qabs (F2Q (out32 st (of_Z32 k) n) - inject_Z k) <= 1 # 1024)%Q.
Proof.
  intros Hy Hx Hk Hn. destruct n as [|n]; [lia|].
  destruct (of_Z32_in_range k Hk) as [Hc Ec].
  destruct (run32_settles st (of_Z32 k) (inject_Z k) n Hy Hx Hc Ec) as (Hr & _ & He).
  rewrite filter_out_unfold.
  split; [apply in_range32_spec in Hr; apply Hr|].
  eapply Qle_trans; [exact He|]. apply settle_bound_small. lia.
Qed.

(** X20. The sample is stored without rounding: for every sample below
    [2^24], so for every 12-bit and every 16-bit sample, a sampling
    activation leaves in [adc_raw] the sample and in [x] and [x_prev] the
    single-precision number equal to it. *)
Theorem samples_are_stored_exactly (s : state spec_float) (intflag sample : Z) :
  flag_set intflag ->
  length (display_number s) = 4%nat ->
  0 <= sample < 2 ^ 24 ->
  exists s' evs,
    adc_handler (H:=binary32) omega32 intflag sample s = Some (s', evs) /\
    adc_raw s' = sample /\
    x s' = x_prev s' /\
    is_finite (x_prev s') = true /\
    (F2Q (x_prev s') == inject_Z sample)%Q.
Proof.
  intros Hf Hlen Hv. eexists _, _.
  split; [exact (adc_handler_fired (H:=binary32) omega32 s intflag sample Hf Hlen)|].
  cbn [adc_raw x x_prev].
  assert (Hw : UINT32_wrap sample = sample).
  { apply UINT32_wrap_small. change (2 ^ 24) with 16777216 in Hv.
    change (2 ^ 32) with 4294967296. lia. }
  rewrite Hw. split; [reflexivity|]. split; [reflexivity|].
  destruct (SingleRounding.of_Z32_value sample Hv) as (Hfin & _ & Hval).
  split; [exact Hfin | exact Hval].
Qed.

End SinglePrecision.

(** ** Order and direction in single precision *)

Section SingleOrdering.

Import IEEE Single SingleRun SingleMonotone SingleOrder.

(** X21. Larger samples never give a lower filter state: two runs in
    single precision on activations that agree except for their samples,
    those of the first run not above those of the second (all within
    0..4095), from filter states in the range of the samples and ordered
    the same way, both complete, and at the end [y_prev] and [x_prev] of
    the first run are not above those of the second. *)
Theorem larger_samples_never_lower_the_filter
    (acts1 acts2 : list activation) (s1 s2 : state spec_float) :
  inv32 s1 -> inv32 s2 -> below32 s1 s2 ->
  samples_le acts1 acts2 = true ->
  forallb sample_in_range acts1 = true -> forallb sample_in_range acts2 = true ->
  exists s1' e1 s2' e2,
    run (H:=binary32) omega32 acts1 s1 = Some (s1', e1) /\
    run (H:=binary32) omega32 acts2 s2 = Some (s2', e2) /\
    (F2Q (y_prev s1') <= F2Q (y_prev s2'))%Q /\
    (F2Q (x_prev s1') <= F2Q (x_prev s2'))%Q.
Proof.
  intros H1 H2 Hb Hacts Hr1 Hr2.
  destruct (run32_ordered acts1 acts2 s1 s2 H1 H2 Hb Hacts Hr1 Hr2)
    as (t1 & e1 & t2 & e2 & R1 & R2 & _ & _ & [By Bx] & _).
  exists t1, e1, t2, e2. auto.
Qed.

(** X22. On a constant sample [k] in 0..4095 the single-precision output
    keeps the direction of its first move. From a filter state in the
    range of the samples: if the stored input is not above [k] and the
    first output is not below the stored output, no output is below the
    one before it; if the stored input is not below [k] and the first
    output is not above the stored output, no output is above the one
    before it. From reset the outputs never decrease. *)
Theorem single_precision_step_response_is_monotone
    (st : spec_float * spec_float) (k : Z) :
  in_range32 (fst st) = true -> in_range32 (snd st) = true ->
  0 <= k <= 4095 ->
  ((F2Q (snd st) <= inject_Z k)%Q ->
   (F2Q (fst st) <= F2Q (out32 st (of_Z32 k) 1))%Q ->
   forall n, (F2Q (out32 st (of_Z32 k) n) <= F2Q (out32 st (of_Z32 k) (S n)))%Q) /\
  ((inject_Z k <= F2Q (snd st))%Q ->
   (F2Q (out32 st (of_Z32 k) 1) <= F2Q (fst st))%Q ->
   forall n, (F2Q (out32 st (of_Z32 k) (S n)) <= F2Q (out32 st (of_Z32 k) n))%Q) /\
  (forall n,
     (F2Q (out32 reset (of_Z32 k) n) <= F2Q (out32 reset (of_Z32 k) (S n)))%Q).
Proof.
  intros Hy Hx Hk. destruct (of_Z32_in_range k Hk) as [Hc Ec].
  split; [|split].
  - intros Hxk H1 n. rewrite <- Ec in Hxk.
    exact (proj2 (proj2 (proj2 (run32_rising st (of_Z32 k) n Hy Hx Hc Hxk H1)))).
  - intros Hxk H1 n. rewrite <- Ec in Hxk.
    exact (proj2 (proj2 (proj2 (run32_falling st (of_Z32 k) n Hy Hx Hc Hxk H1)))).
  - intros n.
    assert (Hxk : (F2Q (snd reset) <= F2Q (of_Z32 k))%Q).
    { rewrite Ec. change (F2Q (snd reset)) with (inject_Z 0).
      rewrite <- Zle_Qle. lia. }
    assert (H1 : (F2Q (fst reset) <= F2Q (fst (run32 1 reset (of_Z32 k))))%Q).
    { apply Qle_bool_iff. vm_compute. reflexivity. }
    exact (proj2 (proj2 (proj2
             (run32_rising reset (of_Z32 k) n eq_refl eq_refl Hc Hxk H1)))).
Qed.

(** X23. Larger samples never give a lower DAC value: two runs in
    single precision on activations that agree except for their samples,
    those of the first run not above those of the second (all within
    0..4095), from ordered filter states in the range of the samples,
    hand [write_to_dac] as many values, each one of the first run not
    above its counterpart of the second ([mapf] taken as the linear
    interpolation). *)
Theorem larger_samples_never_lower_the_dac
    (acts1 acts2 : list activation) (s1 s2 : state spec_float) :
  inv32 s1 -> inv32 s2 -> below32 s1 s2 ->
  samples_le acts1 acts2 = true ->
  forallb sample_in_range acts1 = true -> forallb sample_in_range acts2 = true ->
  exists s1' e1 s2' e2,
    run (H:=binary32) omega32 acts1 s1 = Some (s1', e1) /\
    run (H:=binary32) omega32 acts2 s2 = Some (s2', e2) /\
    Forall2 le32 (dac_writes e1) (dac_writes e2).
Proof.
  intros H1 H2 Hb Hacts Hr1 Hr2.
  destruct (run32_ordered acts1 acts2 s1 s2 H1 H2 Hb Hacts Hr1 Hr2)
    as (t1 & e1 & t2 & e2 & R1 & R2 & _ & _ & _ & D).
  exists t1, e1, t2, e2. auto.
Qed.

End SingleOrdering.

(** ** Timer and clock configuration *)

Section Configuration.

Import Config ConfigFacts.

(** X12. Enabling a timer polls STATUS until a reading has bit 7
    (SYNCBUSY) clear, and only then reads CTRLA and writes it back with
    bit 1 set; no other bit of the value read is changed, and nothing
    else is accessed. The same holds for both timers. *)
Theorem enable_waits_then_sets_the_enable_bit
    (m : machine) (t : timer) (polls : list Z) (ready ctrl : Z) (rest : list Z) :
  feed m = polls ++ ready :: ctrl :: rest ->
  synced polls ready = true ->
  (adc_timer m = Some t ->
   exists m', enable_adc_timer m = Done tt m' /\
              trace m' = trace m ++ enable_trace t polls ready ctrl /\
              feed m' = rest) /\
  (disp_timer m = Some t ->
   exists m', enable_display_timer m = Done tt m' /\
              trace m' = trace m ++ enable_trace t polls ready ctrl /\
              feed m' = rest) /\
  Forall (fun v => Z.testbit v 7 = true) polls /\ Z.testbit ready 7 = false /\
  (forall i, Z.testbit (Z.lor ctrl (Z.shiftl 1 1)) i =
             if i =? 1 then true else Z.testbit ctrl i).
Proof.
  intros Hfeed Hs. split; [|split; [|split; [|split]]].
  - intros Ht. eexists. split; [exact (enable_adc_timer_run m t _ _ _ _ Ht Hfeed Hs)|].
    split; reflexivity.
  - intros Ht. eexists.
    split; [exact (enable_display_timer_run m t _ _ _ _ Ht Hfeed Hs)|].
    split; reflexivity.
  - apply synced_spec in Hs. destruct Hs as [Hall _].
    eapply Forall_impl; [exact Hall|]. intros v Hv. rewrite <- sync_busy_bit. exact Hv.
  - apply synced_spec in Hs. destruct Hs as [_ Hr]. rewrite <- sync_busy_bit. exact Hr.
  - intros i. apply set_bit_spec. lia.
Qed.

(** X13. The synchronisation waits have no way out: a call that enables
    or disables a timer returns only if some STATUS reading came with
    SYNCBUSY clear, and as long as every reading comes with it set the call
    keeps polling. In that case enabling has not written CTRLA at all,
    while disabling has already cleared the enable bit. *)
Theorem sync_wait_has_no_escape (m : machine) (t : timer) :
  (forall m', enable_adc_timer m = Done tt m' ->
     exists polls ready, synced polls ready = true /\
       exists more, feed m = polls ++ ready :: more) /\
  (forall m', disable_adc_timer m = Done tt m' ->
     exists ctrl polls ready, synced polls ready = true /\
       exists more, feed m = ctrl :: polls ++ ready :: more) /\
  (forall m', enable_display_timer m = Done tt m' ->
     exists polls ready, synced polls ready = true /\
       exists more, feed m = polls ++ ready :: more) /\
  (forall m', disable_display_timer m = Done tt m' ->
     exists ctrl polls ready, synced polls ready = true /\
       exists more, feed m = ctrl :: polls ++ ready :: more) /\
  (adc_timer m = Some t -> forallb sync_busy (feed m) = true ->
     exists m', enable_adc_timer m = Starved m' /\
       trace m' = trace m ++ (rd (STATUS t) <$> feed m)) /\
  (disp_timer m = Some t -> forallb sync_busy (feed m) = true ->
     exists m', enable_display_timer m = Starved m' /\
       trace m' = trace m ++ (rd (STATUS t) <$> feed m)) /\
  (forall ctrl vs, adc_timer m = Some t -> feed m = ctrl :: vs ->
     forallb sync_busy vs = true ->
     exists m', disable_adc_timer m = Starved m' /\
       trace m' = trace m ++
         [rd (CTRLA t) ctrl; wr (CTRLA t) (Z.land ctrl (Z.lnot (Z.shiftl 1 1)))] ++
         (rd (STATUS t) <$> vs)) /\
  (forall ctrl vs, disp_timer m = Some t -> feed m = ctrl :: vs ->
     forallb sync_busy vs = true ->
     exists m', disable_display_timer m = Starved m' /\
       trace m' = trace m ++
         [rd (CTRLA t) ctrl; wr (CTRLA t) (Z.land ctrl (Z.lnot (Z.shiftl 1 1)))] ++
         (rd (STATUS t) <$> vs)).
Proof.
  repeat split.
  - intros m' Hrun.
    destruct (enable_adc_timer_inv m m' Hrun) as (t' & polls & ready & ctrl & rest & _ & E & Hs).
    exists polls, ready. split; [exact Hs|]. exists (ctrl :: rest). exact E.
  - intros m' Hrun.
    destruct (disable_adc_timer_inv m m' Hrun) as (t' & ctrl & polls & ready & rest & _ & E & Hs).
    exists ctrl, polls, ready. split; [exact Hs|]. exists rest. exact E.
  - intros m' Hrun.
    destruct (enable_display_timer_inv m m' Hrun)
      as (t' & polls & ready & ctrl & rest & _ & E & Hs).
    exists polls, ready. split; [exact Hs|]. exists (ctrl :: rest). exact E.
  - intros m' Hrun.
    destruct (disable_display_timer_inv m m' Hrun)
      as (t' & ctrl & polls & ready & rest & _ & E & Hs).
    exists ctrl, polls, ready. split; [exact Hs|]. exists rest. exact E.
  - intros Ht Hb. eexists. split; [exact (enable_adc_timer_stuck m t Ht Hb) | reflexivity].
  - intros Ht Hb. eexists.
    split; [exact (enable_display_timer_stuck m t Ht Hb) | reflexivity].
  - intros ctrl vs Ht Hfeed Hb. eexists.
    split; [exact (disable_adc_timer_stuck m t ctrl vs Ht Hfeed Hb) | reflexivity].
  - intros ctrl vs Ht Hfeed Hb. eexists.
    split; [exact (disable_display_timer_stuck m t ctrl vs Ht Hfeed Hb) | reflexivity].
Qed.

(** X14. Disabling a timer reads CTRLA and writes it back with bit 1
    clear and every other bit as read, and only after that polls STATUS
    until SYNCBUSY is clear; it accesses nothing else. The same holds for
    both timers. *)
Theorem disable_clears_the_enable_bit_then_waits
    (m : machine) (t : timer) (ctrl : Z) (polls : list Z) (ready : Z)
    (rest : list Z) :
  feed m = ctrl :: polls ++ ready :: rest ->
  synced polls ready = true ->
  (adc_timer m = Some t ->
   exists m', disable_adc_timer m = Done tt m' /\
              trace m' = trace m ++ disable_trace t ctrl polls ready /\
              feed m' = rest) /\
  (disp_timer m = Some t ->
   exists m', disable_display_timer m = Done tt m' /\
              trace m' = trace m ++ disable_trace t ctrl polls ready /\
              feed m' = rest) /\
  (forall i, Z.testbit (Z.land ctrl (Z.lnot (Z.shiftl 1 1))) i =
             if i =? 1 then false else Z.testbit ctrl i).
Proof.
  intros Hfeed Hs. split; [|split].
  - intros Ht. eexists. split; [exact (disable_adc_timer_run m t _ _ _ _ Ht Hfeed Hs)|].
    split; reflexivity.
  - intros Ht. eexists.
    split; [exact (disable_display_timer_run m t _ _ _ _ Ht Hfeed Hs)|].
    split; reflexivity.
  - intros i. apply clear_bit_spec. lia.
Qed.

(** X15. What [configure_adc_interrupt] leaves in the registers, when
    they hold what is written to them: CTRLA of TC6 is its old value with
    bit 1 cleared and the bits of [0x1344] set, so the timer is left
    disabled; PER is 249 and CC[0] is 1; bit 14 of APBCMASK and bit 19 of
    ISER[0] are set; CLKCTRL is [0x4016]; bit 0 of INTENSET is set; no
    register of TC7 has changed. [adc_timer] points to TC6. *)
Theorem configure_adc_interrupt_leaves_timer_disabled
    (m : machine) (q : config_reads) (rest : list Z) (rf : regfile) :
  feed m = config_feed q ++ rest ->
  synced (r_polls q) (r_ready q) = true ->
  exists m',
    configure_adc_interrupt m = Done tt m' /\
    trace m' = trace m ++ adc_config_trace q /\
    feed m' = rest /\ adc_timer m' = Some TC6 /\ disp_timer m' = disp_timer m /\
    (coherent rf (adc_config_trace q) = true ->
     replay (adc_config_trace q) rf (CTRLA TC6) =
       Z.lor (Z.land (rf (CTRLA TC6)) (Z.lnot (Z.shiftl 1 1))) 0x1344 /\
     Z.testbit (replay (adc_config_trace q) rf (CTRLA TC6)) 1 = false /\
     replay (adc_config_trace q) rf (PER TC6) = 249 /\
     replay (adc_config_trace q) rf (CC0 TC6) = 1 /\
     replay (adc_config_trace q) rf APBCMASK = Z.lor (rf APBCMASK) (Z.shiftl 1 14) /\
     replay (adc_config_trace q) rf CLKCTRL = 0x4016 /\
     replay (adc_config_trace q) rf ISER0 = Z.lor (rf ISER0) (Z.shiftl 1 19) /\
     replay (adc_config_trace q) rf (INTENSET TC6) = Z.lor (rf (INTENSET TC6)) 1 /\
     forall r, timer_of r = Some TC7 -> replay (adc_config_trace q) rf r = rf r).
Proof.
  intros Hfeed Hs. eexists.
  split; [exact (configure_adc_interrupt_run m q rest Hfeed Hs)|].
  split; [reflexivity|]. split; [reflexivity|]. split; [reflexivity|].
  split; [reflexivity|]. intros Hc.
  pose proof (adc_config_effect rf q Hc) as E.
  rewrite !E. repeat split.
  - rewrite Z.lor_spec, clear_bit_spec by lia. reflexivity.
  - intros r Hr. rewrite E.
    destruct r as [| | | [|] | [|] | [|] | [|] | [|] | [|]];
      try reflexivity; discriminate Hr.
Qed.

(** X16. What [configure_display_interrupt] leaves in the registers,
    when they hold what is written to them: CTRLA of TC7 is its old value
    with bit 1 cleared and the bits of [0x1520] set, so the timer is left
    disabled; CC[0] is [0x50]; bit 15 of APBCMASK and bit 20 of ISER[0]
    are set; CLKCTRL is [0x4016]; bit 0 of INTENSET is set; no register
    of TC6 has changed. [disp_timer] points to TC7. *)
Theorem configure_display_interrupt_leaves_timer_disabled
    (m : machine) (q : config_reads) (rest : list Z) (rf : regfile) :
  feed m = config_feed q ++ rest ->
  synced (r_polls q) (r_ready q) = true ->
  exists m',
    configure_display_interrupt m = Done tt m' /\
    trace m' = trace m ++ display_config_trace q /\
    feed m' = rest /\ disp_timer m' = Some TC7 /\ adc_timer m' = adc_timer m /\
    (coherent rf (display_config_trace q) = true ->
     replay (display_config_trace q) rf (CTRLA TC7) =
       Z.lor (Z.land (rf (CTRLA TC7)) (Z.lnot (Z.shiftl 1 1))) 0x1520 /\
     Z.testbit (replay (display_config_trace q) rf (CTRLA TC7)) 1 = false /\
     replay (display_config_trace q) rf (CC0 TC7) = 0x50 /\
     replay (display_config_trace q) rf APBCMASK = Z.lor (rf APBCMASK) (Z.shiftl 1 15) /\
     replay (display_config_trace q) rf CLKCTRL = 0x4016 /\
     replay (display_config_trace q) rf ISER0 = Z.lor (rf ISER0) (Z.shiftl 1 20) /\
     replay (display_config_trace q) rf (INTENSET TC7) = Z.lor (rf (INTENSET TC7)) 1 /\
     forall r, timer_of r = Some TC6 -> replay (display_config_trace q) rf r = rf r).
Proof.
  intros Hfeed Hs. eexists.
  split; [exact (configure_display_interrupt_run m q rest Hfeed Hs)|].
  split; [reflexivity|]. split; [reflexivity|]. split; [reflexivity|].
  split; [reflexivity|]. intros Hc.
  pose proof (display_config_effect rf q Hc) as E.
  rewrite !E. repeat split.
  - rewrite Z.lor_spec, clear_bit_spec by lia. reflexivity.
  - intros r Hr. rewrite E.
    destruct r as [| | | [|] | [|] | [|] | [|] | [|] | [|]];
      try reflexivity; discriminate Hr.
Qed.

(** X17. Each configuration function keeps to its own timer, whatever
    the hardware answers and whether or not the call returns:
    [configure_adc_interrupt] makes no access to a register of TC7 and
    [configure_display_interrupt] none to a register of TC6; neither goes
    through a null pointer, since each sets its timer pointer first. *)
Theorem configuration_keeps_to_its_timer (m : machine) :
  match configure_adc_interrupt m with
  | Done _ m' =>
      adc_timer m' = Some TC6 /\ disp_timer m' = disp_timer m /\
      exists tr, trace m' = trace m ++ tr /\ Forall (fun a => touches TC7 a = false) tr
  | Starved m' =>
      exists tr, trace m' = trace m ++ tr /\ Forall (fun a => touches TC7 a = false) tr
  | Fault _ => False
  end /\
  match configure_display_interrupt m with
  | Done _ m' =>
      adc_timer m' = adc_timer m /\ disp_timer m' = Some TC7 /\
      exists tr, trace m' = trace m ++ tr /\ Forall (fun a => touches TC6 a = false) tr
  | Starved m' =>
      exists tr, trace m' = trace m ++ tr /\ Forall (fun a => touches TC6 a = false) tr
  | Fault _ => False
  end.
Proof.
  split.
  - pose proof (configure_adc_interrupt_triple m m (within_start _ m)) as Ht.
    destruct (configure_adc_interrupt m) as [u m' | m' | m']; exact Ht.
  - pose proof (configure_display_interrupt_triple m m (within_start _ m)) as Ht.
    destruct (configure_display_interrupt m) as [u m' | m' | m']; exact Ht.
Qed.

(** X18. [main], when every synchronisation wait ends: it calls the
    eight board drivers, then configures and enables the sampling timer,
    then configures and enables the display timer, and returns 0. If the
    registers hold what is written to them, at the end both timers have
    their enable bit set on top of their configuration ([0x1344] for TC6,
    [0x1520] for TC7), bits 14 and 15 of APBCMASK and bits 19 and 20 of
    ISER[0] are set, and PER of TC6 is 249. *)
Theorem main_configures_then_enables_both_timers
    (qa qd : config_reads) (pa pd : list Z) (ra ca rdy cd : Z)
    (rest : list Z) (rf : regfile) :
  synced (r_polls qa) (r_ready qa) = true -> synced pa ra = true ->
  synced (r_polls qd) (r_ready qd) = true -> synced pd rdy = true ->
  exists m' tr,
    main (boot (config_feed qa ++ (pa ++ ra :: ca ::
                  (config_feed qd ++ (pd ++ rdy :: cd :: rest))))) = Done 0 m' /\
    trace m' = main_calls ++ tr /\
    tr = adc_config_trace qa ++ enable_trace TC6 pa ra ca ++
         display_config_trace qd ++ enable_trace TC7 pd rdy cd /\
    feed m' = rest /\ adc_timer m' = Some TC6 /\ disp_timer m' = Some TC7 /\
    (coherent rf tr = true ->
     replay tr rf (CTRLA TC6) =
       Z.lor (Z.lor (Z.land (rf (CTRLA TC6)) (Z.lnot (Z.shiftl 1 1))) 0x1344)
         (Z.shiftl 1 1) /\
     Z.testbit (replay tr rf (CTRLA TC6)) 1 = true /\
     replay tr rf (CTRLA TC7) =
       Z.lor (Z.lor (Z.land (rf (CTRLA TC7)) (Z.lnot (Z.shiftl 1 1))) 0x1520)
         (Z.shiftl 1 1) /\
     Z.testbit (replay tr rf (CTRLA TC7)) 1 = true /\
     replay tr rf (PER TC6) = 249 /\
     replay tr rf (CC0 TC6) = 1 /\ replay tr rf (CC0 TC7) = 0x50 /\
     replay tr rf APBCMASK =
       Z.lor (Z.lor (rf APBCMASK) (Z.shiftl 1 14)) (Z.shiftl 1 15) /\
     replay tr rf ISER0 = Z.lor (Z.lor (rf ISER0) (Z.shiftl 1 19)) (Z.shiftl 1 20)).
Proof.
  intros Hqa Hpa Hqd Hpd. eexists _, _.
  split; [exact (main_run qa qd pa pd ra ca rdy cd rest Hqa Hpa Hqd Hpd)|].
  split; [reflexivity|]. split; [reflexivity|]. split; [reflexivity|].
  split; [reflexivity|]. split; [reflexivity|]. intros Hc.
  pose proof (main_effect rf qa qd pa pd ra ca rdy cd Hc) as E.
  rewrite !E. repeat split.
  - rewrite set_bit_spec by lia. reflexivity.
  - rewrite set_bit_spec by lia. reflexivity.
Qed.

(** X19. [main] never goes through a null timer pointer, whatever the
    hardware answers: on every feed it returns 0 with [adc_timer] at TC6
    and [disp_timer] at TC7, or is still waiting for a reading. Called
    straight after reset instead, each of the four enable and disable
    functions goes through its null pointer before any access. *)
Theorem main_never_uses_a_null_timer (fd : list Z) :
  match main (boot fd) with
  | Done r m' => r = 0 /\ adc_timer m' = Some TC6 /\ disp_timer m' = Some TC7
  | Starved _ => True
  | Fault _ => False
  end /\
  enable_adc_timer (boot fd) = Fault (boot fd) /\
  disable_adc_timer (boot fd) = Fault (boot fd) /\
  enable_display_timer (boot fd) = Fault (boot fd) /\
  disable_display_timer (boot fd) = Fault (boot fd).
Proof.
  split; [|repeat split].
  assert (Hstart : within (fun _ => True) [] None None (boot fd)).
  { split; [reflexivity|]. split; [reflexivity|]. exists []. split; [reflexivity | constructor]. }
  pose proof (main_triple (boot fd) Hstart) as Ht.
  destruct (main (boot fd)) as [r m' | m' | m']; [|exact I | exact Ht].
  destruct Ht as (-> & Ha & Hd & _). auto.
Qed.

End Configuration.

(** ** The further properties at concrete inputs *)

Lemma idle_activations_change_nothing_witness :
  Forall (fun a => Z.land (flag_of a) 1 = 0) [adc_tick 0 100; display_tick 2] /\
  run (H:=binary32) omega32 [adc_tick 0 100; display_tick 2] Single.init32 =
    Some (Single.init32, [disp_intflag_set 3]).
Proof.
  assert (Hidle : Forall (fun a => Z.land (flag_of a) 1 = 0)
                    [adc_tick 0 100; display_tick 2])
    by (repeat constructor).
  split; [exact Hidle|].
  destruct (idle_activations_change_nothing (H:=binary32) omega32
              [adc_tick 0 100; display_tick 2] Single.init32 Hidle) as [Hrun _].
  exact Hrun.
Defined.

Lemma cursor_counts_display_activations_witness :
  in_bounds Single.init32 /\
  exists s' evs,
    run (H:=binary32) omega32
      [display_tick 1; adc_tick 1 2048; display_tick 1; display_tick 0]
      Single.init32 = Some (s', evs) /\
    dig s' = 2.
Proof.
  assert (Hs : in_bounds Single.init32) by (split; [cbn; lia | reflexivity]).
  split; [exact Hs|].
  destruct (cursor_counts_display_activations (H:=binary32) omega32
              [display_tick 1; adc_tick 1 2048; display_tick 1; display_tick 0]
              Single.init32 Hs) as (s' & evs & Hrun & Hdig).
  exists s', evs. split; [exact Hrun | exact Hdig].
Defined.

Lemma one_driver_call_per_fired_activation_witness :
  in_bounds Single.init32 /\
  exists s' evs,
    run (H:=binary32) omega32
      [display_tick 1; adc_tick 1 2048; display_tick 1; display_tick 0]
      Single.init32 = Some (s', evs) /\
    length (dac_writes evs) = 1%nat /\
    length (display_calls evs) = 2%nat.
Proof.
  assert (Hs : in_bounds Single.init32) by (split; [cbn; lia | reflexivity]).
  split; [exact Hs|].
  destruct (one_driver_call_per_fired_activation (H:=binary32) omega32
              [display_tick 1; adc_tick 1 2048; display_tick 1; display_tick 0]
              Single.init32 Hs) as (s' & evs & Hrun & Hdac & Hdisp).
  exists s', evs. split; [exact Hrun|]. split; [exact Hdac | exact Hdisp].
Defined.

Lemma display_calls_are_well_formed_witness :
  in_bounds Single.init32 /\
  digits_ok (display_number Single.init32) /\
  exists s' evs,
    run (H:=binary32) omega32 [display_tick 1; adc_tick 1 4095; display_tick 1]
      Single.init32 = Some (s', evs) /\
    Forall display_call_ok evs.
Proof.
  assert (Hs : in_bounds Single.init32) by (split; [cbn; lia | reflexivity]).
  assert (Hd : digits_ok (display_number Single.init32))
    by (split; [reflexivity | repeat constructor; cbn; lia]).
  split; [exact Hs|]. split; [exact Hd|].
  exact (display_calls_are_well_formed (H:=binary32) omega32
           [display_tick 1; adc_tick 1 4095; display_tick 1] Single.init32 Hs Hd).
Defined.

Lemma stored_digits_drop_the_ten_thousands_witness :
  0 <= 12345 /\
  digits_of 12345 = [5; 4; 3; 2] /\
  recombine (digits_of 12345) = 2345.
Proof.
  assert (Hv : 0 <= 12345) by lia.
  split; [exact Hv|].
  destruct (stored_digits_drop_the_ten_thousands 12345 Hv) as [Hd Hr].
  split; [exact Hd | exact Hr].
Defined.

Lemma display_shows_the_sampled_value_witness :
  flag_set 1 /\
  in_bounds Single.init32 /\
  exists s1 e1 s2 e2,
    adc_handler (H:=binary32) omega32 1 65535 Single.init32 = Some (s1, e1) /\
    adc_volt s1 = 3300 /\
    run (H:=binary32) omega32 (display_tick <$> [1; 1; 1; 1]) s1 = Some (s2, e2) /\
    Forall (fun c => fst c = decimal_digit (adc_volt s1) (3 - snd c) /\
                     0 <= snd c <= 3)
      (display_calls e2).
Proof.
  assert (Hs : in_bounds Single.init32) by (split; [cbn; lia | reflexivity]).
  split; [exact flag_set_1|]. split; [exact Hs|].
  destruct (display_shows_the_sampled_value (H:=binary32) omega32 Single.init32
              1 65535 [1; 1; 1; 1] flag_set_1 Hs)
    as (s1 & e1 & s2 & e2 & Hadc & Hvolt & Hrun & Hall).
  exists s1, e1, s2, e2. split; [exact Hadc|]. split; [exact Hvolt|].
  split; [exact Hrun | exact Hall].
Defined.

Lemma single_precision_step_is_accurate_witness :
  flag_set 1 /\
  length (display_number Single.init32) = 4%nat /\
  Single.in_range32 (y_prev Single.init32) = true /\
  Single.in_range32 (x_prev Single.init32) = true /\
  exists s' evs,
    adc_handler (H:=binary32) omega32 1 2048 Single.init32 = Some (s', evs) /\
    IEEE.is_finite (y s') = true /\
    (0 <= IEEE.F2Q (y s') <= 4095)%Q.
Proof.
  split; [exact flag_set_1|]. split; [reflexivity|].
  split; [reflexivity|]. split; [reflexivity|].
  destruct (single_precision_step_is_accurate Single.init32 1 2048
              flag_set_1 eq_refl eq_refl eq_refl)
    as (s' & evs & Hadc & _ & Hfin & Hr & _).
  exists s', evs. split; [exact Hadc|]. split; [exact Hfin | exact Hr].
Defined.

Lemma single_precision_filter_stays_in_range_witness :
  in_bounds Single.init32 /\
  Single.in_range32 (y_prev Single.init32) = true /\
  Single.in_range32 (x_prev Single.init32) = true /\
  forallb sample_in_range [adc_tick 1 4095; display_tick 1; adc_tick 1 0] = true /\
  exists s' evs,
    run (H:=binary32) omega32 [adc_tick 1 4095; display_tick 1; adc_tick 1 0]
      Single.init32 = Some (s', evs) /\
    IEEE.is_finite (y_prev s') = true /\
    (0 <= IEEE.F2Q (y_prev s') <= 4095)%Q.
Proof.
  assert (Hs : in_bounds Single.init32) by (split; [cbn; lia | reflexivity]).
  split; [exact Hs|]. split; [reflexivity|]. split; [reflexivity|].
  split; [reflexivity|].
  destruct (single_precision_filter_stays_in_range
              [adc_tick 1 4095; display_tick 1; adc_tick 1 0] Single.init32
              Hs eq_refl eq_refl eq_refl)
    as (s' & evs & Hrun & Hfin & Hr & _).
  exists s', evs. split; [exact Hrun|]. split; [exact Hfin | exact Hr].
Defined.

Lemma dac_writes_stay_in_range_witness :
  in_bounds Single.init32 /\
  Single.in_range32 (y_prev Single.init32) = true /\
  Single.in_range32 (x_prev Single.init32) = true /\
  forallb sample_in_range [adc_tick 1 4095; display_tick 1; adc_tick 1 0] = true /\
  exists s' evs,
    run (H:=binary32) omega32 [adc_tick 1 4095; display_tick 1; adc_tick 1 0]
      Single.init32 = Some (s', evs) /\
    Forall (fun v => IEEE.is_finite v = true /\ (0 <= IEEE.F2Q v <= 1023)%Q)
      (dac_writes evs).
Proof.
  assert (Hs : in_bounds Single.init32) by (split; [cbn; lia | reflexivity]).
  split; [exact Hs|]. split; [reflexivity|]. split; [reflexivity|].
  split; [reflexivity|].
  exact (dac_writes_stay_in_range
           [adc_tick 1 4095; display_tick 1; adc_tick 1 0] Single.init32
           Hs eq_refl eq_refl eq_refl).
Defined.


Lemma single_precision_settles_near_the_sample_witness :
  Single.in_range32 (fst Single.reset) = true /\
  Single.in_range32 (snd Single.reset) = true /\
  0 <= 4094 <= 4095 /\ (20 <= 20)%nat /\
  (Qabs (IEEE.F2Q (Single.out32 Single.reset (Single.of_Z32 4094) 20) - inject_Z 4094)
     <= 1 # 1024)%Q.
Proof.
  assert (Hk : 0 <= 4094 <= 4095) by lia.
  assert (Hn : (20 <= 20)%nat) by lia.
  split; [reflexivity|]. split; [reflexivity|]. split; [exact Hk|].
  split; [exact Hn|].
  destruct (single_precision_settles_near_the_sample Single.reset 4094 20
              eq_refl eq_refl Hk Hn) as [_ Hclose].
  exact Hclose.
Defined.

Lemma samples_are_stored_exactly_witness :
  flag_set 1 /\
  length (display_number Single.init32) = 4%nat /\
  0 <= 65535 < 2 ^ 24 /\
  exists s' evs,
    adc_handler (H:=binary32) omega32 1 65535 Single.init32 = Some (s', evs) /\
    adc_raw s' = 65535 /\
    (IEEE.F2Q (x_prev s') == inject_Z 65535)%Q.
Proof.
  assert (Hv : 0 <= 65535 < 2 ^ 24) by (cbn; lia).
  split; [exact flag_set_1|]. split; [reflexivity|]. split; [exact Hv|].
  destruct (samples_are_stored_exactly Single.init32 1 65535 flag_set_1 eq_refl Hv)
    as (s' & evs & Hadc & Hraw & _ & _ & Hval).
  exists s', evs. split; [exact Hadc|]. split; [exact Hraw | exact Hval].
Defined.

(** A machine whose pointers are set, with the readings [fd] to come. *)
Lemma enable_waits_then_sets_the_enable_bit_witness :
  Config.feed (Config.mk_machine (Some Config.TC7) (Some Config.TC6)
                 [128; 128; 0; 0x1344] []) = [128; 128] ++ 0 :: 0x1344 :: [] /\
  Config.synced [128; 128] 0 = true /\
  exists m',
    Config.enable_adc_timer
      (Config.mk_machine (Some Config.TC7) (Some Config.TC6) [128; 128; 0; 0x1344] [])
      = Config.Done tt m' /\
    Config.trace m' =
      [Config.rd (Config.STATUS Config.TC6) 128; Config.rd (Config.STATUS Config.TC6) 128;
       Config.rd (Config.STATUS Config.TC6) 0; Config.rd (Config.CTRLA Config.TC6) 0x1344;
       Config.wr (Config.CTRLA Config.TC6) 0x1346].
Proof.
  split; [reflexivity|]. split; [reflexivity|].
  destruct (enable_waits_then_sets_the_enable_bit
              (Config.mk_machine (Some Config.TC7) (Some Config.TC6)
                 [128; 128; 0; 0x1344] [])
              Config.TC6 [128; 128] 0 0x1344 [] eq_refl eq_refl) as (Hadc & _).
  destruct (Hadc eq_refl) as (m' & Hrun & Htr & _).
  exists m'. split; [exact Hrun | exact Htr].
Defined.

Lemma sync_wait_has_no_escape_witness :
  exists m',
    Config.enable_adc_timer
      (Config.mk_machine None (Some Config.TC6) [128; 128; 128] [])
      = Config.Starved m' /\
    Config.trace m' =
      [Config.rd (Config.STATUS Config.TC6) 128; Config.rd (Config.STATUS Config.TC6) 128;
       Config.rd (Config.STATUS Config.TC6) 128].
Proof.
  destruct (sync_wait_has_no_escape
              (Config.mk_machine None (Some Config.TC6) [128; 128; 128] []) Config.TC6)
    as (_ & _ & _ & _ & Hstuck & _).
  exact (Hstuck eq_refl eq_refl).
Defined.

Lemma disable_clears_the_enable_bit_then_waits_witness :
  Config.feed (Config.mk_machine (Some Config.TC7) (Some Config.TC6)
                 [0x1346; 128; 0] []) = 0x1346 :: [128] ++ 0 :: [] /\
  Config.synced [128] 0 = true /\
  exists m',
    Config.disable_display_timer
      (Config.mk_machine (Some Config.TC7) (Some Config.TC6) [0x1346; 128; 0] [])
      = Config.Done tt m' /\
    Config.trace m' =
      [Config.rd (Config.CTRLA Config.TC7) 0x1346; Config.wr (Config.CTRLA Config.TC7) 0x1344;
       Config.rd (Config.STATUS Config.TC7) 128; Config.rd (Config.STATUS Config.TC7) 0].
Proof.
  split; [reflexivity|]. split; [reflexivity|].
  destruct (disable_clears_the_enable_bit_then_waits
              (Config.mk_machine (Some Config.TC7) (Some Config.TC6)
                 [0x1346; 128; 0] [])
              Config.TC7 0x1346 [128] 0 [] eq_refl eq_refl) as (_ & Hdisp & _).
  destruct (Hdisp eq_refl) as (m' & Hrun & Htr & _).
  exists m'. split; [exact Hrun | exact Htr].
Defined.

Lemma configure_adc_interrupt_leaves_timer_disabled_witness :
  Config.feed (Config.boot (Config.config_feed
     (Config.mk_config_reads 0 0x16 2 [128] 0 0 0 0 1) ++ [])) =
    Config.config_feed (Config.mk_config_reads 0 0x16 2 [128] 0 0 0 0 1) ++ [] /\
  Config.synced [128] 0 = true /\
  Config.coherent (fun r => match r with Config.CTRLA Config.TC6 => 2 | _ => 0 end)
    (Config.adc_config_trace (Config.mk_config_reads 0 0x16 2 [128] 0 0 0 0 1)) = true /\
  Config.replay
    (Config.adc_config_trace (Config.mk_config_reads 0 0x16 2 [128] 0 0 0 0 1))
    (fun r => match r with Config.CTRLA Config.TC6 => 2 | _ => 0 end)
    (Config.CTRLA Config.TC6) = 0x1344.
Proof.
  split; [reflexivity|]. split; [reflexivity|]. split; [reflexivity|].
  destruct (configure_adc_interrupt_leaves_timer_disabled
              (Config.boot (Config.config_feed
                 (Config.mk_config_reads 0 0x16 2 [128] 0 0 0 0 1) ++ []))
              (Config.mk_config_reads 0 0x16 2 [128] 0 0 0 0 1) []
              (fun r => match r with Config.CTRLA Config.TC6 => 2 | _ => 0 end)
              eq_refl eq_refl) as (m' & _ & _ & _ & _ & _ & Heff).
  destruct (Heff eq_refl) as (Hctrl & _). exact Hctrl.
Defined.

Lemma configure_display_interrupt_leaves_timer_disabled_witness :
  Config.feed (Config.boot (Config.config_feed
     (Config.mk_config_reads 0 0x16 2 [128] 0 0 0 0 1) ++ [])) =
    Config.config_feed (Config.mk_config_reads 0 0x16 2 [128] 0 0 0 0 1) ++ [] /\
  Config.synced [128] 0 = true /\
  Config.coherent (fun r => match r with Config.CTRLA Config.TC7 => 2 | _ => 0 end)
    (Config.display_config_trace (Config.mk_config_reads 0 0x16 2 [128] 0 0 0 0 1)) = true /\
  Config.replay
    (Config.display_config_trace (Config.mk_config_reads 0 0x16 2 [128] 0 0 0 0 1))
    (fun r => match r with Config.CTRLA Config.TC7 => 2 | _ => 0 end)
    (Config.CTRLA Config.TC7) = 0x1520.
Proof.
  split; [reflexivity|]. split; [reflexivity|]. split; [reflexivity|].
  destruct (configure_display_interrupt_leaves_timer_disabled
              (Config.boot (Config.config_feed
                 (Config.mk_config_reads 0 0x16 2 [128] 0 0 0 0 1) ++ []))
              (Config.mk_config_reads 0 0x16 2 [128] 0 0 0 0 1) []
              (fun r => match r with Config.CTRLA Config.TC7 => 2 | _ => 0 end)
              eq_refl eq_refl) as (m' & _ & _ & _ & _ & _ & Heff).
  destruct (Heff eq_refl) as (Hctrl & _). exact Hctrl.
Defined.

Lemma main_configures_then_enables_both_timers_witness :
  Config.synced [128] 0 = true /\ Config.synced [] 0 = true /\
  exists m' tr,
    Config.main (Config.boot
      (Config.config_feed (Config.mk_config_reads 0 0x16 0 [128] 0 0 0 0 1) ++
       ([] ++ 0 :: 0x1344 ::
        (Config.config_feed (Config.mk_config_reads 0x4000 0x16 0 [128] 0 0 0x80000 0 1) ++
         ([] ++ 0 :: 0x1520 :: []))))) = Config.Done 0 m' /\
    Config.trace m' = Config.main_calls ++ tr /\
    Config.replay tr (fun _ => 0) (Config.CTRLA Config.TC6) = 0x1346 /\
    Config.replay tr (fun _ => 0) (Config.CTRLA Config.TC7) = 0x1522.
Proof.
  split; [reflexivity|]. split; [reflexivity|].
  destruct (main_configures_then_enables_both_timers
              (Config.mk_config_reads 0 0x16 0 [128] 0 0 0 0 1)
              (Config.mk_config_reads 0x4000 0x16 0 [128] 0 0 0x80000 0 1)
              [] [] 0 0x1344 0 0x1520 [] (fun _ => 0)
              eq_refl eq_refl eq_refl eq_refl)
    as (m' & tr & Hrun & Htr & -> & _ & _ & _ & Heff).
  destruct (Heff eq_refl) as (H6 & _ & H7 & _).
  eexists m', _. split; [exact Hrun|]. split; [exact Htr|].
  split; [exact H6 | exact H7].
Defined.

Lemma larger_samples_never_lower_the_filter_witness :
  inv32 Single.init32 /\
  below32 Single.init32 Single.init32 /\
  samples_le [adc_tick 1 100; display_tick 1; adc_tick 1 200]
             [adc_tick 1 300; display_tick 1; adc_tick 1 4095] = true /\
  forallb sample_in_range [adc_tick 1 100; display_tick 1; adc_tick 1 200] = true /\
  forallb sample_in_range [adc_tick 1 300; display_tick 1; adc_tick 1 4095] = true /\
  exists s1' e1 s2' e2,
    run (H:=binary32) omega32 [adc_tick 1 100; display_tick 1; adc_tick 1 200]
      Single.init32 = Some (s1', e1) /\
    run (H:=binary32) omega32 [adc_tick 1 300; display_tick 1; adc_tick 1 4095]
      Single.init32 = Some (s2', e2) /\
    (IEEE.F2Q (y_prev s1') <= IEEE.F2Q (y_prev s2'))%Q /\
    (IEEE.F2Q (x_prev s1') <= IEEE.F2Q (x_prev s2'))%Q.
Proof.
  assert (Hs : inv32 Single.init32).
  { split; [split; [cbn; lia | reflexivity]|]. split; reflexivity. }
  assert (Hb : below32 Single.init32 Single.init32) by (split; apply Qle_refl).
  split; [exact Hs|]. split; [exact Hb|]. split; [reflexivity|].
  split; [reflexivity|]. split; [reflexivity|].
  exact (larger_samples_never_lower_the_filter
           [adc_tick 1 100; display_tick 1; adc_tick 1 200]
           [adc_tick 1 300; display_tick 1; adc_tick 1 4095]
           Single.init32 Single.init32 Hs Hs Hb eq_refl eq_refl eq_refl).
Defined.

Lemma single_precision_step_response_is_monotone_witness :
  Single.in_range32 (fst Single.reset) = true /\
  Single.in_range32 (snd Single.reset) = true /\
  0 <= 1000 <= 4095 /\
  (IEEE.F2Q (Single.out32 Single.reset (Single.of_Z32 1000) 5)
     <= IEEE.F2Q (Single.out32 Single.reset (Single.of_Z32 1000) 6))%Q.
Proof.
  assert (Hk : 0 <= 1000 <= 4095) by lia.
  split; [reflexivity|]. split; [reflexivity|]. split; [exact Hk|].
  destruct (single_precision_step_response_is_monotone Single.reset 1000
              eq_refl eq_refl Hk) as (_ & _ & Hrise).
  exact (Hrise 5%nat).
Defined.

Lemma larger_samples_never_lower_the_dac_witness :
  inv32 Single.init32 /\
  below32 Single.init32 Single.init32 /\
  samples_le [adc_tick 1 100; display_tick 1; adc_tick 1 200]
             [adc_tick 1 300; display_tick 1; adc_tick 1 4095] = true /\
  forallb sample_in_range [adc_tick 1 100; display_tick 1; adc_tick 1 200] = true /\
  forallb sample_in_range [adc_tick 1 300; display_tick 1; adc_tick 1 4095] = true /\
  exists s1' e1 s2' e2,
    run (H:=binary32) omega32 [adc_tick 1 100; display_tick 1; adc_tick 1 200]
      Single.init32 = Some (s1', e1) /\
    run (H:=binary32) omega32 [adc_tick 1 300; display_tick 1; adc_tick 1 4095]
      Single.init32 = Some (s2', e2) /\
    Forall2 le32 (dac_writes e1) (dac_writes e2).
Proof.
  assert (Hs : inv32 Single.init32).
  { split; [split; [cbn; lia | reflexivity]|]. split; reflexivity. }
  assert (Hb : below32 Single.init32 Single.init32) by (split; apply Qle_refl).
  split; [exact Hs|]. split; [exact Hb|]. split; [reflexivity|].
  split; [reflexivity|]. split; [reflexivity|].
  exact (larger_samples_never_lower_the_dac
           [adc_tick 1 100; display_tick 1; adc_tick 1 200]
           [adc_tick 1 300; display_tick 1; adc_tick 1 4095]
           Single.init32 Single.init32 Hs Hs Hb eq_refl eq_refl eq_refl).
Defined.
